(** * Sketchy: synchronising Xcode image sets with a folder of exported images

    A shallow embedding of [source/ts/index.ts]: the image locator
    ([findImagePath]), the image-set reconciler ([syncImageSet]) and the
    manifest serialisation, followed by the properties the specification
    states about them.

    Strings are Rocq [string]s, one character for each code unit, the code
    units being those below 256; the file system is a finite map from path to
    what is there, a regular file or a folder; and the calls into Node's
    [path] and [fs-extra] modules are modelled by the functions of the modules
    [Path] and [Fs] below. *)

From Stdlib Require Import ZArith QArith Qround Ascii String Bool Lia.
From stdpp Require Import base option list strings gmap pretty.

Local Open Scope Z_scope.

(** ** JavaScript strings *)

Module Js.

(** [x] in a boolean position, for [x : string | undefined]: [undefined] and
    the empty string are falsy. *)
Definition truthy (x : option string) : bool :=
  match x with
  | Some s => negb (String.eqb s "")
  | None => false
  end.

(** The string behind a truthy value. *)
Definition truthy_value (x : option string) : option string :=
  match x with
  | Some s => if String.eqb s "" then None else Some s
  | None => None
  end.

(** [x && f(x)]: a falsy [x] is the value of the whole expression. *)
Definition and_then (x : option string) (f : string → string) : option string :=
  match x with
  | Some s => if String.eqb s "" then Some "" else Some (f s)
  | None => None
  end.

Definition map_chars (f : ascii → ascii) : string → string :=
  fix go (s : string) : string :=
    match s with
    | EmptyString => EmptyString
    | String c r => String (f c) (go r)
    end.

(** [c.toLowerCase()] for a code unit below 256, the strings of this
    development being made of such code units: the capitals "A".."Z"
    (65..90) and those of the Latin-1 range (192..222, the multiplication sign
    215 apart) are 32 below their small letters; every other code unit is
    kept. *)
Definition lower_char (c : ascii) : ascii :=
  let n := nat_of_ascii c in
  if (Nat.leb 65 n && Nat.leb n 90)%bool then ascii_of_nat (n + 32)
  else if (Nat.leb 192 n && Nat.leb n 222 && negb (Nat.eqb n 215))%bool
       then ascii_of_nat (n + 32)
       else c.

Definition toLowerCase : string → string := map_chars lower_char.

(** [s.replace(/\./ig, "-")]: the pattern is global, every dot is replaced. *)
Definition dot_to_hyphen (c : ascii) : ascii :=
  if Ascii.eqb c "."%char then "-"%char else c.

Definition replace_dots : string → string := map_chars dot_to_hyphen.

Fixpoint drop (n : nat) (s : string) : string :=
  match n, s with
  | O, _ => s
  | S n', String _ r => drop n' r
  | S _, EmptyString => EmptyString
  end.

Fixpoint take (n : nat) (s : string) : string :=
  match n, s with
  | O, _ => EmptyString
  | S n', String c r => String c (take n' r)
  | S _, EmptyString => EmptyString
  end.

(** [s.startsWith(needle)] *)
Fixpoint starts_with (needle s : string) {struct needle} : bool :=
  match needle, s with
  | EmptyString, _ => true
  | String _ _, EmptyString => false
  | String a needle', String b s' => Ascii.eqb a b && starts_with needle' s'
  end.


(** [s.replace(/needle/, by)] for a pattern without the global flag and made
    of literal characters: the leftmost match is replaced, nothing else. *)
Fixpoint replace_first (needle by_ s : string) : string :=
  if starts_with needle s then by_ +:+ drop (String.length needle) s
  else match s with
       | EmptyString => EmptyString
       | String c r => String c (replace_first needle by_ r)
       end.

(** [Math.round]: the nearest integer, ties towards plus infinity. *)
Definition Math_round (x : Q) : Z := Qfloor (x + (1 # 2)).

End Js.

(** ** Node's [path] module (POSIX flavour) *)

Module Path.

Definition slash : ascii := "/"%char.

(** The components of a path, separators removed: ["a//b/"] has the
    components ["a"], [""], ["b"], [""]. *)
Fixpoint split (p : string) : list string :=
  match p with
  | EmptyString => [EmptyString]
  | String c r =>
      if Ascii.eqb c slash then EmptyString :: split r
      else match split r with
           | h :: t => String c h :: t
           | [] => [String c EmptyString]
           end
  end.

Fixpoint unsplit (l : list string) : string :=
  match l with
  | [] => EmptyString
  | [x] => x
  | x :: r => x +:+ String slash (unsplit r)
  end.

Definition nonempty (s : string) : bool := negb (String.eqb s "").

(** One step of [normalizeString]: the stack holds the components kept so
    far, innermost first. *)
Definition normalize_step (allowAboveRoot : bool) (stack : list string) (seg : string)
  : list string :=
  if String.eqb seg "" || String.eqb seg "." then stack
  else if String.eqb seg ".." then
    match stack with
    | top :: rest =>
        if String.eqb top ".." then (if allowAboveRoot then seg :: stack else stack)
        else rest
    | [] => if allowAboveRoot then [seg] else []
    end
  else seg :: stack.

Definition normalize_stack (allowAboveRoot : bool) (p : string) : list string :=
  fold_left (normalize_step allowAboveRoot) (split p) [].

Definition isAbsolute (p : string) : bool :=
  match p with
  | String c _ => Ascii.eqb c slash
  | EmptyString => false
  end.

Definition trailingSeparator (p : string) : bool :=
  match last (split p) with
  | Some "" => negb (String.eqb p "")
  | _ => false
  end.

(** [path.normalize(p)] *)
Definition normalize (p : string) : string :=
  if String.eqb p "" then "."
  else
    let body := unsplit (rev (normalize_stack (negb (isAbsolute p)) p)) in
    if String.eqb body "" then
      (if isAbsolute p then "/" else if trailingSeparator p then "./" else ".")
    else
      let body := if trailingSeparator p then body +:+ "/" else body in
      if isAbsolute p then String slash body else body.

(** [path.join(a, b)] *)
Definition join (a b : string) : string :=
  let joined :=
    if String.eqb a "" then b
    else if String.eqb b "" then a
    else a +:+ String slash b in
  normalize joined.

(** [path.basename(p)]: the last component that is not empty. *)
Definition basename (p : string) : string :=
  default "" (last (filter (λ s, nonempty s = true) (split p))).

(** Cutting a component at its last dot: [Some (stem, ext)], the dot
    opening [ext]. *)
Fixpoint cut_ext (s : string) : option (string * string) :=
  match s with
  | EmptyString => None
  | String c r =>
      match cut_ext r with
      | Some (stem, ext) => Some (String c stem, ext)
      | None => if Ascii.eqb c "."%char then Some (EmptyString, s) else None
      end
  end.

(** [path.extname(p)]: from the last dot of the last component; empty when
    there is no dot, when the component starts with its only dot, and for
    the component [".."]. *)
Definition extname (p : string) : string :=
  let base := basename p in
  match cut_ext base with
  | Some (stem, ext) =>
      if String.eqb stem "" || String.eqb base ".." then "" else ext
  | None => ""
  end.

(** [s] without the suffix [ext], when it ends with it. *)
Fixpoint strip_suffix (ext s : string) : option string :=
  if String.eqb s ext then Some EmptyString
  else match s with
       | EmptyString => None
       | String c r => option_map (String c) (strip_suffix ext r)
       end.

(** [path.basename(p, ext)]: the last component without [ext], unless the
    component is [ext] itself or does not end with it. The only caller
    passes [ext = extname p], which holds no separator. *)
Definition basename_ext (p ext : string) : string :=
  if String.eqb ext "" then basename p
  else if String.eqb ext p then ""
  else
    let base := basename p in
    match strip_suffix ext base with
    | Some stem => if String.eqb stem "" then base else stem
    | None => base
    end.

End Path.

(** ** The file system, as [fs-extra] shows it

    A finite map that tells, for each path the program asks about, what is
    there: a regular file, a folder, or nothing. A path is a key as
    [path.join] builds it, and two paths are the same place when they are the
    same key. A folder is an entry of its own, next to the entries it holds;
    a map in which an entry lies in something that is not listed as a folder
    describes no disk ([consistent]). What the program does to regular files
    is described in full. Of a folder the map tells that it exists and what
    [statSync] reports; a run that removes or copies a folder is cut short
    here (see [Unsupported]), so that nothing is stated about it. *)

Module Fs.

(** An entry: its bytes, its modification time in milliseconds, and whether
    it is a folder. For a folder the bytes only stand for the size
    [statSync] reports. *)
Record File := { data : string; file_mtimeMs : Q; folder : bool }.

(** What [fs.statSync] reports and the program reads. *)
Record Stats := { size : Z; mtimeMs : Q }.

Definition stat_of (f : File) : Stats :=
  {| size := Z.of_nat (String.length (data f)); mtimeMs := file_mtimeMs f |}.

Definition existsSync (fs : gmap string File) (p : string) : bool :=
  match fs !! p with Some _ => true | None => false end.

(** [fs.existsSync(p) && fs.statSync(p)] *)
Definition statSync (fs : gmap string File) (p : string) : option Stats :=
  stat_of <$> fs !! p.

Definition is_folder (fs : gmap string File) (p : string) : bool :=
  match fs !! p with
  | Some f => folder f
  | None => false
  end.

(** The folders a path lies in: what stands before each of its separators,
    the root apart. *)
Fixpoint parents_from (before p : string) : list string :=
  match p with
  | EmptyString => []
  | String c r =>
      (if Ascii.eqb c "/"%char && negb (String.eqb before "") then [before] else [])
      ++ parents_from (before +:+ String c "") r
  end.

Definition parents (p : string) : list string := parents_from "" p.

(** The map describes a disk: whatever an entry lies in is listed as a
    folder. *)
Definition consistent (fs : gmap string File) : bool :=
  forallb (λ kv, forallb (is_folder fs) (parents (fst kv))) (map_to_list fs).

(** [fs.removeSync(p)]: removes a regular file, silent when nothing is
    there. It also removes a folder with all it holds, which is not
    described: [None]. *)
Definition removeSync (p : string) (fs : gmap string File) : option (gmap string File) :=
  if is_folder fs p then None else Some (delete p fs).

(** The copy of a regular file under [preserveTimestamps]: the bytes, and
    the modification time as the [Date] of the source's [Stats] carries it,
    which is the time rounded to the millisecond. *)
Definition copy_of (f : File) : File :=
  {| data := data f;
     file_mtimeMs := inject_Z (Js.Math_round (file_mtimeMs f));
     folder := false |}.

Inductive Copy :=
| Copied (fs : gmap string File)
| Refused      (* [copySync] throws *)
| Beyond.      (* the source is a folder, copied with all it holds: not described *)

(** [fs.copySync(src, dest, {preserveTimestamps: true})]. It throws when the
    source does not exist, when source and destination are the same place
    (the message is that they must not be the same), and when a regular file
    would overwrite a folder; otherwise the destination becomes the copy of
    the source, an older file there being overwritten. *)
Definition copySync (src dest : string) (fs : gmap string File) : Copy :=
  match fs !! src with
  | None => Refused
  | Some f =>
      if String.eqb src dest then Refused
      else if folder f then Beyond
      else if is_folder fs dest then Refused
      else Copied (<[dest := copy_of f]> fs)
  end.

End Fs.

(** ** The data of [index.ts] *)

(** One element of [appearances]. *)
Record Appearance := { appearance : string; value : string }.

(** [ImageSetImage]: [filename] is absent when no image is assigned. The
    interface declares [appearances] as an optional tuple of one element; at
    run time it is the array [JSON.parse] read, of any length, which the
    program indexes at 0. *)
Record ImageSetImage := {
  idiom : string;
  filename : option string;
  scale : string;
  appearances : option (list Appearance)
}.

Record Info := { version : Z; author : string }.

(** [ImageSetContents] *)
Record ImageSetContents := { images : list ImageSetImage; info : Info }.

(** [ImageSetSyncResult] *)
Record ImageSetSyncResult := {
  unassigned : bool;
  updated : list string;
  missing : list string;
  skipped : list string
}.

Definition new_ImageSetSyncResult : ImageSetSyncResult :=
  {| unassigned := false; updated := []; missing := []; skipped := [] |}.

(** What a JavaScript call can throw here. [Unsupported] is no exception of
    the program: it ends the description of a run at the point where the
    program removes or copies a folder. *)
Inductive Exn :=
| TypeError   (* reading a property of [undefined] *)
| IoError     (* an error thrown by a file operation *)
| Unsupported.

Inductive Completion (A : Type) :=
| Normal (a : A)
| Throw (e : Exn).
Arguments Normal {A} a.
Arguments Throw {A} e.

Global Instance Completion_ret : MRet Completion := λ A a, Normal a.
Global Instance Completion_bind : MBind Completion := λ A B k c,
  match c with
  | Normal a => k a
  | Throw e => Throw e
  end.

(** ** The locator: [findImagePath] *)

(** [image.appearances == undefined ? "" : `-${image.appearances[0].value}`] *)
Definition appearance_suffix (image : ImageSetImage) : Completion string :=
  match appearances image with
  | None => Normal ""
  | Some [] => Throw TypeError
  | Some (first :: _) => Normal ("-" +:+ value first)
  end.

(** [image.scale == "1x" ? "" : `@${image.scale}`] *)
Definition scale_suffix (image : ImageSetImage) : string :=
  if String.eqb (scale image) "1x" then "" else "@" +:+ scale image.

(** [path.basename(imageSetPath, path.extname(imageSetPath)).replace(/\./ig, "-").toLowerCase()] *)
Definition derived_name (imageSetPath : string) : string :=
  Js.toLowerCase (Js.replace_dots (Path.basename_ext imageSetPath (Path.extname imageSetPath))).

(** The two lookups by image-set name (lines 129-140). *)
Definition findDerivedPath (fs : gmap string Fs.File) (imageSetPath imageSourcePath : string)
    (image : ImageSetImage) : Completion (option string) :=
  appearance ← appearance_suffix image ;
  let scale := scale_suffix image in
  let filename := derived_name imageSetPath in
  let explicit := Path.join imageSourcePath (filename +:+ appearance +:+ scale +:+ ".png") in
  if Fs.existsSync fs explicit then Normal (Some explicit)
  else
    let light := Path.join imageSourcePath (filename +:+ "-light" +:+ scale +:+ ".png") in
    if Fs.existsSync fs light then Normal (Some light)
    else Normal None.

Definition findImagePath (fs : gmap string Fs.File) (imageSetPath imageSourcePath : string)
    (image : ImageSetImage) : Completion (option string) :=
  match Js.truthy_value (filename image) with
  | Some recorded =>
      let imagePath := Path.join imageSourcePath recorded in
      if Fs.existsSync fs imagePath then Normal (Some imagePath)
      else findDerivedPath fs imageSetPath imageSourcePath image
  | None => findDerivedPath fs imageSetPath imageSourcePath image
  end.

(** ** The reconciler: [syncImageSet] *)

(** What the callback of [contents.images.forEach] reads and writes outside
    the image it is given. *)
Record SyncState := {
  files : gmap string Fs.File;
  result : ImageSetSyncResult;
  needsContentsUpdate : bool
}.

Definition set_unassigned (r : ImageSetSyncResult) : ImageSetSyncResult :=
  {| unassigned := true; updated := updated r; missing := missing r; skipped := skipped r |}.
Definition push_updated (f : string) (r : ImageSetSyncResult) : ImageSetSyncResult :=
  {| unassigned := unassigned r; updated := updated r ++ [f]; missing := missing r;
     skipped := skipped r |}.
Definition push_missing (f : string) (r : ImageSetSyncResult) : ImageSetSyncResult :=
  {| unassigned := unassigned r; updated := updated r; missing := missing r ++ [f];
     skipped := skipped r |}.
Definition push_skipped (f : string) (r : ImageSetSyncResult) : ImageSetSyncResult :=
  {| unassigned := unassigned r; updated := updated r; missing := missing r;
     skipped := skipped r ++ [f] |}.

Definition set_filename (f : string) (image : ImageSetImage) : ImageSetImage :=
  {| idiom := idiom image; filename := Some f; scale := scale image;
     appearances := appearances image |}.

(** [oldStat && newStat && newStat.size === oldStat.size &&
     Math.round(newStat.mtimeMs) === Math.round(oldStat.mtimeMs)] *)
Definition same_stat (oldStat newStat : option Fs.Stats) : bool :=
  match oldStat, newStat with
  | Some o, Some n =>
      (Fs.size n =? Fs.size o) &&
      (Js.Math_round (Fs.mtimeMs n) =? Js.Math_round (Fs.mtimeMs o))
  | _, _ => false
  end.

(** Lines 112-113, [pushed] being [image.filename] at that point. *)
Definition copy_and_report (imageSetPath newImagePath pushed : string) (image : ImageSetImage)
    (fs : gmap string Fs.File) (r : ImageSetSyncResult) (needs : bool)
    : Completion (SyncState * ImageSetImage) :=
  match Fs.copySync newImagePath (Path.join imageSetPath (Path.basename newImagePath)) fs with
  | Fs.Copied fs' =>
      Normal ({| files := fs'; result := push_updated pushed r; needsContentsUpdate := needs |},
              image)
  | Fs.Refused => Throw IoError
  | Fs.Beyond => Throw Unsupported
  end.

(** Lines 104-106 followed by 112-113: the entry takes the name of the file
    that was found. *)
Definition replace_image (imageSetPath newImagePath : string) (oldImagePath : option string)
    (image : ImageSetImage) (st : SyncState) : Completion (SyncState * ImageSetImage) :=
  fs1 ← match Js.truthy_value oldImagePath with
         | Some old =>
             match Fs.removeSync old (files st) with
             | Some fs1 => Normal fs1
             | None => Throw Unsupported
             end
         | None => Normal (files st)
         end;
  let name := Path.basename newImagePath in
  copy_and_report imageSetPath newImagePath name (set_filename name image) fs1 (result st) true.

(** The callback of [contents.images.forEach] (lines 92-114). [oldImagePath]
    is truthy exactly when [image.filename] is, and is then
    [path.join(imageSetPath, image.filename)]: the test of line 103 is the
    match on the recorded filename followed by the comparison of the base
    names. *)
Definition syncImage (imageSetPath imageSourcePath : string) (st : SyncState)
    (image : ImageSetImage) : Completion (SyncState * ImageSetImage) :=
  let oldImagePath := Js.and_then (filename image) (Path.join imageSetPath) in
  newImagePath ← findImagePath (files st) imageSetPath imageSourcePath image ;
  let oldStat := Js.truthy_value oldImagePath ≫= Fs.statSync (files st) in
  let newStat := Js.truthy_value newImagePath ≫= Fs.statSync (files st) in
  match Js.truthy_value newImagePath with
  | None =>
      match filename image with
      | None =>
          Normal ({| files := files st; result := set_unassigned (result st);
                     needsContentsUpdate := needsContentsUpdate st |}, image)
      | Some recorded =>
          Normal ({| files := files st; result := push_missing recorded (result st);
                     needsContentsUpdate := needsContentsUpdate st |}, image)
      end
  | Some new =>
      match Js.truthy_value (filename image) with
      | None => replace_image imageSetPath new oldImagePath image st
      | Some recorded =>
          let old := Path.join imageSetPath recorded in
          if negb (String.eqb (Path.basename old) (Path.basename new)) then
            replace_image imageSetPath new oldImagePath image st
          else if same_stat oldStat newStat then
            Normal ({| files := files st; result := push_skipped recorded (result st);
                       needsContentsUpdate := needsContentsUpdate st |}, image)
          else
            copy_and_report imageSetPath new recorded image (files st) (result st)
              (needsContentsUpdate st)
      end
  end.

(** [contents.images.forEach(...)]: the images in manifest order, each call
    seeing what the calls before it left. *)
Fixpoint forEach_image (imageSetPath imageSourcePath : string) (imgs : list ImageSetImage)
    (st : SyncState) : Completion (SyncState * list ImageSetImage) :=
  match imgs with
  | [] => Normal (st, [])
  | image :: rest =>
      '(st1, image1) ← syncImage imageSetPath imageSourcePath st image ;
      '(st2, rest2) ← forEach_image imageSetPath imageSourcePath rest st1 ;
      Normal (st2, image1 :: rest2)
  end.

(** ** Writing the manifest: [JSON.stringify(contents, null, 2)] *)

Module Json.

(** The values a manifest is made of. *)
#[warnings="-register-all"]
Inductive json :=
| JNumber (z : Z)
| JString (s : string)
| JArray (items : list json)
| JObject (props : list (string * json)).

Definition dquote : ascii := "034"%char.
Definition newline : ascii := "010"%char.

Definition hex_digit (n : nat) : ascii :=
  if Nat.ltb n 10 then ascii_of_nat (48 + n) else ascii_of_nat (87 + n).

(** [QuoteJSONString], one code unit at a time. *)
Definition escape_char (c : ascii) : string :=
  let n := nat_of_ascii c in
  if Ascii.eqb c dquote then String "\"%char (String dquote "")
  else if Ascii.eqb c "\"%char then "\\"
  else if Nat.eqb n 8 then "\b"
  else if Nat.eqb n 9 then "\t"
  else if Nat.eqb n 10 then "\n"
  else if Nat.eqb n 12 then "\f"
  else if Nat.eqb n 13 then "\r"
  else if Nat.ltb n 32 then
    "\u00" +:+ String (hex_digit (Nat.div n 16)) (String (hex_digit (Nat.modulo n 16)) "")
  else String c "".

Fixpoint escape (s : string) : string :=
  match s with
  | EmptyString => EmptyString
  | String c r => escape_char c +:+ escape r
  end.

Definition quote (s : string) : string :=
  String dquote (escape s +:+ String dquote "").

(** The indentation unit for [space = 2]. *)
Definition gap : string := "  ".

(** [partial.join(sep)] *)
Fixpoint join_with (sep : string) (parts : list string) : string :=
  match parts with
  | [] => EmptyString
  | [x] => x
  | x :: r => x +:+ sep +:+ join_with sep r
  end.

(** The closing of [SerializeJSONObject] and [SerializeJSONArray]. *)
Definition wrap (open close indent : string) (parts : list string) : string :=
  match parts with
  | [] => open +:+ close
  | _ =>
      let inner := indent +:+ gap in
      open +:+ String newline inner
        +:+ join_with ("," +:+ String newline inner) parts
        +:+ String newline indent +:+ close
  end.

(** [SerializeJSONProperty] at the indentation [indent]. *)
Fixpoint serialize (indent : string) (v : json) {struct v} : string :=
  match v with
  | JNumber z => pretty z
  | JString s => quote s
  | JArray items =>
      wrap "[" "]" indent (List.map (serialize (indent +:+ gap)) items)
  | JObject props =>
      wrap "{" "}" indent
        (List.map (λ kv, quote (fst kv) +:+ ": " +:+ serialize (indent +:+ gap) (snd kv)) props)
  end.

Definition stringify (v : json) : string := serialize "" v.

End Json.

Import Json.

(** The object [JSON.parse] built, as [JSON.stringify] walks it. JavaScript
    keeps the keys in the order of the parsed file, puts a key that is
    assigned for the first time after the others, and carries along the keys
    the interfaces do not name. Here a manifest holds the keys of the
    interfaces and no other, in the order of the interfaces, so that an entry
    which had no filename [before] the run has it as its last key [after] it.
    A key whose value is [undefined] is not serialised. *)
Definition json_of_appearance (a : Appearance) : json :=
  JObject [("appearance", JString (appearance a)); ("value", JString (value a))].

Definition json_of_image (before after : ImageSetImage) : json :=
  JObject
    ([("idiom", JString (idiom after))]
     ++ match filename before, filename after with
        | Some _, Some f => [("filename", JString f)]
        | _, _ => []
        end
     ++ [("scale", JString (scale after))]
     ++ match appearances after with
        | Some l => [("appearances", JArray (List.map json_of_appearance l))]
        | None => []
        end
     ++ match filename before, filename after with
        | None, Some f => [("filename", JString f)]
        | _, _ => []
        end).

Definition json_of_contents (before after : ImageSetContents) : json :=
  JObject
    [("images", JArray (zip_with json_of_image (images before) (images after)));
     ("info", JObject [("version", JNumber (version (info after)));
                       ("author", JString (author (info after)))])].

(** The pattern of the replacement, a double quote, a colon and a space, and
    what is put in its place. *)
Definition delimiter : string := String dquote ": ".
Definition padded_delimiter : string := String dquote " : ".

(** [JSON.stringify(contents, null, 2).replace(...)] of line 117, for
    whatever object [contents] is. *)
Definition write_text (contents : json) : string :=
  Js.replace_first delimiter padded_delimiter (stringify contents).

Definition manifest_text (before after : ImageSetContents) : string :=
  write_text (json_of_contents before after).


(** What one call of [syncImageSet] leaves: the files, the manifest object as
    mutated, the report, and what was written to [Contents.json] if it was. *)
Record Run := {
  run_files : gmap string Fs.File;
  run_contents : ImageSetContents;
  run_result : ImageSetSyncResult;
  run_written : option (string * string)
}.

(** [syncImageSet] (lines 86-119). [contents] is what
    [JSON.parse(fs.readFileSync(contentsPath, "utf8"))] returned: the manifest
    file itself is kept outside [files], reading it is this argument and
    writing it is [run_written]. The two describe the same disk as long as no
    entry names the manifest file, which [sound_image] below asks for. *)
Definition syncImageSet (fs : gmap string Fs.File) (imageSetPath imageSourcePath : string)
    (contents : ImageSetContents) : Completion Run :=
  let contentsPath := Path.join imageSetPath "Contents.json" in
  '(st, imgs) ← forEach_image imageSetPath imageSourcePath (images contents)
                 {| files := fs; result := new_ImageSetSyncResult;
                    needsContentsUpdate := false |};
  let contents' := {| images := imgs; info := info contents |} in
  Normal {| run_files := files st;
            run_contents := contents';
            run_result := result st;
            run_written := if needsContentsUpdate st
                           then Some (contentsPath, manifest_text contents contents')
                           else None |}.



(** ** The layout of the written text, as the specification has it

    JSON over lines: a value that holds members opens on one line, has each
    member on lines of its own, two spaces further in than the line it opens
    on, a comma closing every member but the last, and closes on a line as
    far in as the one it opened on. *)

Module Layout.

(** Two spaces for each level. *)
Fixpoint indent (depth : nat) : string :=
  match depth with
  | O => ""
  | S d => indent d +:+ "  "
  end.





End Layout.



(** ** Examples *)

Definition file (bytes : string) (t : Q) : Fs.File :=
  {| Fs.data := bytes; Fs.file_mtimeMs := t; Fs.folder := false |}.

Definition entry (f : option string) (s : string) : ImageSetImage :=
  {| idiom := "universal"; filename := f; scale := s; appearances := None |}.

Definition xcode : Info := {| version := 1; author := "xcode" |}.

Definition icon_set : string := "Assets.xcassets/Icon.imageset".
Definition pool : string := "pool".

(** A folder, and the folders of the examples: the pool, the catalog and the
    image set. *)
Definition dir : Fs.File :=
  {| Fs.data := ""; Fs.file_mtimeMs := 0; Fs.folder := true |}.

Definition folders : gmap string Fs.File :=
  {[ "pool" := dir; "Assets.xcassets" := dir; "Assets.xcassets/Icon.imageset" := dir ]}.

(** The files [fs] with the folders they lie in. *)
Definition on_disk (fs : gmap string Fs.File) : gmap string Fs.File := fs ∪ folders.

(** The code units of the capital and of the small e with an acute accent. *)
Definition capital_e_acute : ascii := "201"%char.
Definition small_e_acute : ascii := "233"%char.

(** The installed file and the exported one differ in their bytes only. *)
Definition same_time_files : gmap string Fs.File :=
  {[ "Assets.xcassets/Icon.imageset/icon.png" := file "old" (5002 # 5);
     "pool/icon.png" := file "new" 1000 ]}.

(** The exported file is newer than the installed one. *)
Definition newer_files : gmap string Fs.File :=
  {[ "Assets.xcassets/Icon.imageset/icon.png" := file "old" 1000;
     "pool/icon.png" := file "new" 2000 ]}.

(** The exported file is later than the installed one, by a time that is
    not a whole number of milliseconds. *)
Definition later_files : gmap string Fs.File :=
  {[ "Assets.xcassets/Icon.imageset/icon.png" := file "old" 1000;
     "pool/icon.png" := file "new" (4001 # 2) ]}.

(** The image-set folder when it is the source folder as well. *)
Definition same_folder_files : gmap string Fs.File :=
  on_disk {[ "Assets.xcassets/Icon.imageset/icon.png" := file "new" 2000 ]}.

(** The installed file goes by a name the pool does not know. *)
Definition renamed_files : gmap string Fs.File :=
  {[ "Assets.xcassets/Icon.imageset/old.png" := file "old" 1000;
     "pool/icon.png" := file "new" 2000 ]}.

(** An installed file that is out of date, an entry without a file whose
    export exists, and an entry whose file is nowhere. *)
Definition sample_files : gmap string Fs.File :=
  {[ "Assets.xcassets/Icon.imageset/icon.png" := file "old" 1000;
     "pool/icon.png" := file "new" 2000;
     "pool/icon@2x.png" := file "new@2x" (4001 # 2) ]}.

Definition sample_contents : ImageSetContents :=
  {| images := [entry (Some "icon.png") "1x"; entry None "2x"; entry (Some "gone.png") "3x"];
     info := xcode |}.

Definition empty_run : Run :=
  {| run_files := ∅; run_contents := {| images := []; info := xcode |};
     run_result := new_ImageSetSyncResult; run_written := None |}.

Definition run_of (c : Completion Run) : Run :=
  match c with
  | Normal r => r
  | Throw _ => empty_run
  end.

Definition sample_run : Run := run_of (syncImageSet sample_files icon_set pool sample_contents).

(** A run that removes the installed file and copies the exported one. *)
Definition renamed_run : Run :=
  run_of (syncImageSet (on_disk renamed_files) icon_set pool
            {| images := [entry (Some "old.png") "1x"]; info := xcode |}).

(** The same run with the folders listed. *)
Definition disk_run : Run :=
  run_of (syncImageSet (on_disk sample_files) icon_set pool sample_contents).

(** The pool holds the light variant only. *)
Definition light_files : gmap string Fs.File :=
  on_disk {[ "pool/icon-light@2x.png" := file "png" 7 ]}.





(** A manifest that records the directory name [.], the pool being the
    current directory, which stands here as an entry that can be copied. *)
Definition dot_contents : ImageSetContents :=
  {| images := [entry (Some ".") "1x"]; info := xcode |}.

Definition dot_files : gmap string Fs.File := {[ "." := file "cwd" 1 ]}.

Definition dot_run : Run :=
  run_of (syncImageSet dot_files "/dest/Assets.xcassets/Icon.imageset" "." dot_contents).

Definition no_appearance : ImageSetImage :=
  {| idiom := "universal"; filename := None; scale := "2x"; appearances := Some [] |}.

Definition dark_3x : ImageSetImage :=
  {| idiom := "universal"; filename := None; scale := "3x";
     appearances := Some [ {| appearance := "luminosity"; value := "dark" |};
                           {| appearance := "contrast"; value := "high" |} ] |}.

(** ** Well-formed manifests

    A recorded filename is empty or the name of a file inside the image-set
    folder, and the scale and appearance values are name fragments: none of
    them holds a path separator. *)

Fixpoint no_slash (s : string) : bool :=
  match s with
  | EmptyString => true
  | String c r => negb (Ascii.eqb c Path.slash) && no_slash r
  end.

Definition plain_name (f : string) : bool :=
  no_slash f && negb (String.eqb f "") && negb (String.eqb f ".") && negb (String.eqb f "..").

Definition plain_filename (image : ImageSetImage) : bool :=
  match filename image with
  | Some f => String.eqb f "" || plain_name f
  | None => true
  end.

(** The recorded filename is not one of the two directory names. *)
Definition names_no_directory (image : ImageSetImage) : Prop :=
  filename image ≠ Some "." ∧ filename image ≠ Some "..".

Definition plain_suffixes (image : ImageSetImage) : bool :=
  no_slash (scale image) &&
  match appearances image with
  | Some (first :: _) => no_slash (value first)
  | _ => true
  end.

Definition plain_image (image : ImageSetImage) : bool :=
  plain_filename image && plain_suffixes image.

(** No folder lies directly in [dir]. *)
Definition regular (fs : gmap string Fs.File) (dir : string) : Prop :=
  ∀ x, plain_name x = true → Fs.is_folder fs (Path.join dir x) = false.

(** The same, as a test on the entries of the map. *)
Definition holds_no_folder (fs : gmap string Fs.File) (dir : string) : bool :=
  forallb (λ kv, negb (Fs.folder (snd kv) && plain_name (Path.basename (fst kv))
                       && String.eqb (fst kv) (Path.join dir (Path.basename (fst kv)))))
          (map_to_list fs).

(** What [Path.join dir name] puts before a plain [name]. *)
Definition dir_prefix (dir : string) : string :=
  if String.eqb dir "" then ""
  else
    (if Path.isAbsolute dir then "/" else "") +:+
    match Path.normalize_stack (negb (Path.isAbsolute dir)) dir with
    | [] => ""
    | stack => Path.unsplit (rev stack) +:+ "/"
    end.

(** A directory prefix: empty, or closed by a separator. *)
Definition dirlike (pre : string) : Prop :=
  pre = "" ∨ ∃ q, pre = q +:+ "/".

(** The recorded filename is absent or names no file of the pool. *)
Definition stale (fs : gmap string Fs.File) (imageSourcePath : string) (image : ImageSetImage)
  : Prop :=
  match filename image with
  | Some f => fs !! Path.join imageSourcePath f = None
  | None => True
  end.

(** The old and the new file have the same size and the same modification
    time once rounded to the millisecond. *)
Definition same_size_and_time (fs : gmap string Fs.File) (old new : string) : Prop :=
  ∃ o n, fs !! old = Some o ∧ fs !! new = Some n ∧
         String.length (Fs.data n) = String.length (Fs.data o) ∧
         Js.Math_round (Fs.file_mtimeMs n) = Js.Math_round (Fs.file_mtimeMs o).

(** The four ways one entry is settled, with the state and the entry the
    callback leaves in each. *)
Inductive sync_case (imageSetPath imageSourcePath : string) (st : SyncState)
    (image : ImageSetImage) : SyncState → ImageSetImage → Prop :=
| sync_not_found :
    findImagePath (files st) imageSetPath imageSourcePath image = Normal None →
    sync_case imageSetPath imageSourcePath st image
      {| files := files st;
         result := match filename image with
                   | None => set_unassigned (result st)
                   | Some recorded => push_missing recorded (result st)
                   end;
         needsContentsUpdate := needsContentsUpdate st |}
      image
| sync_skipped (new recorded : string) :
    findImagePath (files st) imageSetPath imageSourcePath image = Normal (Some new) →
    Js.truthy_value (filename image) = Some recorded →
    Path.basename (Path.join imageSetPath recorded) = Path.basename new →
    same_stat (Fs.statSync (files st) (Path.join imageSetPath recorded))
              (Fs.statSync (files st) new) = true →
    sync_case imageSetPath imageSourcePath st image
      {| files := files st;
         result := push_skipped recorded (result st);
         needsContentsUpdate := needsContentsUpdate st |}
      image
| sync_refreshed (new recorded : string) (n : Fs.File) :
    findImagePath (files st) imageSetPath imageSourcePath image = Normal (Some new) →
    Js.truthy_value (filename image) = Some recorded →
    Path.basename (Path.join imageSetPath recorded) = Path.basename new →
    same_stat (Fs.statSync (files st) (Path.join imageSetPath recorded))
              (Fs.statSync (files st) new) = false →
    files st !! new = Some n →
    new ≠ Path.join imageSetPath (Path.basename new) →
    Fs.folder n = false →
    Fs.is_folder (files st) (Path.join imageSetPath (Path.basename new)) = false →
    sync_case imageSetPath imageSourcePath st image
      {| files := <[Path.join imageSetPath (Path.basename new) := Fs.copy_of n]> (files st);
         result := push_updated recorded (result st);
         needsContentsUpdate := needsContentsUpdate st |}
      image
| sync_replaced (new : string) (n : Fs.File) :
    findImagePath (files st) imageSetPath imageSourcePath image = Normal (Some new) →
    match Js.truthy_value (filename image) with
    | Some recorded => Path.basename (Path.join imageSetPath recorded) ≠ Path.basename new
    | None => True
    end →
    files st !! new = Some n →
    new ≠ Path.join imageSetPath (Path.basename new) →
    Fs.folder n = false →
    match Js.truthy_value (filename image) with
    | Some recorded => Fs.is_folder (files st) (Path.join imageSetPath recorded) = false
    | None => True
    end →
    Fs.is_folder (files st) (Path.join imageSetPath (Path.basename new)) = false →
    sync_case imageSetPath imageSourcePath st image
      {| files := <[Path.join imageSetPath (Path.basename new) := Fs.copy_of n]>
                    match Js.truthy_value (filename image) with
                    | Some recorded => delete (Path.join imageSetPath recorded) (files st)
                    | None => files st
                    end;
         result := push_updated (Path.basename new) (result st);
         needsContentsUpdate := true |}
      (set_filename (Path.basename new) image).

(** The files of the pool are the same in [fs] and [fs']. *)
Definition pool_unchanged (imageSourcePath : string) (fs fs' : gmap string Fs.File) : Prop :=
  ∀ x, plain_name x = true → fs' !! Path.join imageSourcePath x = fs !! Path.join imageSourcePath x.

(** The file [name] of the image-set folder passes for the one of the pool. *)
Definition in_sync (imageSetPath imageSourcePath : string) (fs : gmap string Fs.File)
    (name : string) : Prop :=
  same_stat (Fs.statSync fs (Path.join imageSetPath name))
            (Fs.statSync fs (Path.join imageSourcePath name)) = true.

(** [fs'] comes after [fs] in a run: same pool, and what was in sync still is. *)
Definition settles (imageSetPath imageSourcePath : string) (fs fs' : gmap string Fs.File)
  : Prop :=
  pool_unchanged imageSourcePath fs fs' ∧
  ∀ name, plain_name name = true →
    in_sync imageSetPath imageSourcePath fs name → in_sync imageSetPath imageSourcePath fs' name.

(** An entry a run has nothing to do for: its file is in sync, or nothing is
    found for it. *)
Definition at_rest (imageSetPath imageSourcePath : string) (fs : gmap string Fs.File)
    (image : ImageSetImage) : Prop :=
  plain_image image = true ∧
  ((∃ name, filename image = Some name ∧ plain_name name = true ∧
            in_sync imageSetPath imageSourcePath fs name) ∨
   findImagePath fs imageSetPath imageSourcePath image = Normal None).

(** Some entry has another [filename] after the run than before. *)
Definition filename_changed (before after : list ImageSetImage) : Prop :=
  ∃ i a b, before !! i = Some a ∧ after !! i = Some b ∧ filename a ≠ filename b.

(** ** The asset catalog and the entry point

    What the rest of the program reads: the listing of a directory
    ([fs.readdirSync]) and, for each manifest file, the object [JSON.parse]
    makes of its text. The text written at line 117 is taken to parse back to
    the object it serialises. The listings are those of the asset root and of
    the catalogs, which no reconciliation writes to. [image_files] holds the
    files that are not manifests: the two maps describe the same disk as long
    as no entry of a manifest names a manifest file, which [sound] below
    asks for. What the disk holds after a failure is not described. *)

Record World := {
  image_files : gmap string Fs.File;
  manifests : gmap string ImageSetContents;
  listings : gmap string (list string)
}.

(** [syncImageSet] with its read of [Contents.json] (line 88) and its write
    (line 117): a manifest that cannot be read throws. *)
Definition syncImageSet_io (w : World) (imageSetPath imageSourcePath : string)
    : Completion (World * ImageSetSyncResult) :=
  let contentsPath := Path.join imageSetPath "Contents.json" in
  match manifests w !! contentsPath with
  | None => Throw IoError
  | Some contents =>
      r ← syncImageSet (image_files w) imageSetPath imageSourcePath contents;
      Normal ({| image_files := run_files r;
                 manifests := match run_written r with
                              | Some _ => <[contentsPath := run_contents r]> (manifests w)
                              | None => manifests w
                              end;
                 listings := listings w |},
              run_result r)
  end.

(** [AssetCatalogSyncResult]: an object keyed by image-set name. Its keys are
    names with an extension, never array indices, so [Object.entries] lists
    them in the order of their first assignment. *)
Definition AssetCatalogSyncResult : Type := list (string * ImageSetSyncResult).

(** [result[key] = value] *)
Fixpoint set_key (key : string) (value : ImageSetSyncResult) (o : AssetCatalogSyncResult)
  : AssetCatalogSyncResult :=
  match o with
  | [] => [(key, value)]
  | (k, v) :: rest =>
      if String.eqb k key then (key, value) :: rest else (k, v) :: set_key key value rest
  end.

(** The filter of line 75. *)
Definition is_image_set (f : string) : bool :=
  String.eqb (Path.extname f) ".imageset" || String.eqb (Path.extname f) ".appiconset".

(** [imageSets.forEach(...)] (lines 78-80) *)
Fixpoint forEach_imageSet (assetCatalogPath imageSourcePath : string) (imageSets : list string)
    (w : World) (result : AssetCatalogSyncResult)
    : Completion (World * AssetCatalogSyncResult) :=
  match imageSets with
  | [] => Normal (w, result)
  | imageSet :: rest =>
      '(w1, r) ← syncImageSet_io w (Path.join assetCatalogPath imageSet) imageSourcePath;
      forEach_imageSet assetCatalogPath imageSourcePath rest w1 (set_key imageSet r result)
  end.

(** [syncAssetCatalog] (lines 74-83) *)
Definition syncAssetCatalog (w : World) (assetCatalogPath imageSourcePath : string)
    : Completion (World * AssetCatalogSyncResult) :=
  match listings w !! assetCatalogPath with
  | None => Throw IoError
  | Some names =>
      forEach_imageSet assetCatalogPath imageSourcePath
        (List.filter is_image_set names) w []
  end.

(** The filter of line 45. *)
Definition is_asset_catalog (f : string) : bool :=
  String.eqb (Path.extname f) ".xcassets".

(** [assetCatalogs.map(...)] (line 46) *)
Fixpoint map_assetCatalog (assetPath exportPath : string) (assetCatalogs : list string)
    (w : World) : Completion (World * list AssetCatalogSyncResult) :=
  match assetCatalogs with
  | [] => Normal (w, [])
  | file :: rest =>
      '(w1, r) ← syncAssetCatalog w (Path.join assetPath file) exportPath;
      '(w2, rs) ← map_assetCatalog assetPath exportPath rest w1;
      Normal (w2, r :: rs)
  end.

(** The four arrays of lines 48-51. *)
Record Summary := {
  unassignedImageSets : list string;
  updatedFiles : list string;
  missingFiles : list (string * string);
  skippedFiles : list string
}.

Definition new_Summary : Summary :=
  {| unassignedImageSets := []; updatedFiles := []; missingFiles := []; skippedFiles := [] |}.

(** [entries.forEach((e) => array.push(...items(e)))] *)
Definition forEach_push {A B : Type} (items : A → list B) (entries : list A) (array : list B)
  : list B :=
  fold_left (λ acc e, acc ++ items e) entries array.

(** The callback of [result.forEach] (lines 53-58), for one catalog. *)
Definition collect_catalog (s : Summary) (result : AssetCatalogSyncResult) : Summary :=
  {| unassignedImageSets :=
       forEach_push (λ e, [fst e]) (List.filter (λ e, unassigned (snd e)) result)
         (unassignedImageSets s);
     updatedFiles := forEach_push (λ e, updated (snd e)) result (updatedFiles s);
     missingFiles :=
       forEach_push (λ e, List.map (λ f, (f, fst e)) (missing (snd e))) result (missingFiles s);
     skippedFiles := forEach_push (λ e, skipped (snd e)) result (skippedFiles s) |}.

Definition collect (results : list AssetCatalogSyncResult) : Summary :=
  fold_left collect_catalog results new_Summary.

(** The colours of [chalk] the report uses; what they put around a text
    depends on the terminal. *)
Record Chalk := {
  gray : string → string;
  green : string → string;
  yellow : string → string
}.

(** The character U+2026, as it is written to the standard output. *)
Definition ellipsis : string :=
  String "226"%char (String "128"%char (String "166"%char "")).

Definition line_break : string := String Json.newline "".

(** Lines 60-70: the texts given to [console.log], one after the other. *)
Definition report (chalk : Chalk) (s : Summary) : list string :=
  let bullet := "  " +:+ gray chalk "-" +:+ " " in
  [ if Nat.ltb 0 (length (updatedFiles s))
    then line_break +:+ pretty (length (updatedFiles s)) +:+ " files were updated:"
    else line_break +:+ "No files were updated" +:+ ellipsis ]
  ++ List.map (λ f, bullet +:+ green chalk f) (updatedFiles s)
  ++ (if Nat.ltb 0 (length (missingFiles s))
      then [line_break +:+ pretty (length (missingFiles s)) +:+ " files were not found/updated:"]
      else [])
  ++ List.map (λ fi, bullet +:+ gray chalk (fst fi) +:+ " " +:+ gray chalk "/" +:+ " "
                      +:+ gray chalk (snd fi)) (missingFiles s)
  ++ (if Nat.ltb 0 (length (unassignedImageSets s))
      then [line_break +:+ pretty (length (unassignedImageSets s))
              +:+ " image sets contain unassigned files, you might want to check them out:"]
      else [])
  ++ List.map (λ i, bullet +:+ yellow chalk i) (unassignedImageSets s)
  ++ (if Nat.ltb 0 (length (skippedFiles s))
      then [line_break +:+ pretty (length (skippedFiles s))
              +:+ " files were not modified and skipped:"]
      else [])
  ++ List.map (λ f, bullet +:+ gray chalk f) (skippedFiles s).

(** The header of a section that is printed only when it has items. *)
Definition header_lines (items : nat) : nat :=
  match items with
  | O => 0
  | S _ => 1
  end.

(** How the program ends when it does not reach its last line. *)
Inductive Failure :=
| ConfigError           (* the [Error] of line 43 *)
| Uncaught (e : Exn).

(** The entry point (lines 40-71): [source] and [destination] are the values
    of the two command-line options. *)
Definition main (chalk : Chalk) (source destination : option string) (w : World)
    : Failure + World * list string :=
  match Js.truthy_value source, Js.truthy_value destination with
  | Some exportPath, Some assetPath =>
      match listings w !! assetPath with
      | None => inl (Uncaught IoError)
      | Some names =>
          match map_assetCatalog assetPath exportPath
                  (List.filter is_asset_catalog names) w with
          | Throw e => inl (Uncaught e)
          | Normal (w', result) => inr (w', report chalk (collect result))
          end
      end
  | _, _ => inl ConfigError
  end.

(** The image-set folders of a catalog, as [syncAssetCatalog] visits them. *)
Definition imageSet_paths (w : World) (assetCatalogPath : string) : list string :=
  match listings w !! assetCatalogPath with
  | Some names => Path.join assetCatalogPath <$> List.filter is_image_set names
  | None => []
  end.

(** How many names a result lists. *)
Definition reported (r : ImageSetSyncResult) : nat :=
  (length (updated r) + length (missing r) + length (skipped r))%nat.



(** One of the code units "A".."Z". *)
Definition is_capital (c : ascii) : bool :=
  Nat.leb 65 (nat_of_ascii c) && Nat.leb (nat_of_ascii c) 90.


(** No [appearances] array is empty. *)
Definition typed_appearances (image : ImageSetImage) : Prop :=
  appearances image ≠ Some [].

(** The manifest of the image set is there, and a run has nothing to do for
    any of its entries. *)
Definition settled (w : World) (imageSetPath imageSourcePath : string) : Prop :=
  ∃ contents,
    manifests w !! Path.join imageSetPath "Contents.json" = Some contents ∧
    Forall (at_rest imageSetPath imageSourcePath (image_files w)) (images contents).

(** An entry of a well-formed manifest that does not name the manifest file
    itself. *)
Definition sound_image (image : ImageSetImage) : Prop :=
  plain_image image = true ∧ filename image ≠ Some "Contents.json".

(** Every manifest is well formed, and every listing is one [readdirSync]
    can return: names of directory entries, each once. *)
Definition sound (w : World) : Prop :=
  (∀ path contents, manifests w !! path = Some contents →
     Forall sound_image (images contents)) ∧
  (∀ dir names, listings w !! dir = Some names →
     NoDup names ∧ Forall (λ n, plain_name n = true) names).

(** No manifest has an entry with an empty [appearances] array. *)
Definition typed (w : World) : Prop :=
  ∀ path contents, manifests w !! path = Some contents →
    Forall typed_appearances (images contents).

(** The catalog can be listed and each of its image sets has its manifest. *)
Definition ready (w : World) (assetCatalogPath : string) : Prop :=
  ∃ names,
    listings w !! assetCatalogPath = Some names ∧
    ∀ n, n ∈ names → is_image_set n = true →
         is_Some (manifests w !! Path.join (Path.join assetCatalogPath n) "Contents.json").

(** Two folders that are not the same place. *)
Definition apart (a b : string) : Prop := dir_prefix a ≠ dir_prefix b.

(** The pool and the image-set folders [imageSets] are different places, and
    no folder lies directly in any of them. *)
Definition flat (w : World) (imageSourcePath : string) (imageSets : list string) : Prop :=
  regular (image_files w) imageSourcePath ∧
  ∀ imageSetPath, imageSetPath ∈ imageSets →
    apart imageSetPath imageSourcePath ∧ regular (image_files w) imageSetPath.

(** [syncImageSet] over the folders [imageSets], one after the other. *)
Fixpoint runs (imageSourcePath : string) (imageSets : list string) (w : World)
    : Completion World :=
  match imageSets with
  | [] => Normal w
  | imageSetPath :: rest =>
      '(w1, _) ← syncImageSet_io w imageSetPath imageSourcePath;
      runs imageSourcePath rest w1
  end.

(** An asset root with one catalog of two image sets and a pool. *)
Definition demo_world : World :=
  {| image_files :=
       {[ "assets" := dir;
          "assets/Demo.xcassets" := dir;
          "assets/Demo.xcassets/Icon.imageset" := dir;
          "assets/Demo.xcassets/Icon.imageset/icon.png" := file "old" 1000;
          "assets/Demo.xcassets/Logo.appiconset" := dir;
          "pool" := dir;
          "pool/icon.png" := file "new" 2000;
          "pool/logo@2x.png" := file "logo" 3000 ]};
     manifests :=
       {[ "assets/Demo.xcassets/Icon.imageset/Contents.json" :=
            {| images := [entry (Some "icon.png") "1x"; entry (Some "gone.png") "2x"];
               info := xcode |};
          "assets/Demo.xcassets/Logo.appiconset/Contents.json" :=
            {| images := [entry None "2x"; entry None "3x"]; info := xcode |} ]};
     listings :=
       {[ "assets" := ["Demo.xcassets"; "notes.txt"];
          "assets/Demo.xcassets" := ["Contents.json"; "Icon.imageset"; "Logo.appiconset"] ]} |}.

Definition plain_chalk : Chalk := {| gray := id; green := id; yellow := id |}.

Definition world_of {A : Type} (c : Completion (World * A)) (w : World) : World :=
  match c with
  | Normal (w', _) => w'
  | Throw _ => w
  end.

Definition result_of {A : Type} (c : Completion (World * A)) (d : A) : A :=
  match c with
  | Normal (_, r) => r
  | Throw _ => d
  end.

(** * Properties *)

(** ** The model at work *)

Example path_join_1 : Path.join "pool" "icon@2x.png" = "pool/icon@2x.png".
Proof. reflexivity. Qed.
Example path_join_2 : Path.join "/a//b/" "../c/./d.png" = "/a/c/d.png".
Proof. reflexivity. Qed.
Example path_join_3 : Path.join "../x" "../../y" = "../../y".
Proof. reflexivity. Qed.
Example path_base_1 : Path.basename "/a/Assets.xcassets/App.Icon.appiconset/" = "App.Icon.appiconset".
Proof. reflexivity. Qed.
Example path_ext_1 : Path.extname "/a/App.Icon.appiconset" = ".appiconset".
Proof. reflexivity. Qed.
Example path_ext_2 : Path.extname "/a/.imageset" = "".
Proof. reflexivity. Qed.
Example path_base_2 :
  Path.basename_ext "/a/App.Icon.appiconset" (Path.extname "/a/App.Icon.appiconset") = "App.Icon".
Proof. reflexivity. Qed.
Example path_join_4 : Path.join "." "." = "." ∧ Path.join "." ".." = "..".
Proof. split; reflexivity. Qed.
Example path_join_5 : Path.join "/dest/Assets.xcassets/Icon.imageset" "." =
                      "/dest/Assets.xcassets/Icon.imageset".
Proof. reflexivity. Qed.
Example path_base_3 : Path.basename "." = "." ∧ Path.basename "/" = "".
Proof. split; reflexivity. Qed.
Example path_ext_3 : Path.extname ".." = "" ∧ Path.extname "a.b.c" = ".c".
Proof. split; reflexivity. Qed.
Example math_round_1 :
  Js.Math_round (5 # 2) = 3 ∧ Js.Math_round (-5 # 2) = -2 ∧ Js.Math_round (5002 # 5) = 1000.
Proof. repeat split; reflexivity. Qed.
Example js_lower_1 : Js.toLowerCase (Js.replace_dots "App.Icon_Z") = "app-icon_z".
Proof. reflexivity. Qed.

Example js_lower_2 :
  Js.lower_char capital_e_acute = small_e_acute ∧
  Js.lower_char "215"%char = "215"%char ∧ Js.lower_char "223"%char = "223"%char.
Proof. repeat split. Qed.

Example fs_parents_1 :
  Fs.parents "Assets.xcassets/Icon.imageset/icon.png"
  = ["Assets.xcassets"; "Assets.xcassets/Icon.imageset"].
Proof. reflexivity. Qed.

Example fs_parents_2 : Fs.parents "/a/b.png" = ["/a"] ∧ Fs.parents "icon.png" = [].
Proof. split; reflexivity. Qed.

Example fs_consistent_1 :
  Fs.consistent (on_disk sample_files) = true ∧ Fs.consistent sample_files = false.
Proof. split; reflexivity. Qed.

Example fs_copy_1 :
  Fs.copySync "pool/icon.png" "pool/icon.png" (on_disk sample_files) = Fs.Refused ∧
  Fs.copySync "pool/none.png" "Assets.xcassets/Icon.imageset/none.png" (on_disk sample_files)
    = Fs.Refused ∧
  Fs.copySync "pool/icon.png" "Assets.xcassets" (on_disk sample_files) = Fs.Refused ∧
  Fs.copySync "pool" "Assets.xcassets/Icon.imageset/pool" (on_disk sample_files) = Fs.Beyond.
Proof. repeat split. Qed.

Example fs_copy_2 :
  Fs.copySync "pool/icon@2x.png" "Assets.xcassets/Icon.imageset/icon@2x.png"
    (on_disk sample_files)
  = Fs.Copied (<["Assets.xcassets/Icon.imageset/icon@2x.png" := file "new@2x" 2001]>
                 (on_disk sample_files)).
Proof. reflexivity. Qed.

Example fs_remove_1 :
  Fs.removeSync "pool" (on_disk sample_files) = None ∧
  Fs.removeSync "pool/icon.png" (on_disk sample_files)
    = Some (delete "pool/icon.png" (on_disk sample_files)) ∧
  Fs.removeSync "pool/none.png" (on_disk sample_files) = Some (on_disk sample_files).
Proof. repeat split. Qed.

Example holds_no_folder_1 :
  holds_no_folder (on_disk sample_files) icon_set = true ∧
  holds_no_folder (on_disk sample_files) pool = true ∧
  holds_no_folder (on_disk sample_files) "Assets.xcassets" = false.
Proof. repeat split. Qed.

(** ** Strings *)

Lemma app_nil_l (s : string) : "" +:+ s = s.
Proof. reflexivity. Qed.

Lemma app_cons (c : ascii) (s t : string) : String c s +:+ t = String c (s +:+ t).
Proof. reflexivity. Qed.


Lemma app_assoc (s t u : string) : (s +:+ t) +:+ u = s +:+ t +:+ u.
Proof. induction s as [|c s IH]; [reflexivity|]. by rewrite !app_cons, IH. Qed.

Lemma app_length (s t : string) :
  String.length (s +:+ t) = (String.length s + String.length t)%nat.
Proof. induction s as [|c s IH]; [reflexivity|]. rewrite app_cons. simpl. by rewrite IH. Qed.

Lemma app_inv_tail (s t u : string) : s +:+ u = t +:+ u → s = t.
Proof.
  revert t. induction s as [|c s IH]; intros [|d t] H.
  - reflexivity.
  - apply (f_equal String.length) in H. rewrite app_nil_l, app_cons in H. simpl in H.
    rewrite app_length in H. lia.
  - apply (f_equal String.length) in H. rewrite app_nil_l, app_cons in H. simpl in H.
    rewrite app_length in H. lia.
  - rewrite !app_cons in H. injection H as -> H. f_equal. by apply IH.
Qed.

Lemma eqb_false_iff (s t : string) : String.eqb s t = false ↔ s ≠ t.
Proof. apply String.eqb_neq. Qed.

Lemma no_slash_app (s t : string) : no_slash (s +:+ t) = no_slash s && no_slash t.
Proof.
  induction s as [|c s IH]; [reflexivity|].
  rewrite app_cons. simpl. rewrite IH. by rewrite andb_assoc.
Qed.

Lemma no_slash_map_chars (f : ascii → ascii) (s : string) :
  (∀ c, f c = Path.slash → c = Path.slash) →
  no_slash s = true → no_slash (Js.map_chars f s) = true.
Proof.
  intros Hf. induction s as [|c s IH]; [done|]. simpl.
  intros [Hc Hs]%andb_true_iff. apply andb_true_iff. split; [|by apply IH].
  apply negb_true_iff, Ascii.eqb_neq. intros E. apply Hf in E.
  apply negb_true_iff, Ascii.eqb_neq in Hc. done.
Qed.

Lemma lower_char_slash (c : ascii) : Js.lower_char c = Path.slash → c = Path.slash.
Proof.
  destruct c as [[] [] [] [] [] [] [] []]; vm_compute; congruence.
Qed.

Lemma dot_to_hyphen_slash (c : ascii) : Js.dot_to_hyphen c = Path.slash → c = Path.slash.
Proof.
  unfold Js.dot_to_hyphen. destruct (Ascii.eqb c ".") eqn:E; [discriminate|done].
Qed.

Lemma plain_name_spec (f : string) :
  plain_name f = true ↔ no_slash f = true ∧ f ≠ "" ∧ f ≠ "." ∧ f ≠ "..".
Proof.
  unfold plain_name. rewrite !andb_true_iff, !negb_true_iff, !String.eqb_neq. tauto.
Qed.

Lemma plain_name_png (s : string) : no_slash s = true → plain_name (s +:+ ".png") = true.
Proof.
  intros Hs. apply plain_name_spec. rewrite no_slash_app, Hs.
  split; [done|].
  assert (4 ≤ String.length (s +:+ ".png"))%nat as Hlen by (rewrite app_length; simpl; lia).
  repeat split; intros E; rewrite E in Hlen; simpl in Hlen; lia.
Qed.

(** ** Paths *)

Lemma split_not_nil (p : string) : Path.split p ≠ [].
Proof.
  destruct p as [|c r]; simpl; [done|].
  destruct (Ascii.eqb c Path.slash); [done|]. by destruct (Path.split r).
Qed.

Lemma split_no_slash (x : string) : no_slash x = true → Path.split x = [x].
Proof.
  induction x as [|c x IH]; [done|]. simpl.
  intros [Hc Hx]%andb_true_iff. apply negb_true_iff in Hc. rewrite Hc.
  by rewrite (IH Hx).
Qed.

Lemma split_app_slash (a b : string) :
  Path.split (a +:+ String Path.slash b) = Path.split a ++ Path.split b.
Proof.
  induction a as [|c a IH].
  - by rewrite app_nil_l.
  - rewrite app_cons. simpl. rewrite IH.
    destruct (Ascii.eqb c Path.slash); [done|].
    pose proof (split_not_nil a). by destruct (Path.split a).
Qed.

Lemma split_components_no_slash (p : string) :
  Forall (λ s, no_slash s = true) (Path.split p).
Proof.
  induction p as [|c p IH]; simpl; [by repeat constructor|].
  destruct (Ascii.eqb c Path.slash) eqn:E; [by constructor|].
  destruct (Path.split p) as [|h t]; [by repeat constructor; simpl; rewrite E|].
  inversion IH; subst. constructor; [|done]. simpl. by rewrite E.
Qed.

Lemma normalize_step_plain (allow : bool) (stack : list string) (x : string) :
  plain_name x = true → Path.normalize_step allow stack x = x :: stack.
Proof.
  intros (_ & H1 & H2 & H3)%plain_name_spec. unfold Path.normalize_step.
  apply String.eqb_neq in H1, H2, H3. by rewrite H1, H2, H3.
Qed.

Lemma unsplit_snoc (l : list string) (x : string) :
  Path.unsplit (l ++ [x]) =
  match l with [] => x | _ => Path.unsplit l +:+ String Path.slash x end.
Proof.
  induction l as [|a l IH]; [done|].
  destruct l as [|b l]; [done|].
  change (Path.unsplit ((a :: b :: l) ++ [x]))
    with (a +:+ String Path.slash (Path.unsplit ((b :: l) ++ [x]))).
  rewrite IH.
  change (Path.unsplit (a :: b :: l)) with (a +:+ String Path.slash (Path.unsplit (b :: l))).
  by rewrite app_assoc, app_cons.
Qed.

Lemma isAbsolute_plain (x : string) : no_slash x = true → Path.isAbsolute x = false.
Proof. destruct x as [|c x]; [done|]. simpl. by intros [->%negb_true_iff _]%andb_true_iff. Qed.

Lemma trailingSeparator_snoc (l : list string) (x p : string) :
  x ≠ "" → Path.split p = l ++ [x] → Path.trailingSeparator p = false.
Proof.
  intros Hx Hp. unfold Path.trailingSeparator. rewrite Hp, last_snoc.
  by destruct x.
Qed.

Lemma normalize_plain_tail (p x : string) (l : list string) :
  plain_name x = true → p ≠ "" → Path.split p = l ++ [x] →
  Path.normalize p =
    (if Path.isAbsolute p then "/" else "") +:+
    match fold_left (Path.normalize_step (negb (Path.isAbsolute p))) l [] with
    | [] => x
    | stack => Path.unsplit (rev stack) +:+ String Path.slash x
    end.
Proof.
  intros Hx Hp Hsplit. pose proof Hx as (_ & Hne & _)%plain_name_spec.
  unfold Path.normalize, Path.normalize_stack.
  apply String.eqb_neq in Hp. rewrite Hp, Hsplit, fold_left_app. simpl.
  rewrite (normalize_step_plain _ _ _ Hx). simpl rev. rewrite unsplit_snoc.
  rewrite (trailingSeparator_snoc l x p Hne Hsplit).
  set (stack := fold_left _ l []).
  assert (match rev stack with
          | [] => x
          | _ :: _ => Path.unsplit (rev stack) +:+ String Path.slash x
          end =
          match stack with
          | [] => x
          | _ :: _ => Path.unsplit (rev stack) +:+ String Path.slash x
          end) as ->.
  { destruct stack as [|s stack]; [done|]. simpl. by destruct (rev stack). }
  set (body := match stack with [] => x | _ => _ end).
  assert (body ≠ "") as Hbody.
  { unfold body. destruct stack; [done|]. intros E.
    apply (f_equal String.length) in E. rewrite app_length in E. simpl in E. lia. }
  apply String.eqb_neq in Hbody. rewrite Hbody.
  subst body. clearbody stack.
  destruct (Path.isAbsolute p), stack; reflexivity.
Qed.

Lemma join_plain (dir x : string) :
  plain_name x = true → Path.join dir x = dir_prefix dir +:+ x.
Proof.
  intros Hx. pose proof Hx as (Hns & Hne & _)%plain_name_spec.
  unfold Path.join, dir_prefix. destruct (String.eqb dir "") eqn:Hdir.
  - rewrite (normalize_plain_tail x x [] Hx Hne (split_no_slash x Hns)).
    by rewrite (isAbsolute_plain x Hns).
  - apply String.eqb_neq in Hne. rewrite Hne. apply String.eqb_neq in Hdir.
    assert (Path.isAbsolute (dir +:+ String Path.slash x) = Path.isAbsolute dir) as Habs.
    { destruct dir; [done|]. by rewrite app_cons. }
    rewrite (normalize_plain_tail (dir +:+ String Path.slash x) x (Path.split dir) Hx).
    + rewrite Habs. unfold Path.normalize_stack.
      destruct (fold_left _ (Path.split dir) []); rewrite !app_assoc; reflexivity.
    + destruct dir; [done|]. by rewrite app_cons.
    + by rewrite split_app_slash, (split_no_slash x Hns).
Qed.

Lemma dir_prefix_dirlike (dir : string) : dirlike (dir_prefix dir).
Proof.
  unfold dir_prefix. destruct (String.eqb dir ""); [by left|].
  destruct (Path.normalize_stack _ dir) as [|s stack].
  - destruct (Path.isAbsolute dir); [right; by exists ""|by left].
  - right. exists ((if Path.isAbsolute dir then "/" else "") +:+ Path.unsplit (rev (s :: stack))).
    by rewrite app_assoc.
Qed.

Lemma split_dirlike (pre x : string) :
  dirlike pre → no_slash x = true → ∃ l, Path.split (pre +:+ x) = l ++ [x].
Proof.
  intros [->|[q ->]] Hx.
  - exists []. by rewrite app_nil_l, (split_no_slash x Hx).
  - exists (Path.split q). rewrite app_assoc.
    change ("/" +:+ x) with (String Path.slash x).
    by rewrite split_app_slash, (split_no_slash x Hx).
Qed.

Lemma basename_dirlike (pre x : string) :
  dirlike pre → no_slash x = true → x ≠ "" → Path.basename (pre +:+ x) = x.
Proof.
  intros Hpre Hx Hne. destruct (split_dirlike pre x Hpre Hx) as [l Hl].
  unfold Path.basename. rewrite Hl, filter_app.
  rewrite (filter_cons_True _ x []); [|by apply negb_true_iff, String.eqb_neq].
  by rewrite filter_nil, last_snoc.
Qed.

Lemma basename_join_plain (dir x : string) :
  plain_name x = true → Path.basename (Path.join dir x) = x.
Proof.
  intros Hx. rewrite (join_plain _ _ Hx).
  apply plain_name_spec in Hx as (? & ? & _).
  by apply basename_dirlike; [apply dir_prefix_dirlike|..].
Qed.

Lemma basename_normalize_tail (p x : string) (l : list string) :
  plain_name x = true → p ≠ "" → Path.split p = l ++ [x] →
  Path.basename (Path.normalize p) = x.
Proof.
  intros Hx Hp Hsplit. rewrite (normalize_plain_tail p x l Hx Hp Hsplit).
  apply plain_name_spec in Hx as (Hns & Hne & _).
  destruct (fold_left _ l []) as [|s stack].
  - apply basename_dirlike; [|done..].
    destruct (Path.isAbsolute p); [right; by exists ""|by left].
  - change (String Path.slash x) with ("/" +:+ x). rewrite <- !app_assoc.
    apply basename_dirlike; [|done..]. right. by eexists.
Qed.

(** The last component of a path that ends with a plain suffix. *)
Lemma split_app_tail (y z : string) :
  no_slash z = true →
  ∃ l x, Path.split (y +:+ z) = l ++ [x +:+ z] ∧ no_slash x = true.
Proof.
  intros Hz. induction y as [|c y (l & x & IH & Hx)].
  - exists [], "". by rewrite !app_nil_l, (split_no_slash z Hz).
  - rewrite app_cons. simpl. rewrite IH.
    destruct (Ascii.eqb c Path.slash) eqn:E.
    + by exists ("" :: l), x.
    + destruct l as [|h t].
      * exists [], (String c x). simpl. by rewrite E, Hx.
      * by exists (String c h :: t), x.
Qed.

(** Whatever the directory and the stem, a joined [.png] name has a plain
    base name. *)
Lemma basename_join_png (dir y : string) :
  plain_name (Path.basename (Path.join dir (y +:+ ".png"))) = true.
Proof.
  destruct (split_app_tail y ".png" eq_refl) as (l & x & Hsplit & Hx).
  pose proof (plain_name_png x Hx) as Hplain.
  assert (y +:+ ".png" ≠ "") as Hne.
  { intros E. apply (f_equal String.length) in E. rewrite app_length in E. simpl in E. lia. }
  unfold Path.join. apply String.eqb_neq in Hne as Hne'. rewrite Hne'.
  destruct (String.eqb dir "") eqn:Hdir.
  - by rewrite (basename_normalize_tail _ _ l Hplain Hne Hsplit).
  - rewrite (basename_normalize_tail _ (x +:+ ".png") (Path.split dir ++ l) Hplain); [done| |].
    + apply String.eqb_neq in Hdir. destruct dir; [done|]. by rewrite app_cons.
    + by rewrite split_app_slash, Hsplit, (assoc_L (++)).
Qed.

Lemma dirlike_app_inj (a b x y : string) :
  dirlike a → dirlike b → no_slash x = true → no_slash y = true →
  a +:+ x = b +:+ y → a = b ∧ x = y.
Proof.
  intros Ha Hb Hx Hy E.
  destruct (split_dirlike a x Ha Hx) as [l Hl].
  destruct (split_dirlike b y Hb Hy) as [k Hk].
  assert (x = y) as ->.
  { rewrite E, Hk in Hl. apply (f_equal last) in Hl. rewrite !last_snoc in Hl. congruence. }
  split; [|done]. by apply app_inv_tail in E.
Qed.

Lemma join_plain_inj (dir dir' x y : string) :
  plain_name x = true → plain_name y = true →
  Path.join dir x = Path.join dir' y → dir_prefix dir = dir_prefix dir' ∧ x = y.
Proof.
  intros Hx Hy. rewrite (join_plain _ _ Hx), (join_plain _ _ Hy).
  apply plain_name_spec in Hx as (? & _). apply plain_name_spec in Hy as (? & _).
  by apply dirlike_app_inj; try apply dir_prefix_dirlike.
Qed.

Lemma normalize_not_empty (p : string) : Path.normalize p ≠ "".
Proof.
  unfold Path.normalize. destruct (String.eqb p ""); [done|].
  set (body := Path.unsplit _).
  destruct (String.eqb body "") eqn:E.
  - by destruct (Path.isAbsolute p), (Path.trailingSeparator p).
  - apply String.eqb_neq in E.
    destruct (Path.isAbsolute p); [done|].
    destruct (Path.trailingSeparator p); [|done].
    intros E'. apply (f_equal String.length) in E'. rewrite app_length in E'. simpl in E'. lia.
Qed.

Lemma join_not_empty (a b : string) : Path.join a b ≠ "".
Proof. apply normalize_not_empty. Qed.

(** ** The name derived from the image-set folder *)

Lemma cut_ext_app (stem e : string) :
  Path.cut_ext e = None → Path.cut_ext (stem +:+ String "." e) = Some (stem, String "." e).
Proof.
  intros He. induction stem as [|c stem IH].
  - rewrite app_nil_l. simpl. by rewrite He.
  - rewrite app_cons. simpl. by rewrite IH.
Qed.

Lemma strip_suffix_app (stem ext : string) :
  Path.strip_suffix ext (stem +:+ ext) = Some stem.
Proof.
  induction stem as [|c stem IH].
  - rewrite app_nil_l. destruct ext; simpl; by rewrite ?Ascii.eqb_refl, ?String.eqb_refl.
  - rewrite app_cons.
    assert (String.eqb (String c (stem +:+ ext)) ext = false) as E.
    { apply String.eqb_neq. intros E. apply (f_equal String.length) in E.
      simpl in E. rewrite app_length in E. lia. }
    change (Path.strip_suffix ext (String c (stem +:+ ext)))
      with (if String.eqb (String c (stem +:+ ext)) ext then Some EmptyString
            else option_map (String c) (Path.strip_suffix ext (stem +:+ ext))).
    by rewrite E, IH.
Qed.

(** For a folder [<dir>/<stem>.<type>] the derived name is [stem], dots turned
    into hyphens, in lower case. *)
Lemma derived_name_folder (pre stem e : string) :
  dirlike pre → no_slash stem = true → stem ≠ "" →
  no_slash e = true → e ≠ "" → Path.cut_ext e = None →
  Path.extname (pre +:+ stem +:+ String "." e) = String "." e ∧
  derived_name (pre +:+ stem +:+ String "." e) = Js.toLowerCase (Js.replace_dots stem).
Proof.
  intros Hpre Hstem Hne He Hene Hcut.
  set (ext := String "."%char e). set (p := pre +:+ stem +:+ ext).
  assert (Path.basename p = stem +:+ ext) as Hbase.
  { apply basename_dirlike; [done| |].
    - rewrite no_slash_app, Hstem. simpl. by rewrite He.
    - destruct stem; [done|]. by rewrite app_cons. }
  assert (stem +:+ ext ≠ "..") as Hdots.
  { destruct stem as [|c [|d stem]]; [done| |].
    - rewrite app_cons, app_nil_l. unfold ext. destruct e; [done|]. congruence.
    - rewrite !app_cons. unfold ext. intros E. injection E as _ _ E.
      by destruct stem. }
  assert (Path.extname p = ext) as Hext.
  { unfold Path.extname. rewrite Hbase. unfold ext at 1. rewrite (cut_ext_app _ _ Hcut).
    apply String.eqb_neq in Hne, Hdots. by rewrite Hne, Hdots. }
  split; [done|]. unfold derived_name. rewrite Hext. unfold Path.basename_ext.
  assert (String.eqb ext "" = false) as -> by done.
  assert (String.eqb ext p = false) as ->.
  { apply String.eqb_neq. intros E. apply (f_equal String.length) in E.
    unfold p in E. rewrite !app_length in E.
    destruct stem; [done|]. simpl in E. lia. }
  rewrite Hbase, strip_suffix_app. apply String.eqb_neq in Hne. by rewrite Hne.
Qed.

Lemma strip_suffix_no_slash (ext s stem : string) :
  no_slash s = true → Path.strip_suffix ext s = Some stem → no_slash stem = true.
Proof.
  revert stem. induction s as [|c s IH]; intros stem Hs.
  - destruct ext; simpl; [by intros [= <-]|done].
  - change (Path.strip_suffix ext (String c s))
      with (if String.eqb (String c s) ext then Some EmptyString
            else option_map (String c) (Path.strip_suffix ext s)).
    destruct (String.eqb (String c s) ext); [by intros [= <-]|].
    simpl in Hs. apply andb_true_iff in Hs as [Hc Hs].
    destruct (Path.strip_suffix ext s) as [stem'|]; [|done].
    intros [= <-]. simpl. by rewrite Hc, (IH stem').
Qed.

Lemma basename_no_slash (p : string) : no_slash (Path.basename p) = true.
Proof.
  unfold Path.basename.
  destruct (last (filter _ (Path.split p))) as [s|] eqn:E; [|done]. simpl.
  apply last_Some_elem_of, list_elem_of_filter in E as [_ E].
  pose proof (split_components_no_slash p) as H.
  rewrite Forall_forall in H. by apply H.
Qed.

Lemma derived_name_no_slash (imageSetPath : string) :
  no_slash (derived_name imageSetPath) = true.
Proof.
  unfold derived_name, Js.toLowerCase, Js.replace_dots.
  apply no_slash_map_chars; [apply lower_char_slash|].
  apply no_slash_map_chars; [apply dot_to_hyphen_slash|].
  unfold Path.basename_ext.
  destruct (String.eqb (Path.extname imageSetPath) ""); [apply basename_no_slash|].
  destruct (String.eqb (Path.extname imageSetPath) imageSetPath); [done|].
  destruct (Path.strip_suffix _ _) as [stem|] eqn:E; [|apply basename_no_slash].
  destruct (String.eqb stem ""); [apply basename_no_slash|].
  eapply strip_suffix_no_slash; [apply basename_no_slash|done].
Qed.

(** ** The locator *)

Lemma existsSync_true (fs : gmap string Fs.File) (p : string) :
  Fs.existsSync fs p = true ↔ is_Some (fs !! p).
Proof. unfold Fs.existsSync. destruct (fs !! p); split; (done || by intros [??]|| eauto). Qed.

Lemma existsSync_false (fs : gmap string Fs.File) (p : string) :
  Fs.existsSync fs p = false ↔ fs !! p = None.
Proof. unfold Fs.existsSync. by destruct (fs !! p). Qed.

Lemma existsSync_decide (fs : gmap string Fs.File) (p : string) :
  Fs.existsSync fs p = bool_decide (is_Some (fs !! p)).
Proof.
  unfold Fs.existsSync. destruct (fs !! p) eqn:E.
  - symmetry. apply bool_decide_eq_true. eauto.
  - symmetry. apply bool_decide_eq_false. by intros [??].
Qed.

(** When the recorded filename does not resolve, the locator is the derived
    lookup. *)
Lemma findImagePath_stale (fs : gmap string Fs.File) (imageSetPath imageSourcePath : string)
    (image : ImageSetImage) :
  stale fs imageSourcePath image →
  findImagePath fs imageSetPath imageSourcePath image =
  findDerivedPath fs imageSetPath imageSourcePath image.
Proof.
  unfold stale, findImagePath, Js.truthy_value.
  destruct (filename image) as [f|]; [|done]. intros Hf.
  destruct (String.eqb f ""); [done|].
  apply existsSync_false in Hf. by rewrite Hf.
Qed.

(** A path the locator returns names a file, and is not the empty string. *)
Lemma findImagePath_exists (fs : gmap string Fs.File) (imageSetPath imageSourcePath : string)
    (image : ImageSetImage) (new : string) :
  findImagePath fs imageSetPath imageSourcePath image = Normal (Some new) →
  is_Some (fs !! new) ∧ new ≠ "".
Proof.
  assert (∀ r, findDerivedPath fs imageSetPath imageSourcePath image = Normal (Some r) →
               is_Some (fs !! r) ∧ r ≠ "") as Hderived.
  { intros r. unfold findDerivedPath.
    destruct (appearance_suffix image) as [app|]; simpl; [|done].
    destruct (Fs.existsSync fs _) eqn:E1.
    - intros [= <-]. split; [by apply existsSync_true|apply join_not_empty].
    - clear E1. destruct (Fs.existsSync fs _) eqn:E2; [|done].
      intros [= <-]. split; [by apply existsSync_true|apply join_not_empty]. }
  unfold findImagePath. destruct (Js.truthy_value (filename image)); [|apply Hderived].
  destruct (Fs.existsSync fs _) eqn:E; [|apply Hderived].
  intros [= <-]. split; [by apply existsSync_true|apply join_not_empty].
Qed.

(** A path found by the derived lookups has a plain base name. *)
Lemma findDerivedPath_basename (fs : gmap string Fs.File) (imageSetPath imageSourcePath : string)
    (image : ImageSetImage) (new : string) :
  findDerivedPath fs imageSetPath imageSourcePath image = Normal (Some new) →
  plain_name (Path.basename new) = true.
Proof.
  unfold findDerivedPath.
  destruct (appearance_suffix image) as [appearance|]; [|done].
  change (Normal appearance ≫= ?k) with (k appearance). cbv beta zeta.
  rewrite <- !app_assoc.
  destruct (Fs.existsSync fs _); [intros [= <-]; apply basename_join_png|].
  destruct (Fs.existsSync fs _); [intros [= <-]; apply basename_join_png|done].
Qed.

(** C8, for an [appearances] array that is absent or has a first entry: the
    scale suffix is empty for the scale 1x and the at sign followed by the
    scale otherwise; the appearance suffix is empty when the [appearances]
    field is absent, and a hyphen followed by the value of the first entry
    when the array has one, however many follow it. *)
Theorem C8_suffixes (image : ImageSetImage) :
  (scale image = "1x" → scale_suffix image = "") ∧
  (scale image ≠ "1x" → scale_suffix image = "@" +:+ scale image) ∧
  (appearances image = None → appearance_suffix image = Normal "") ∧
  (∀ first others, appearances image = Some (first :: others) →
     appearance_suffix image = Normal ("-" +:+ value first)).
Proof.
  unfold scale_suffix, appearance_suffix. repeat split.
  - by intros ->.
  - intros H. apply String.eqb_neq in H. by rewrite H.
  - by intros ->.
  - by intros first others ->.
Qed.

Lemma C8_suffixes_witness :
  scale_suffix (entry None "1x") = "" ∧
  scale_suffix dark_3x = "@3x" ∧
  appearance_suffix (entry None "1x") = Normal "" ∧
  appearance_suffix dark_3x = Normal "-dark".
Proof.
  destruct (C8_suffixes (entry None "1x")) as (H1 & _ & H3 & _).
  destruct (C8_suffixes dark_3x) as (_ & H2 & _ & H4).
  split; [exact (H1 eq_refl)|].
  split; [apply H2; discriminate|].
  split; [exact (H3 eq_refl)|].
  exact (H4 _ _ eq_refl).
Defined.

(** For every entry, C8 does not hold: no appearances are recorded in an empty
    [appearances] array, and no suffix is derived from it, neither the empty
    one nor another. *)
Lemma C8_empty_appearances_counterexample :
  appearances no_appearance = Some [] ∧
  appearance_suffix no_appearance = Throw TypeError ∧
  ∀ suffix, appearance_suffix no_appearance ≠ Normal suffix.
Proof. split; [reflexivity|]. split; [reflexivity|]. intros suffix. discriminate. Qed.

(** C1, on a map that describes a disk and for an entry whose [appearances]
    array, when present, is not empty (its appearance suffix exists): when
    the recorded filename is absent or names nothing in the pool, neither a
    file nor a folder, the locator looks up the name derived from the
    image-set folder, first with the appearance suffix, then with the light
    suffix, taking whatever is there, and answers not-found only when both
    are missing; the derived name is the folder name without its [.imageset]
    or [.appiconset] extension, dots turned into hyphens, in lower case. *)
Theorem C1_locator_falls_back_to_derived_name (fs : gmap string Fs.File)
    (imageSetPath imageSourcePath : string) (image : ImageSetImage) (appearance : string) :
  Fs.consistent fs = true →
  stale fs imageSourcePath image →
  appearance_suffix image = Normal appearance →
  let base :=
    Js.toLowerCase
      (Js.replace_dots (Path.basename_ext imageSetPath (Path.extname imageSetPath))) in
  let explicit :=
    Path.join imageSourcePath (base +:+ appearance +:+ scale_suffix image +:+ ".png") in
  let light :=
    Path.join imageSourcePath (base +:+ "-light" +:+ scale_suffix image +:+ ".png") in
  (is_Some (fs !! explicit) →
     findImagePath fs imageSetPath imageSourcePath image = Normal (Some explicit)) ∧
  (fs !! explicit = None → is_Some (fs !! light) →
     findImagePath fs imageSetPath imageSourcePath image = Normal (Some light)) ∧
  (fs !! explicit = None → fs !! light = None →
     findImagePath fs imageSetPath imageSourcePath image = Normal None) ∧
  (∀ dir stem type,
     imageSetPath = dir +:+ "/" +:+ stem +:+ "." +:+ type →
     type = "imageset" ∨ type = "appiconset" →
     no_slash stem = true → stem ≠ "" →
     base = Js.toLowerCase (Js.replace_dots stem)).
Proof.
  intros _ Hstale Happ base explicit light.
  rewrite (findImagePath_stale _ _ _ _ Hstale).
  assert (findDerivedPath fs imageSetPath imageSourcePath image =
          if Fs.existsSync fs explicit then Normal (Some explicit)
          else if Fs.existsSync fs light then Normal (Some light)
          else Normal None) as ->
    by (unfold findDerivedPath; rewrite Happ; reflexivity).
  split; [|split; [|split]].
  - intros H%existsSync_true. by rewrite H.
  - intros H1%existsSync_false H2%existsSync_true. by rewrite H1, H2.
  - intros H1%existsSync_false H2%existsSync_false. by rewrite H1, H2.
  - intros dir stem type -> Htype Hstem Hne.
    assert (dirlike (dir +:+ "/")) as Hdir by (right; by exists dir).
    unfold base. fold (derived_name (dir +:+ "/" +:+ stem +:+ "." +:+ type)).
    rewrite <- (app_assoc dir "/").
    by destruct Htype as [-> | ->]; apply (derived_name_folder (dir +:+ "/") stem).
Qed.

Lemma C1_locator_falls_back_to_derived_name_witness :
  findImagePath
    {[ "pool" := dir;
       "pool/" +:+ String small_e_acute "cole-icon-light@2x.png" := file "png" 7 ]}
    ("Assets.xcassets/" +:+ String capital_e_acute "cole.Icon.appiconset") "pool"
    (entry (Some "old.png") "2x")
  = Normal (Some ("pool/" +:+ String small_e_acute "cole-icon-light@2x.png"))
  ∧ Js.toLowerCase (Js.replace_dots (String capital_e_acute "cole.Icon"))
    = String small_e_acute "cole-icon".
Proof.
  pose proof (C1_locator_falls_back_to_derived_name
                {[ "pool" := dir;
                   "pool/" +:+ String small_e_acute "cole-icon-light@2x.png" := file "png" 7 ]}
                ("Assets.xcassets/" +:+ String capital_e_acute "cole.Icon.appiconset") "pool"
                (entry (Some "old.png") "2x") "") as H.
  destruct H as (_ & Hlight & _ & Hbase); [reflexivity | reflexivity | reflexivity |].
  split.
  - apply Hlight; [reflexivity | vm_compute; eauto].
  - reflexivity.
Defined.

(** For every entry, C1 does not hold: when an entry without a filename has
    an empty [appearances] array and the light variant is in the pool, the
    locator returns neither that path nor not-found, it throws. *)
Lemma C1_empty_appearances_counterexample :
  Fs.consistent light_files = true ∧
  stale light_files pool no_appearance ∧
  is_Some (light_files !! Path.join pool ("icon" +:+ "-light" +:+ "@2x" +:+ ".png")) ∧
  findImagePath light_files icon_set pool no_appearance = Throw TypeError ∧
  ∀ found, findImagePath light_files icon_set pool no_appearance ≠ Normal found.
Proof.
  split; [reflexivity|]. split; [exact I|]. split; [vm_compute; eauto|]. split; [reflexivity|].
  intros found. vm_compute. discriminate.
Qed.

(** C2: a recorded filename (a string that is not empty: JavaScript takes the
    empty one for an absent filename) that names a file of the pool is the
    answer, the path of that file, whatever the derived names would find and
    whatever the [appearances] array is. *)
Theorem C2_recorded_filename_is_returned (fs : gmap string Fs.File)
    (imageSetPath imageSourcePath : string) (image : ImageSetImage) (recorded : string) :
  filename image = Some recorded →
  recorded ≠ "" →
  is_Some (fs !! Path.join imageSourcePath recorded) →
  findImagePath fs imageSetPath imageSourcePath image =
  Normal (Some (Path.join imageSourcePath recorded)).
Proof.
  intros Hf Hne Hex. unfold findImagePath, Js.truthy_value. rewrite Hf.
  apply String.eqb_neq in Hne. rewrite Hne.
  apply existsSync_true in Hex. by rewrite Hex.
Qed.

Lemma C2_recorded_filename_is_returned_witness :
  findImagePath {[ "pool/custom.png" := file "a" 1; "pool/icon.png" := file "b" 2 ]}
    "Assets.xcassets/Icon.imageset" "pool" (entry (Some "custom.png") "1x")
  = Normal (Some "pool/custom.png").
Proof.
  refine (C2_recorded_filename_is_returned
            {[ "pool/custom.png" := file "a" 1; "pool/icon.png" := file "b" 2 ]}
            "Assets.xcassets/Icon.imageset" "pool" (entry (Some "custom.png") "1x")
            "custom.png" eq_refl _ _); [discriminate | vm_compute; eauto].
Defined.

(** C10: with a recorded filename that does not resolve and an [appearances]
    array that is present and empty, building the appearance suffix reads a
    property of [undefined] and the locator throws; whenever the array is
    absent or has a first element the locator returns. *)
Theorem C10_empty_appearances_throw :
  (∀ (fs : gmap string Fs.File) imageSetPath imageSourcePath image,
     stale fs imageSourcePath image →
     appearances image = Some [] →
     appearance_suffix image = Throw TypeError ∧
     findImagePath fs imageSetPath imageSourcePath image = Throw TypeError) ∧
  (∀ (fs : gmap string Fs.File) imageSetPath imageSourcePath image,
     appearances image ≠ Some [] →
     ∃ found, findImagePath fs imageSetPath imageSourcePath image = Normal found).
Proof.
  split.
  - intros fs S P image Hstale Hempty.
    rewrite (findImagePath_stale _ _ _ _ Hstale).
    unfold findDerivedPath, appearance_suffix. by rewrite Hempty.
  - intros fs S P image Hne.
    assert (∃ found, findDerivedPath fs S P image = Normal found) as Hderived.
    { unfold findDerivedPath, appearance_suffix.
      destruct (appearances image) as [[|first others]|]; [done|..]; simpl;
        repeat (destruct (Fs.existsSync fs _)); eauto. }
    unfold findImagePath. destruct (Js.truthy_value (filename image)); [|done].
    destruct (Fs.existsSync fs _); eauto.
Qed.

Lemma C10_empty_appearances_throw_witness :
  findImagePath ∅ "Assets.xcassets/Icon.imageset" "pool" no_appearance = Throw TypeError
  ∧ ∃ found, findImagePath ∅ "Assets.xcassets/Icon.imageset" "pool" dark_3x = Normal found.
Proof.
  destruct C10_empty_appearances_throw as [Hthrow Hreturn]. split.
  - by apply Hthrow.
  - by apply Hreturn.
Defined.

(** ** The reconciler, one entry *)

Lemma truthy_value_Some (x : option string) (s : string) :
  Js.truthy_value x = Some s ↔ x = Some s ∧ s ≠ "".
Proof.
  unfold Js.truthy_value. destruct x as [t|]; [|by split; [|intros [? _]]].
  destruct (String.eqb t "") eqn:E.
  - apply String.eqb_eq in E. split; [done|]. intros [[= ->] ?]. done.
  - apply String.eqb_neq in E. split.
    + by intros [= <-].
    + by intros [[= ->] _].
Qed.

Lemma truthy_value_and_then (x : option string) (f : string → string) :
  (∀ s, f s ≠ "") →
  Js.truthy_value (Js.and_then x f) = f <$> Js.truthy_value x.
Proof.
  intros Hf. unfold Js.truthy_value, Js.and_then. destruct x as [s|]; [|done].
  destruct (String.eqb s "") eqn:E; [done|]. simpl.
  specialize (Hf s). apply String.eqb_neq in Hf. by rewrite Hf.
Qed.

Lemma bind_Normal {A B : Type} (a : A) (k : A → Completion B) : Normal a ≫= k = k a.
Proof. reflexivity. Qed.

Lemma bind_Throw {A B : Type} (e : Exn) (k : A → Completion B) : Throw e ≫= k = Throw e.
Proof. reflexivity. Qed.

(** C3: when the locator answers not-found, the entry is reported as
    unassigned if it records no filename (the flag of the result is set, its
    three lists are as before) and as missing under its recorded filename
    otherwise (the name is put at the end of the missing list, the rest of the
    result is as before); no file is touched, the entry keeps its filename,
    the manifest flag is as before, and the loop goes on with the next
    entry. *)
Theorem C3_not_found_is_reported (imageSetPath imageSourcePath : string) (st : SyncState)
    (image : ImageSetImage) :
  findImagePath (files st) imageSetPath imageSourcePath image = Normal None →
  let reported :=
    match filename image with
    | None =>
        {| unassigned := true;
           updated := updated (result st);
           missing := missing (result st);
           skipped := skipped (result st) |}
    | Some recorded =>
        {| unassigned := unassigned (result st);
           updated := updated (result st);
           missing := missing (result st) ++ [recorded];
           skipped := skipped (result st) |}
    end in
  let st' :=
    {| files := files st; result := reported;
       needsContentsUpdate := needsContentsUpdate st |} in
  syncImage imageSetPath imageSourcePath st image = Normal (st', image) ∧
  ∀ rest,
    forEach_image imageSetPath imageSourcePath (image :: rest) st =
    '(st2, rest2) ← forEach_image imageSetPath imageSourcePath rest st';
    Normal (st2, image :: rest2).
Proof.
  intros Hfind reported st'.
  assert (syncImage imageSetPath imageSourcePath st image = Normal (st', image)) as Hstep.
  { unfold syncImage. rewrite Hfind. simpl. unfold st', reported.
    by destruct (filename image). }
  split; [done|]. intros rest. simpl. by rewrite Hstep.
Qed.

Lemma C3_not_found_is_reported_witness :
  syncImage "Assets.xcassets/Icon.imageset" "pool"
    {| files := {[ "Assets.xcassets/Icon.imageset/old.png" := file "x" 5 ]};
       result := {| unassigned := false; updated := ["a.png"]; missing := ["b.png"];
                    skipped := ["c.png"] |};
       needsContentsUpdate := false |}
    (entry (Some "old.png") "1x")
  = Normal ({| files := {[ "Assets.xcassets/Icon.imageset/old.png" := file "x" 5 ]};
               result := {| unassigned := false; updated := ["a.png"];
                            missing := ["b.png"; "old.png"]; skipped := ["c.png"] |};
               needsContentsUpdate := false |},
            entry (Some "old.png") "1x")
  ∧
  syncImage "Assets.xcassets/Icon.imageset" "pool"
    {| files := {[ "Assets.xcassets/Icon.imageset/old.png" := file "x" 5 ]};
       result := {| unassigned := false; updated := ["a.png"]; missing := ["b.png"];
                    skipped := ["c.png"] |};
       needsContentsUpdate := false |}
    (entry None "1x")
  = Normal ({| files := {[ "Assets.xcassets/Icon.imageset/old.png" := file "x" 5 ]};
               result := {| unassigned := true; updated := ["a.png"]; missing := ["b.png"];
                            skipped := ["c.png"] |};
               needsContentsUpdate := false |},
            entry None "1x").
Proof.
  split.
  - refine (proj1 (C3_not_found_is_reported "Assets.xcassets/Icon.imageset" "pool"
                     {| files := {[ "Assets.xcassets/Icon.imageset/old.png" := file "x" 5 ]};
                        result := {| unassigned := false; updated := ["a.png"];
                                     missing := ["b.png"]; skipped := ["c.png"] |};
                        needsContentsUpdate := false |}
                     (entry (Some "old.png") "1x") _)).
    reflexivity.
  - refine (proj1 (C3_not_found_is_reported "Assets.xcassets/Icon.imageset" "pool"
                     {| files := {[ "Assets.xcassets/Icon.imageset/old.png" := file "x" 5 ]};
                        result := {| unassigned := false; updated := ["a.png"];
                                     missing := ["b.png"]; skipped := ["c.png"] |};
                        needsContentsUpdate := false |}
                     (entry None "1x") _)).
    reflexivity.
Defined.

Lemma same_stat_spec (fs : gmap string Fs.File) (old new : string) :
  same_stat (Fs.statSync fs old) (Fs.statSync fs new) = true ↔ same_size_and_time fs old new.
Proof.
  unfold same_stat, Fs.statSync, same_size_and_time.
  destruct (fs !! old) as [o|], (fs !! new) as [n|]; simpl.
  - rewrite andb_true_iff, !Z.eqb_eq, Nat2Z.inj_iff. split.
    + intros [? ?]. by exists o, n.
    + by intros (? & ? & [= <-] & [= <-] & ? & ?).
  - split; [done|]. by intros (? & ? & _ & ? & _).
  - split; [done|]. by intros (? & ? & ? & _).
  - split; [done|]. by intros (? & ? & ? & _).
Qed.

Lemma Math_round_inject_Z (z : Z) : Js.Math_round (inject_Z z) = z.
Proof.
  unfold Js.Math_round, inject_Z, Qplus, Qfloor. simpl.
  rewrite Z.mul_1_r. replace (z * 2 + 1) with (1 + z * 2) by lia.
  rewrite Z.div_add by lia. reflexivity.
Qed.

(** Lines 112-113 on a source that is there. *)
Lemma copy_and_report_found (imageSetPath new pushed : string) (image : ImageSetImage)
    (fs : gmap string Fs.File) (r : ImageSetSyncResult) (needs : bool) (n : Fs.File) :
  fs !! new = Some n →
  let dest := Path.join imageSetPath (Path.basename new) in
  copy_and_report imageSetPath new pushed image fs r needs =
  if String.eqb new dest then Throw IoError
  else if Fs.folder n then Throw Unsupported
  else if Fs.is_folder fs dest then Throw IoError
  else Normal ({| files := <[dest := Fs.copy_of n]> fs; result := push_updated pushed r;
                  needsContentsUpdate := needs |}, image).
Proof.
  intros Hn dest. unfold copy_and_report, Fs.copySync. rewrite Hn. fold dest.
  destruct (String.eqb new dest); [done|]. destruct (Fs.folder n); [done|].
  by destruct (Fs.is_folder fs dest).
Qed.

(** C4: the entry records a filename and the locator found a file whose base
    name is the base name of the recorded file. With equal sizes and equal
    rounded modification times the entry is skipped and no file is touched,
    whatever the bytes are. Otherwise the file found is copied into the
    image-set folder, over the file that may be there, and the entry is
    reported as updated, the entry keeping its filename and the manifest flag
    being as before; but when the file found is itself the file at the
    destination, the copy throws instead. The files are those of a map that
    describes a disk, and the copy is that of a regular file to a place that
    holds no folder. *)
Theorem C4_same_name_skip_or_refresh (imageSetPath imageSourcePath : string) (st : SyncState)
    (image : ImageSetImage) (recorded new : string) :
  Fs.consistent (files st) = true →
  findImagePath (files st) imageSetPath imageSourcePath image = Normal (Some new) →
  filename image = Some recorded →
  recorded ≠ "" →
  Path.basename (Path.join imageSetPath recorded) = Path.basename new →
  let old := Path.join imageSetPath recorded in
  let dest := Path.join imageSetPath (Path.basename new) in
  let copy (n : Fs.File) :=
    {| Fs.data := Fs.data n;
       Fs.file_mtimeMs := inject_Z (Js.Math_round (Fs.file_mtimeMs n));
       Fs.folder := false |} in
  (same_size_and_time (files st) old new →
     syncImage imageSetPath imageSourcePath st image =
     Normal ({| files := files st;
                result := {| unassigned := unassigned (result st);
                             updated := updated (result st);
                             missing := missing (result st);
                             skipped := skipped (result st) ++ [recorded] |};
                needsContentsUpdate := needsContentsUpdate st |}, image)) ∧
  (¬ same_size_and_time (files st) old new →
     ∃ n, files st !! new = Some n ∧
       (new = dest →
          syncImage imageSetPath imageSourcePath st image = Throw IoError) ∧
       (new ≠ dest → Fs.folder n = false → Fs.is_folder (files st) dest = false →
          syncImage imageSetPath imageSourcePath st image =
          Normal ({| files := <[dest := copy n]> (files st);
                     result := {| unassigned := unassigned (result st);
                                  updated := updated (result st) ++ [recorded];
                                  missing := missing (result st);
                                  skipped := skipped (result st) |};
                     needsContentsUpdate := needsContentsUpdate st |}, image))).
Proof.
  intros _ Hfind Hf Hne Hbase old dest copy.
  destruct (findImagePath_exists _ _ _ _ _ Hfind) as [[n Hn] Hnew].
  assert (Js.truthy_value (Some new) = Some new) as Htnew by by apply truthy_value_Some.
  assert (Js.truthy_value (filename image) = Some recorded) as Htf by by apply truthy_value_Some.
  assert (syncImage imageSetPath imageSourcePath st image =
          if same_stat (Fs.statSync (files st) old) (Fs.statSync (files st) new)
          then Normal ({| files := files st; result := push_skipped recorded (result st);
                          needsContentsUpdate := needsContentsUpdate st |}, image)
          else copy_and_report imageSetPath new recorded image (files st) (result st)
                 (needsContentsUpdate st)) as ->.
  { unfold syncImage. rewrite Hfind, bind_Normal.
    rewrite (truthy_value_and_then _ _ (join_not_empty imageSetPath)).
    rewrite Htnew, Htf. cbv beta iota. rewrite Hbase, String.eqb_refl. done. }
  split.
  - intros H%same_stat_spec. by rewrite H.
  - intros H. exists n. split; [done|].
    destruct (same_stat _ _) eqn:E; [by apply same_stat_spec in E|].
    rewrite (copy_and_report_found _ _ _ _ _ _ _ _ Hn). fold dest. split.
    + intros Hsame. apply String.eqb_eq in Hsame. by rewrite Hsame.
    + intros Hdiff%String.eqb_neq -> ->. by rewrite Hdiff.
Qed.

(** C5: the locator found a file and the entry records no old path, or the
    old and the new base names differ. The old file is removed if there is
    one, the entry takes the base name of the file found, the manifest is
    flagged for rewriting, the file found is copied into the image-set folder
    under its base name, with its bytes and its modification time to the
    millisecond, and the entry is reported as updated; but when the file
    found is itself the file at the destination, the copy throws instead.
    The files are those of a map that describes a disk, what is removed and
    copied are regular files, and the destination holds no folder. *)
Theorem C5_replacement (imageSetPath imageSourcePath : string) (st : SyncState)
    (image : ImageSetImage) (new : string) :
  Fs.consistent (files st) = true →
  findImagePath (files st) imageSetPath imageSourcePath image = Normal (Some new) →
  (Js.truthy (filename image) = false ∨
   ∃ recorded, filename image = Some recorded ∧ recorded ≠ "" ∧
     Path.basename (Path.join imageSetPath recorded) ≠ Path.basename new) →
  match Js.truthy_value (filename image) with
  | Some recorded => Fs.is_folder (files st) (Path.join imageSetPath recorded) = false
  | None => True
  end →
  let name := Path.basename new in
  let dest := Path.join imageSetPath name in
  let removed :=
    match Js.truthy_value (filename image) with
    | Some recorded => delete (Path.join imageSetPath recorded) (files st)
    | None => files st
    end in
  let copy (n : Fs.File) :=
    {| Fs.data := Fs.data n;
       Fs.file_mtimeMs := inject_Z (Js.Math_round (Fs.file_mtimeMs n));
       Fs.folder := false |} in
  ∃ n, files st !! new = Some n ∧
    (new = dest →
       syncImage imageSetPath imageSourcePath st image = Throw IoError) ∧
    (new ≠ dest → Fs.folder n = false → Fs.is_folder removed dest = false →
       syncImage imageSetPath imageSourcePath st image =
       Normal ({| files := <[dest := copy n]> removed;
                  result := {| unassigned := unassigned (result st);
                               updated := updated (result st) ++ [name];
                               missing := missing (result st);
                               skipped := skipped (result st) |};
                  needsContentsUpdate := true |},
               {| idiom := idiom image; filename := Some name; scale := scale image;
                  appearances := appearances image |}) ∧
       (<[dest := copy n]> removed) !! dest = Some (copy n) ∧
       Js.Math_round (Fs.file_mtimeMs (copy n)) = Js.Math_round (Fs.file_mtimeMs n)).
Proof.
  intros _ Hfind Hcase Hold name dest removed copy.
  destruct (findImagePath_exists _ _ _ _ _ Hfind) as [[n Hn] Hnew].
  assert (Js.truthy_value (Some new) = Some new) as Htnew by by apply truthy_value_Some.
  exists n. split; [done|].
  assert (removed !! new = Some n) as Hkept.
  { unfold removed. destruct (Js.truthy_value (filename image)) as [recorded|] eqn:Ht; [|done].
    apply truthy_value_Some in Ht as [Hf Hne].
    destruct Hcase as [Hfalsy | (r & Hr & _ & Hdiff)].
    - unfold Js.truthy in Hfalsy. rewrite Hf in Hfalsy.
      apply String.eqb_neq in Hne. by rewrite Hne in Hfalsy.
    - rewrite Hf in Hr. injection Hr as <-.
      rewrite lookup_delete_ne; [done|]. by intros <-. }
  assert (replace_image imageSetPath new (Js.and_then (filename image) (Path.join imageSetPath))
            image st =
          copy_and_report imageSetPath new name (set_filename name image) removed (result st)
            true) as Hreplace.
  { unfold replace_image, Fs.removeSync.
    rewrite (truthy_value_and_then _ _ (join_not_empty imageSetPath)). unfold removed.
    destruct (Js.truthy_value (filename image)) as [recorded|];
      cbn [fmap option_fmap option_map]; [|by rewrite bind_Normal].
    by rewrite Hold, bind_Normal. }
  assert (syncImage imageSetPath imageSourcePath st image =
          copy_and_report imageSetPath new name (set_filename name image) removed (result st)
            true) as ->.
  { rewrite <- Hreplace. unfold syncImage. rewrite Hfind, bind_Normal, Htnew.
    destruct Hcase as [Hfalsy | (r & Hr & Hne & Hdiff)].
    - assert (Js.truthy_value (filename image) = None) as ->; [|done].
      unfold Js.truthy in Hfalsy. unfold Js.truthy_value.
      destruct (filename image) as [f|]; [|done].
      by apply negb_false_iff in Hfalsy as ->.
    - assert (Js.truthy_value (filename image) = Some r) as -> by by apply truthy_value_Some.
      apply String.eqb_neq in Hdiff. by rewrite Hdiff. }
  rewrite (copy_and_report_found _ _ _ _ _ _ _ _ Hkept). fold name dest. split.
  - intros Hsame. apply String.eqb_eq in Hsame. by rewrite Hsame.
  - intros Hdiff%String.eqb_neq -> ->. rewrite Hdiff.
    split; [done|]. split; [by rewrite lookup_insert_eq|].
    apply Math_round_inject_Z.
Qed.

Lemma C4_same_name_skip_or_refresh_witness :
  syncImage icon_set pool
    {| files := on_disk same_time_files; result := new_ImageSetSyncResult;
       needsContentsUpdate := false |}
    (entry (Some "icon.png") "2x")
  = Normal ({| files := on_disk same_time_files;
               result := {| unassigned := false; updated := []; missing := [];
                            skipped := ["icon.png"] |};
               needsContentsUpdate := false |},
            entry (Some "icon.png") "2x")
  ∧
  syncImage icon_set pool
    {| files := on_disk later_files; result := new_ImageSetSyncResult;
       needsContentsUpdate := false |}
    (entry (Some "icon.png") "2x")
  = Normal ({| files := <["Assets.xcassets/Icon.imageset/icon.png" := file "new" 2001]>
                          (on_disk later_files);
               result := {| unassigned := false; updated := ["icon.png"]; missing := [];
                            skipped := [] |};
               needsContentsUpdate := false |},
            entry (Some "icon.png") "2x").
Proof.
  split.
  - refine (proj1 (C4_same_name_skip_or_refresh icon_set pool
                     {| files := on_disk same_time_files; result := new_ImageSetSyncResult;
                        needsContentsUpdate := false |}
                     (entry (Some "icon.png") "2x") "icon.png" "pool/icon.png"
                     eq_refl eq_refl eq_refl _ eq_refl) _); [discriminate|].
    exists (file "old" (5002 # 5)), (file "new" 1000). by vm_compute.
  - destruct (proj2 (C4_same_name_skip_or_refresh icon_set pool
                       {| files := on_disk later_files; result := new_ImageSetSyncResult;
                          needsContentsUpdate := false |}
                       (entry (Some "icon.png") "2x") "icon.png" "pool/icon.png"
                       eq_refl eq_refl eq_refl ltac:(discriminate) eq_refl))
      as (n & Hn & _ & Hrun).
    + intros (o & n & Ho & Hn & _ & Htime).
      vm_compute in Ho, Hn. injection Ho as <-. injection Hn as <-. discriminate Htime.
    + vm_compute in Hn. injection Hn as <-.
      exact (Hrun ltac:(discriminate) eq_refl eq_refl).
Defined.

(** For every entry, C4 does not hold: where the source folder is the
    image-set folder, the file found for the recorded [sub/icon.png] is the
    file [icon.png] of that folder, the names agree, no old file is there to
    compare, and the copy of the file onto itself throws. *)
Lemma C4_copy_onto_itself_counterexample :
  Fs.consistent same_folder_files = true ∧
  findImagePath same_folder_files icon_set icon_set (entry (Some "sub/icon.png") "1x")
    = Normal (Some "Assets.xcassets/Icon.imageset/icon.png") ∧
  Path.basename (Path.join icon_set "sub/icon.png")
    = Path.basename "Assets.xcassets/Icon.imageset/icon.png" ∧
  ¬ same_size_and_time same_folder_files (Path.join icon_set "sub/icon.png")
      "Assets.xcassets/Icon.imageset/icon.png" ∧
  syncImage icon_set icon_set
    {| files := same_folder_files; result := new_ImageSetSyncResult;
       needsContentsUpdate := false |}
    (entry (Some "sub/icon.png") "1x")
  = Throw IoError.
Proof.
  split; [reflexivity|]. split; [reflexivity|]. split; [reflexivity|]. split; [|reflexivity].
  intros (o & n & Ho & _). vm_compute in Ho. discriminate.
Qed.

Lemma C5_replacement_witness :
  syncImage icon_set pool
    {| files := on_disk renamed_files; result := new_ImageSetSyncResult;
       needsContentsUpdate := false |}
    (entry (Some "old.png") "1x")
  = Normal ({| files := <["Assets.xcassets/Icon.imageset/icon.png" := file "new" 2000]>
                          (delete "Assets.xcassets/Icon.imageset/old.png"
                             (on_disk renamed_files));
               result := {| unassigned := false; updated := ["icon.png"]; missing := [];
                            skipped := [] |};
               needsContentsUpdate := true |},
            entry (Some "icon.png") "1x").
Proof.
  destruct (C5_replacement icon_set pool
              {| files := on_disk renamed_files; result := new_ImageSetSyncResult;
                 needsContentsUpdate := false |}
              (entry (Some "old.png") "1x") "pool/icon.png" eq_refl eq_refl)
    as (n & Hn & _ & Hrun).
  - right. exists "old.png". by vm_compute.
  - reflexivity.
  - vm_compute in Hn. injection Hn as <-.
    exact (proj1 (Hrun ltac:(discriminate) eq_refl eq_refl)).
Defined.

(** For every entry, C5 does not hold: where the source folder is the
    image-set folder, the file found for an entry without a filename is
    already the file the copy would write, and the copy throws. *)
Lemma C5_copy_onto_itself_counterexample :
  Fs.consistent same_folder_files = true ∧
  findImagePath same_folder_files icon_set icon_set (entry None "1x")
    = Normal (Some "Assets.xcassets/Icon.imageset/icon.png") ∧
  Js.truthy (filename (entry None "1x")) = false ∧
  syncImage icon_set icon_set
    {| files := same_folder_files; result := new_ImageSetSyncResult;
       needsContentsUpdate := false |}
    (entry None "1x")
  = Throw IoError.
Proof. repeat split. Qed.

(** ** The reconciler, entry by entry *)

Lemma syncImage_case (imageSetPath imageSourcePath : string) (st st' : SyncState)
    (image image' : ImageSetImage) :
  syncImage imageSetPath imageSourcePath st image = Normal (st', image') →
  sync_case imageSetPath imageSourcePath st image st' image'.
Proof.
  unfold syncImage.
  destruct (findImagePath (files st) imageSetPath imageSourcePath image)
    as [[new|]|] eqn:Hfind; rewrite ?bind_Normal, ?bind_Throw; [| |done].
  - destruct (findImagePath_exists _ _ _ _ _ Hfind) as [[n Hn] Hnew].
    assert (Js.truthy_value (Some new) = Some new) as -> by by apply truthy_value_Some.
    rewrite (truthy_value_and_then _ _ (join_not_empty imageSetPath)).
    set (dest := Path.join imageSetPath (Path.basename new)).
    pose proof (sync_replaced imageSetPath imageSourcePath st image new n Hfind) as Hreplaced.
    assert (∀ fs1 pushed image1 needs out, fs1 !! new = Some n →
              copy_and_report imageSetPath new pushed image1 fs1 (result st) needs
                = Normal out →
              new ≠ dest ∧ Fs.folder n = false ∧ Fs.is_folder fs1 dest = false ∧
              out = ({| files := <[dest := Fs.copy_of n]> fs1;
                        result := push_updated pushed (result st);
                        needsContentsUpdate := needs |}, image1)) as Hcopy.
    { intros fs1 pushed image1 needs out H1.
      rewrite (copy_and_report_found _ _ _ _ _ _ _ _ H1). fold dest.
      destruct (String.eqb new dest) eqn:E1; [done|]. apply String.eqb_neq in E1.
      destruct (Fs.folder n); [done|].
      destruct (Fs.is_folder fs1 dest); [done|]. by intros [= <-]. }
    unfold replace_image, Fs.removeSync.
    rewrite (truthy_value_and_then _ _ (join_not_empty imageSetPath)).
    destruct (Js.truthy_value (filename image)) as [recorded|] eqn:Ht;
      cbn [fmap option_fmap option_map mbind option_bind].
    + destruct (String.eqb (Path.basename (Path.join imageSetPath recorded))
                  (Path.basename new)) eqn:Hbase; cbn [negb].
      * apply String.eqb_eq in Hbase.
        destruct (same_stat _ _) eqn:Hstat.
        -- intros [= <- <-]. by eapply sync_skipped.
        -- intros Hrun. destruct (Hcopy _ _ _ _ _ Hn Hrun) as (H1 & H2 & H3 & [= -> ->]).
           by eapply sync_refreshed.
      * apply String.eqb_neq in Hbase.
        destruct (Fs.is_folder (files st) (Path.join imageSetPath recorded)) eqn:Hold;
          rewrite ?bind_Normal, ?bind_Throw; [done|].
        intros Hrun.
        assert (delete (Path.join imageSetPath recorded) (files st) !! new = Some n) as Hn'.
        { rewrite lookup_delete_ne; [done|]. by intros <-. }
        destruct (Hcopy _ _ _ _ _ Hn' Hrun) as (H1 & H2 & H3 & [= -> ->]).
        apply Hreplaced; try done.
        unfold Fs.is_folder in *. fold dest.
        destruct (decide (dest = Path.join imageSetPath recorded)) as [->|Hne]; [done|].
        by rewrite lookup_delete_ne in H3.
    + rewrite bind_Normal. intros Hrun.
      destruct (Hcopy _ _ _ _ _ Hn Hrun) as (H1 & H2 & H3 & [= -> ->]).
      by apply Hreplaced.
  - cbn [Js.truthy_value].
    destruct (filename image) eqn:Hf; intros [= <- <-];
      pose proof (sync_not_found imageSetPath imageSourcePath st image Hfind) as H;
      by rewrite Hf in H.
Qed.

Lemma sync_case_flag (imageSetPath imageSourcePath : string) (st st' : SyncState)
    (image image' : ImageSetImage) :
  sync_case imageSetPath imageSourcePath st image st' image' →
  (image' = image ∧ needsContentsUpdate st' = needsContentsUpdate st) ∨
  (needsContentsUpdate st' = true ∧
   (names_no_directory image → filename image' ≠ filename image)).
Proof.
  destruct 1 as [Hfind | new recorded Hfind Ht Hbase Hstat
                 | new recorded n Hfind Ht Hbase Hstat Hn | new n Hfind Hdiff Hn];
    [by left..|].
  right. split; [done|]. intros [Hdot Hdots]. simpl.
  destruct (filename image) as [f|] eqn:Hf; [|done].
  intros [= Hsame].
  destruct (Js.truthy_value (Some f)) as [recorded|] eqn:Ht.
  - apply truthy_value_Some in Ht as [[= <-] Hne].
    assert (plain_name f = true) as Hplain.
    { apply plain_name_spec. rewrite <- Hsame at 1.
      split; [apply basename_no_slash|]. split; [done|]. split; congruence. }
    rewrite (basename_join_plain _ _ Hplain) in Hdiff. congruence.
  - assert (f = "") as ->.
    { unfold Js.truthy_value in Ht. destruct (String.eqb f "") eqn:E; [|done].
      by apply String.eqb_eq in E. }
    unfold findImagePath in Hfind. rewrite Hf in Hfind. simpl in Hfind.
    apply findDerivedPath_basename, plain_name_spec in Hfind as (_ & Hne & _).
    congruence.
Qed.

Lemma filename_changed_here (a b : ImageSetImage) (before after : list ImageSetImage) :
  filename b ≠ filename a → filename_changed (a :: before) (b :: after).
Proof. intros H. by exists 0%nat, a, b. Qed.

Lemma filename_changed_later (a b : ImageSetImage) (before after : list ImageSetImage) :
  filename_changed before after → filename_changed (a :: before) (b :: after).
Proof. intros (i & x & y & ? & ? & ?). by exists (S i), x, y. Qed.

Lemma filename_changed_irrefl (l : list ImageSetImage) : ¬ filename_changed l l.
Proof. intros (i & a & b & Ha & Hb & Hne). congruence. Qed.

Lemma forEach_image_flag (imageSetPath imageSourcePath : string) (imgs imgs' : list ImageSetImage)
    (st st' : SyncState) :
  forEach_image imageSetPath imageSourcePath imgs st = Normal (st', imgs') →
  (needsContentsUpdate st' = false → imgs' = imgs ∧ needsContentsUpdate st = false) ∧
  (Forall names_no_directory imgs →
   needsContentsUpdate st' = true →
   needsContentsUpdate st = true ∨ filename_changed imgs imgs').
Proof.
  revert imgs' st st'. induction imgs as [|image rest IH]; intros imgs' st st'.
  - simpl. intros [= <- <-]. split; [done|]. by left.
  - simpl. destruct (syncImage imageSetPath imageSourcePath st image) as [[st1 image1]|] eqn:Hstep;
      rewrite ?bind_Normal, ?bind_Throw; [|done].
    destruct (forEach_image imageSetPath imageSourcePath rest st1) as [[st2 rest2]|] eqn:Hrest;
      rewrite ?bind_Normal, ?bind_Throw; [|done].
    intros [= <- <-].
    destruct (IH _ _ _ Hrest) as [Hoff Hon].
    apply syncImage_case, sync_case_flag in Hstep. split.
    + intros Hfalse. destruct (Hoff Hfalse) as [-> H1].
      destruct Hstep as [[-> <-] | [Htrue _]]; [done|congruence].
    + intros [Hplain Hplains]%Forall_cons Htrue.
      destruct (Hon Hplains Htrue) as [H1 | Hchanged].
      * destruct Hstep as [[-> <-] | [_ Hdiff]]; [by left|].
        right. by apply filename_changed_here, Hdiff.
      * right. by apply filename_changed_later.
Qed.

(** C6, for a manifest in which no recorded filename is one of the directory
    names [.] and [..]: a reconciliation that completes writes the manifest
    back exactly when some entry has another filename after it than before. *)
Theorem C6_manifest_written_iff_filename_changed (fs : gmap string Fs.File)
    (imageSetPath imageSourcePath : string) (contents : ImageSetContents) (r : Run) :
  Forall names_no_directory (images contents) →
  syncImageSet fs imageSetPath imageSourcePath contents = Normal r →
  (is_Some (run_written r) ↔ filename_changed (images contents) (images (run_contents r))).
Proof.
  intros Hplain. unfold syncImageSet.
  destruct (forEach_image _ _ _ _) as [[st imgs]|] eqn:Hloop;
    rewrite ?bind_Normal, ?bind_Throw; [|done].
  intros [= <-]. simpl.
  destruct (forEach_image_flag _ _ _ _ _ _ Hloop) as [Hoff Hon].
  destruct (needsContentsUpdate st) eqn:Hflag.
  - split; [|by eauto]. intros _. by destruct (Hon Hplain eq_refl).
  - destruct (Hoff eq_refl) as [-> _]. split; [by intros [? ?]|].
    intros H. by apply filename_changed_irrefl in H.
Qed.

(** ** Two runs in a row *)

Section two_runs.

Variables imageSetPath imageSourcePath : string.

Local Abbreviation pool_path := (Path.join imageSourcePath).
Local Abbreviation set_path := (Path.join imageSetPath).
Local Abbreviation locate fs := (findImagePath fs imageSetPath imageSourcePath).
Local Abbreviation in_sync' := (in_sync imageSetPath imageSourcePath).
Local Abbreviation settles' := (settles imageSetPath imageSourcePath).
Local Abbreviation at_rest' := (at_rest imageSetPath imageSourcePath).

(** Copying the pool file [x] to another place of the image-set folder
    leaves the pool as it is. *)
Lemma insert_pool (fs : gmap string Fs.File) (x y : string) (n : Fs.File) :
  plain_name x = true → plain_name y = true →
  pool_path x ≠ set_path x →
  <[set_path x := n]> fs !! pool_path y = fs !! pool_path y.
Proof.
  intros Hx Hy Hne. rewrite lookup_insert_ne; [done|]. intros E.
  pose proof (join_plain_inj _ _ _ _ Hx Hy E) as [_ <-]. by rewrite E in Hne.
Qed.

(** Removing from the image-set folder a name the pool does not hold leaves
    the pool as it is. *)
Lemma delete_pool (fs : gmap string Fs.File) (x y : string) :
  plain_name x = true → plain_name y = true →
  fs !! pool_path x = None →
  delete (set_path x) fs !! pool_path y = fs !! pool_path y.
Proof.
  intros Hx Hy Hn. destruct (decide (set_path x = pool_path y)) as [E|E].
  - pose proof (join_plain_inj _ _ _ _ Hx Hy E) as [_ ->].
    by rewrite E, lookup_delete_eq, Hn.
  - by rewrite lookup_delete_ne.
Qed.

Lemma set_path_inj (x y : string) :
  plain_name x = true → plain_name y = true → set_path x = set_path y → x = y.
Proof. intros Hx Hy E. by apply (join_plain_inj _ _ _ _ Hx Hy) in E as [_ E]. Qed.

Lemma settles_refl (fs : gmap string Fs.File) : settles' fs fs.
Proof. by split. Qed.

Lemma settles_trans (fs1 fs2 fs3 : gmap string Fs.File) :
  settles' fs1 fs2 → settles' fs2 fs3 → settles' fs1 fs3.
Proof.
  intros [Hp1 Hs1] [Hp2 Hs2]. split.
  - intros x Hx. by rewrite Hp2, Hp1.
  - intros name Hname H. by apply Hs2, Hs1.
Qed.

Lemma plain_image_candidates (image : ImageSetImage) (appearance : string) :
  plain_image image = true → appearance_suffix image = Normal appearance →
  plain_name (derived_name imageSetPath +:+ appearance +:+ scale_suffix image +:+ ".png") = true ∧
  plain_name (derived_name imageSetPath +:+ "-light" +:+ scale_suffix image +:+ ".png") = true.
Proof.
  intros [_ [Hscale Happ]%andb_true_iff]%andb_true_iff Hsuffix.
  assert (no_slash (scale_suffix image) = true) as Hs.
  { unfold scale_suffix. destruct (String.eqb _ _); [done|]. by rewrite no_slash_app. }
  assert (no_slash appearance = true) as Ha.
  { unfold appearance_suffix in Hsuffix.
    destruct (appearances image) as [[|first others]|]; [done| |];
      injection Hsuffix as <-; [|done]. by rewrite no_slash_app. }
  pose proof (derived_name_no_slash imageSetPath) as Hd.
  split.
  - rewrite <- !app_assoc. apply plain_name_png. by rewrite !no_slash_app, Hd, Ha, Hs.
  - rewrite <- !app_assoc. apply plain_name_png. by rewrite !no_slash_app, Hd, Hs.
Qed.

Lemma plain_image_recorded (image : ImageSetImage) (recorded : string) :
  plain_image image = true → Js.truthy_value (filename image) = Some recorded →
  filename image = Some recorded ∧ plain_name recorded = true.
Proof.
  intros [Hf _]%andb_true_iff [Hr Hne]%truthy_value_Some.
  unfold plain_filename in Hf. rewrite Hr in Hf.
  apply String.eqb_neq in Hne. by rewrite Hne in Hf.
Qed.

(** The locator reads the pool only. *)
Lemma findImagePath_pool (fs fs' : gmap string Fs.File) (image : ImageSetImage) :
  plain_image image = true → pool_unchanged imageSourcePath fs fs' →
  locate fs' image = locate fs image.
Proof.
  intros Hplain Hpool.
  assert (∀ x, plain_name x = true →
            Fs.existsSync fs' (pool_path x) = Fs.existsSync fs (pool_path x)) as Hex.
  { intros x Hx. unfold Fs.existsSync. by rewrite (Hpool x Hx). }
  assert (findDerivedPath fs' imageSetPath imageSourcePath image =
          findDerivedPath fs imageSetPath imageSourcePath image) as Hderived.
  { unfold findDerivedPath.
    destruct (appearance_suffix image) as [appearance|] eqn:Happ;
      rewrite ?bind_Normal, ?bind_Throw; [|done].
    destruct (plain_image_candidates image appearance Hplain Happ) as [H1 H2].
    cbv zeta. by rewrite (Hex _ H1), (Hex _ H2). }
  unfold findImagePath.
  destruct (Js.truthy_value (filename image)) as [recorded|] eqn:Ht; [|done].
  destruct (plain_image_recorded _ _ Hplain Ht) as [_ Hr].
  cbv zeta. by rewrite (Hex _ Hr), Hderived.
Qed.

(** A path the locator returns is a plain name of the pool. *)
Lemma findImagePath_plain (fs : gmap string Fs.File) (image : ImageSetImage) (new : string) :
  plain_image image = true → locate fs image = Normal (Some new) →
  new = pool_path (Path.basename new) ∧ plain_name (Path.basename new) = true.
Proof.
  intros Hplain.
  assert (∀ x, plain_name x = true →
            pool_path x = pool_path (Path.basename (pool_path x)) ∧
            plain_name (Path.basename (pool_path x)) = true) as Hname.
  { intros x Hx. by rewrite (basename_join_plain _ _ Hx). }
  assert (findDerivedPath fs imageSetPath imageSourcePath image = Normal (Some new) →
          new = pool_path (Path.basename new) ∧ plain_name (Path.basename new) = true)
    as Hderived.
  { unfold findDerivedPath.
    destruct (appearance_suffix image) as [appearance|] eqn:Happ;
      rewrite ?bind_Normal, ?bind_Throw; [|done].
    destruct (plain_image_candidates image appearance Hplain Happ) as [H1 H2].
    cbv zeta. destruct (Fs.existsSync fs _); [intros [= <-]; by apply Hname|].
    destruct (Fs.existsSync fs _); [intros [= <-]; by apply Hname|done]. }
  unfold findImagePath.
  destruct (Js.truthy_value (filename image)) as [recorded|] eqn:Ht; [|done].
  destruct (plain_image_recorded _ _ Hplain Ht) as [_ Hr].
  cbv zeta. destruct (Fs.existsSync fs _); [intros [= <-]; by apply Hname|done].
Qed.

(** The first lookup of the locator. *)
Lemma findImagePath_recorded (fs : gmap string Fs.File) (image : ImageSetImage)
    (recorded : string) :
  Js.truthy_value (filename image) = Some recorded →
  is_Some (fs !! pool_path recorded) →
  locate fs image = Normal (Some (pool_path recorded)).
Proof.
  intros Ht Hex%existsSync_true. unfold findImagePath. by rewrite Ht, Hex.
Qed.

Lemma in_sync_exists (fs : gmap string Fs.File) (name : string) :
  in_sync' fs name → is_Some (fs !! pool_path name).
Proof.
  unfold in_sync, same_stat, Fs.statSync.
  destruct (fs !! set_path name); simpl; [|done].
  destruct (fs !! pool_path name); simpl; [eauto|done].
Qed.

Lemma in_sync_copy (fs : gmap string Fs.File) (name : string) (n : Fs.File) :
  plain_name name = true →
  pool_path name ≠ set_path name →
  fs !! pool_path name = Some n →
  in_sync' (<[set_path name := Fs.copy_of n]> fs) name.
Proof.
  intros Hname Hne Hn. unfold in_sync, Fs.statSync.
  rewrite lookup_insert_eq, (insert_pool _ _ _ _ Hname Hname Hne), Hn.
  simpl. by rewrite Math_round_inject_Z, !Z.eqb_refl.
Qed.

Lemma in_sync_other (fs fs' : gmap string Fs.File) (name : string) :
  fs' !! set_path name = fs !! set_path name →
  fs' !! pool_path name = fs !! pool_path name →
  in_sync' fs name → in_sync' fs' name.
Proof. unfold in_sync, Fs.statSync. by intros -> ->. Qed.


(** What one entry of a well-formed manifest leaves behind: a state that
    settles the one before, the entry at rest, and a name reported as updated
    only for a file that is now in sync. *)
Lemma sync_case_settles (st st' : SyncState) (image image' : ImageSetImage) :
  plain_image image = true →
  sync_case imageSetPath imageSourcePath st image st' image' →
  settles' (files st) (files st') ∧
  at_rest' (files st') image' ∧
  (∀ f, f ∈ updated (result st') →
     f ∈ updated (result st) ∨
     (filename image' = Some f ∧ plain_name f = true ∧ in_sync' (files st') f)).
Proof.
  intros Hplain Hcase.
  destruct Hcase as [Hfind | new recorded Hfind Ht Hbase Hstat
                     | new recorded n Hfind Ht Hbase Hstat Hn Hdest _ _
                     | new n Hfind Hdiff Hn Hdest _ _ _].
  - split; [apply settles_refl|]. split; [by split; [|right]|].
    intros f Hf. left. simpl in Hf. by destruct (filename image).
  - destruct (plain_image_recorded _ _ Hplain Ht) as [Hf Hr].
    destruct (findImagePath_plain _ _ _ Hplain Hfind) as [Hnew _].
    rewrite (basename_join_plain _ _ Hr) in Hbase. rewrite <- Hbase in Hnew. subst new.
    split; [apply settles_refl|]. split; [|by left].
    split; [done|]. left. by exists recorded.
  - destruct (plain_image_recorded _ _ Hplain Ht) as [Hf Hr].
    destruct (findImagePath_plain _ _ _ Hplain Hfind) as [Hnew _].
    rewrite (basename_join_plain _ _ Hr) in Hbase. rewrite <- Hbase in Hnew, Hdest |- *.
    subst new. simpl.
    assert (in_sync' (<[set_path recorded := Fs.copy_of n]> (files st)) recorded) as Hsync
      by by apply in_sync_copy.
    split; [|split].
    + split.
      * intros x Hx. by apply insert_pool.
      * intros name Hname Hin. destruct (decide (name = recorded)) as [->|Hne]; [done|].
        apply (in_sync_other (files st)); [| |done].
        -- rewrite lookup_insert_ne; [done|]. intros E. by apply set_path_inj in E.
        -- by apply insert_pool.
    + split; [done|]. left. by exists recorded.
    + intros f [Hf'|Hf']%elem_of_app; [by left|].
      apply list_elem_of_singleton in Hf' as ->. by right.
  - destruct (findImagePath_plain _ _ _ Hplain Hfind) as [Hnew Hb].
    set (name := Path.basename new) in *. simpl.
    set (removed := match Js.truthy_value (filename image) with
                    | Some recorded => delete (set_path recorded) (files st)
                    | None => files st
                    end).
    assert (pool_path name ≠ set_path name) as Hapart by by rewrite <- Hnew.
    assert (∀ recorded, Js.truthy_value (filename image) = Some recorded →
              plain_name recorded = true ∧ files st !! pool_path recorded = None) as Hgone.
    { intros recorded Ht. destruct (plain_image_recorded _ _ Hplain Ht) as [_ Hr].
      split; [done|]. destruct (files st !! pool_path recorded) as [o|] eqn:Ho; [|done].
      exfalso. rewrite (findImagePath_recorded _ _ _ Ht) in Hfind; [|by rewrite Ho].
      injection Hfind as Hfind. rewrite Ht in Hdiff. apply Hdiff. unfold name.
      rewrite <- Hfind. by rewrite !(basename_join_plain _ _ Hr). }
    assert (pool_unchanged imageSourcePath (files st) removed) as Hpool.
    { intros x Hx. unfold removed.
      destruct (Js.truthy_value (filename image)) as [recorded|] eqn:Ht; [|done].
      destruct (Hgone recorded eq_refl) as [Hr Ho]. by apply delete_pool. }
    assert (∀ y, plain_name y = true → in_sync' (files st) y →
              removed !! set_path y = files st !! set_path y) as Hkept.
    { intros y Hy Hin. unfold removed.
      destruct (Js.truthy_value (filename image)) as [recorded|] eqn:Ht; [|done].
      destruct (Hgone recorded eq_refl) as [Hr Ho].
      rewrite lookup_delete_ne; [done|]. intros E. apply set_path_inj in E; [|done..].
      subst y. apply in_sync_exists in Hin. rewrite Ho in Hin. by destruct Hin. }
    assert (removed !! pool_path name = Some n) as Hn'.
    { rewrite (Hpool name Hb). by rewrite <- Hnew. }
    assert (in_sync' (<[set_path name := Fs.copy_of n]> removed) name) as Hsync
      by by apply in_sync_copy.
    assert (plain_image (set_filename name image) = true) as Hplain'.
    { apply andb_true_iff in Hplain as [_ Hs]. apply andb_true_iff. split; [|done].
      unfold plain_filename. simpl. rewrite Hb. apply orb_true_r. }
    split; [|split].
    + split.
      * intros x Hx. rewrite (insert_pool _ _ _ _ Hb Hx Hapart). by apply Hpool.
      * intros y Hy Hin. destruct (decide (y = name)) as [->|Hne]; [done|].
        apply (in_sync_other (files st)); [| |done].
        -- rewrite lookup_insert_ne; [by apply Hkept|]. intros E. by apply set_path_inj in E.
        -- rewrite (insert_pool _ _ _ _ Hb Hy Hapart). by apply Hpool.
    + split; [done|]. left. by exists name.
    + intros f [Hf'|Hf']%elem_of_app; [by left|].
      apply list_elem_of_singleton in Hf' as ->. by right.
Qed.

Lemma at_rest_settles (fs fs' : gmap string Fs.File) (image : ImageSetImage) :
  at_rest' fs image → settles' fs fs' → at_rest' fs' image.
Proof.
  intros [Hplain Hcase] [Hpool Hsync]. split; [done|].
  destruct Hcase as [(name & Hf & Hname & Hin) | Hnone].
  - left. exists name. split; [done|]. split; [done|]. by apply Hsync.
  - right. by rewrite (findImagePath_pool fs fs').
Qed.


Lemma forEach_image_first_run (imgs imgs' : list ImageSetImage) (st st' : SyncState) :
  Forall (λ image, plain_image image = true) imgs →
  forEach_image imageSetPath imageSourcePath imgs st = Normal (st', imgs') →
  settles' (files st) (files st') ∧
  Forall (at_rest' (files st')) imgs' ∧
  (∀ f, f ∈ updated (result st') →
     f ∈ updated (result st) ∨
     ∃ image', image' ∈ imgs' ∧ filename image' = Some f ∧ plain_name f = true ∧
               in_sync' (files st') f).
Proof.
  revert imgs' st st'. induction imgs as [|image rest IH]; intros imgs' st st' Hplain.
  - simpl. intros [= <- <-]. split; [apply settles_refl|]. split; [done|]. by left.
  - apply Forall_cons in Hplain as [Hplain Hplains]. simpl.
    destruct (syncImage imageSetPath imageSourcePath st image) as [[st1 image1]|] eqn:Hstep;
      rewrite ?bind_Normal, ?bind_Throw; [|done].
    destruct (forEach_image imageSetPath imageSourcePath rest st1) as [[st2 rest2]|] eqn:Hrest;
      rewrite ?bind_Normal, ?bind_Throw; [|done].
    intros [= <- <-].
    destruct (sync_case_settles _ _ _ _ Hplain (syncImage_case _ _ _ _ _ _ Hstep))
      as (Hs1 & Hrest1 & Hup1).
    destruct (IH _ _ _ Hplains Hrest) as (Hs2 & Hrest2 & Hup2).
    split; [by eapply settles_trans|]. split.
    + constructor; [by eapply at_rest_settles|done].
    + intros f Hf. destruct (Hup2 f Hf) as [Hf1 | (image' & Hin & Hname & Hpl & Hsync)].
      * destruct (Hup1 f Hf1) as [Hf0 | (Hname & Hpl & Hsync)]; [by left|].
        right. exists image1. split; [by left|]. split; [done|]. split; [done|].
        destruct Hs2 as [_ Hs2]. by apply Hs2.
      * right. exists image'. split; [by right|done].
Qed.


End two_runs.

Lemma contents_eta (contents : ImageSetContents) :
  {| images := images contents; info := info contents |} = contents.
Proof. by destruct contents. Qed.


Lemma sample_run_eq : syncImageSet sample_files icon_set pool sample_contents = Normal sample_run.
Proof. vm_compute. reflexivity. Qed.


Lemma C6_manifest_written_iff_filename_changed_witness :
  is_Some (run_written sample_run) ↔
  filename_changed (images sample_contents) (images (run_contents sample_run)).
Proof.
  apply (C6_manifest_written_iff_filename_changed sample_files icon_set pool).
  - repeat constructor; discriminate.
  - vm_compute. reflexivity.
Defined.

(** For every recorded filename, C6 does not hold: with the filename [.] and
    the current directory as pool, the entry is given the name it had and the
    manifest is written. *)
Lemma C6_directory_name_counterexample :
  syncImageSet dot_files "/dest/Assets.xcassets/Icon.imageset" "." dot_contents
    = Normal dot_run ∧
  is_Some (run_written dot_run) ∧
  images (run_contents dot_run) = images dot_contents ∧
  ¬ filename_changed (images dot_contents) (images (run_contents dot_run)).
Proof.
  assert (images (run_contents dot_run) = images dot_contents) as Hsame
    by (vm_compute; reflexivity).
  split; [vm_compute; reflexivity|]. split; [vm_compute; eauto|]. split; [done|].
  rewrite Hsame. apply filename_changed_irrefl.
Qed.


(** ** The text of the manifest *)

Lemma take_drop (n : nat) (s : string) : Js.take n s +:+ Js.drop n s = s.
Proof.
  revert s. induction n as [|n IH]; intros s; [reflexivity|].
  destruct s as [|c s]; [reflexivity|]. simpl. by rewrite app_cons, IH.
Qed.























Example manifest_text_sample :
  manifest_text
    {| images := [entry None "2x"]; info := xcode |}
    {| images := [entry (Some "icon.png") "2x"]; info := xcode |} =
  join_with (String newline "")
    [ "{";
      "  " +:+ quote "images" +:+ " : [";
      "    {";
      "      " +:+ quote "idiom" +:+ ": " +:+ quote "universal" +:+ ",";
      "      " +:+ quote "scale" +:+ ": " +:+ quote "2x" +:+ ",";
      "      " +:+ quote "filename" +:+ ": " +:+ quote "icon.png";
      "    }";
      "  ],";
      "  " +:+ quote "info" +:+ ": {";
      "    " +:+ quote "version" +:+ ": 1,";
      "    " +:+ quote "author" +:+ ": " +:+ quote "xcode";
      "  }";
      "}" ].
Proof. reflexivity. Qed.

(** * Further properties

    What the loop of [syncImageSet] does in general, entry by entry. *)

Lemma findImagePath_throw (fs : gmap string Fs.File) (imageSetPath imageSourcePath : string)
    (image : ImageSetImage) (e : Exn) :
  findImagePath fs imageSetPath imageSourcePath image = Throw e →
  e = TypeError ∧ appearances image = Some [].
Proof.
  assert (findDerivedPath fs imageSetPath imageSourcePath image = Throw e →
          e = TypeError ∧ appearances image = Some []) as Hderived.
  { unfold findDerivedPath, appearance_suffix.
    destruct (appearances image) as [[|first others]|]; rewrite ?bind_Normal, ?bind_Throw;
      [by intros [= <-] | |]; cbv zeta; repeat (destruct (Fs.existsSync fs _)); done. }
  unfold findImagePath. destruct (Js.truthy_value (filename image)); [|done].
  destruct (Fs.existsSync fs _); [done|done].
Qed.

(** Reasoning on a whole loop, entry by entry. *)
Lemma forEach_image_cases (imageSetPath imageSourcePath : string)
    (R : SyncState → list ImageSetImage → SyncState → list ImageSetImage → Prop) :
  (∀ st, R st [] st []) →
  (∀ st image st1 image1 rest st2 rest2,
     sync_case imageSetPath imageSourcePath st image st1 image1 →
     forEach_image imageSetPath imageSourcePath rest st1 = Normal (st2, rest2) →
     R st1 rest st2 rest2 → R st (image :: rest) st2 (image1 :: rest2)) →
  ∀ imgs st st' imgs',
    forEach_image imageSetPath imageSourcePath imgs st = Normal (st', imgs') →
    R st imgs st' imgs'.
Proof.
  intros Hnil Hcons. induction imgs as [|image rest IH]; intros st st' imgs'; simpl.
  - intros [= <- <-]. apply Hnil.
  - destruct (syncImage imageSetPath imageSourcePath st image) as [[st1 image1]|] eqn:H1;
      rewrite ?bind_Normal, ?bind_Throw; [|done].
    destruct (forEach_image imageSetPath imageSourcePath rest st1) as [[st2 rest2]|] eqn:H2;
      rewrite ?bind_Normal, ?bind_Throw; [|done].
    intros [= <- <-]. eapply Hcons; [by apply syncImage_case|done|by apply IH].
Qed.

Lemma syncImageSet_loop (fs : gmap string Fs.File) (imageSetPath imageSourcePath : string)
    (contents : ImageSetContents) (r : Run) :
  syncImageSet fs imageSetPath imageSourcePath contents = Normal r →
  ∃ st imgs,
    forEach_image imageSetPath imageSourcePath (images contents)
      {| files := fs; result := new_ImageSetSyncResult; needsContentsUpdate := false |}
      = Normal (st, imgs) ∧
    r = {| run_files := files st;
           run_contents := {| images := imgs; info := info contents |};
           run_result := result st;
           run_written := if needsContentsUpdate st
                          then Some (Path.join imageSetPath "Contents.json",
                                     manifest_text contents {| images := imgs; info := info contents |})
                          else None |}.
Proof.
  unfold syncImageSet.
  destruct (forEach_image _ _ _ _) as [[st imgs]|]; rewrite ?bind_Normal, ?bind_Throw; [|done].
  intros [= <-]. eauto.
Qed.

(** ** Runs that complete *)

Lemma holds_no_folder_spec (fs : gmap string Fs.File) (dir : string) :
  holds_no_folder fs dir = true → regular fs dir.
Proof.
  intros Hflat x Hx. unfold Fs.is_folder.
  destruct (fs !! Path.join dir x) as [f|] eqn:Hf; [|done].
  destruct (Fs.folder f) eqn:Hfolder; [|done]. exfalso.
  unfold holds_no_folder in Hflat. rewrite forallb_forall in Hflat.
  specialize (Hflat (Path.join dir x, f)). cbn [fst snd] in Hflat.
  rewrite Hfolder, (basename_join_plain _ _ Hx), Hx, String.eqb_refl in Hflat.
  discriminate Hflat. apply list_elem_of_In. by apply elem_of_map_to_list.
Qed.

(** A run makes no folder. *)
Lemma sync_case_folders (imageSetPath imageSourcePath : string) (st st' : SyncState)
    (image image' : ImageSetImage) (p : string) :
  sync_case imageSetPath imageSourcePath st image st' image' →
  Fs.is_folder (files st') p = true → Fs.is_folder (files st) p = true.
Proof.
  assert (∀ (fs : gmap string Fs.File) k n,
            Fs.is_folder (<[k := Fs.copy_of n]> fs) p = true → Fs.is_folder fs p = true)
    as Hinsert.
  { intros fs k n. unfold Fs.is_folder. destruct (decide (k = p)) as [->|Hne].
    - by rewrite lookup_insert_eq.
    - by rewrite lookup_insert_ne. }
  assert (∀ (fs : gmap string Fs.File) k,
            Fs.is_folder (delete k fs) p = true → Fs.is_folder fs p = true) as Hdelete.
  { intros fs k. unfold Fs.is_folder. destruct (decide (k = p)) as [->|Hne].
    - by rewrite lookup_delete_eq.
    - by rewrite lookup_delete_ne. }
  destruct 1 as [Hfind | new recorded Hfind Ht Hbase Hstat
                 | new recorded n Hfind Ht Hbase Hstat Hn
                 | new n Hfind Hdiff Hn]; cbn [files]; [done|done|apply Hinsert|].
  intros Hp%Hinsert. destruct (Js.truthy_value (filename image)); [by apply Hdelete in Hp|done].
Qed.

Lemma forEach_image_folders (imageSetPath imageSourcePath : string)
    (imgs imgs' : list ImageSetImage) (st st' : SyncState) (p : string) :
  forEach_image imageSetPath imageSourcePath imgs st = Normal (st', imgs') →
  Fs.is_folder (files st') p = true → Fs.is_folder (files st) p = true.
Proof.
  revert imgs st st' imgs'.
  refine (forEach_image_cases imageSetPath imageSourcePath
            (λ st imgs st' imgs',
               Fs.is_folder (files st') p = true → Fs.is_folder (files st) p = true) _ _).
  - done.
  - intros st0 image st1 image1 rest st2 rest2 Hcase Hrest IH H.
    by eapply sync_case_folders, IH.
Qed.

(** The folders [imageSetPath] and [imageSourcePath] are different places
    and hold regular files only. *)
Section regular_folders.

Variables imageSetPath imageSourcePath : string.
Hypothesis Hapart : apart imageSetPath imageSourcePath.

Local Abbreviation tidy fs := (regular fs imageSetPath ∧ regular fs imageSourcePath).

Lemma syncImage_found (st : SyncState) (image : ImageSetImage) (found : option string) :
  plain_image image = true → tidy (files st) →
  findImagePath (files st) imageSetPath imageSourcePath image = Normal found →
  ∃ out, syncImage imageSetPath imageSourcePath st image = Normal out.
Proof.
  intros Hplain [HS HP] Hfind. unfold syncImage. rewrite Hfind, bind_Normal.
  destruct found as [new|]; [|cbn [Js.truthy_value]; destruct (filename image); eauto].
  destruct (findImagePath_exists _ _ _ _ _ Hfind) as [[n Hn] Hnew].
  destruct (findImagePath_plain _ _ _ _ _ Hplain Hfind) as [Hpool Hb].
  assert (Js.truthy_value (Some new) = Some new) as -> by by apply truthy_value_Some.
  rewrite (truthy_value_and_then _ _ (join_not_empty imageSetPath)).
  set (dest := Path.join imageSetPath (Path.basename new)).
  assert (String.eqb new dest = false) as Hne.
  { apply String.eqb_neq. intros E. rewrite Hpool in E. apply Hapart.
    by destruct (join_plain_inj _ _ _ _ Hb Hb E) as [<- _]. }
  assert (Fs.folder n = false) as Hfile.
  { pose proof (HP _ Hb) as H.
    unfold Fs.is_folder in H. by rewrite <- Hpool, Hn in H. }
  assert (Fs.is_folder (files st) dest = false) as Hdest by by apply HS.
  assert (∀ pushed image1 needs,
            ∃ out, copy_and_report imageSetPath new pushed image1 (files st) (result st) needs
                   = Normal out) as Hcopy.
  { intros pushed image1 needs. rewrite (copy_and_report_found _ _ _ _ _ _ _ _ Hn).
    fold dest. rewrite Hne, Hfile, Hdest. eauto. }
  unfold replace_image, Fs.removeSync.
  rewrite (truthy_value_and_then _ _ (join_not_empty imageSetPath)).
  destruct (Js.truthy_value (filename image)) as [recorded|] eqn:Ht;
    cbn [fmap option_fmap option_map mbind option_bind]; [|rewrite bind_Normal; apply Hcopy].
  destruct (plain_image_recorded _ _ Hplain Ht) as [_ Hr].
  destruct (String.eqb (Path.basename (Path.join imageSetPath recorded))
              (Path.basename new)) eqn:Hbase; cbn [negb].
  - destruct (same_stat _ _); [eauto|]. apply Hcopy.
  - apply String.eqb_neq in Hbase.
    rewrite (HS _ Hr), bind_Normal.
    assert (delete (Path.join imageSetPath recorded) (files st) !! new = Some n) as Hn'.
    { rewrite lookup_delete_ne; [done|]. by intros <-. }
    rewrite (copy_and_report_found _ _ _ _ _ _ _ _ Hn'). fold dest. rewrite Hne, Hfile.
    assert (Fs.is_folder (delete (Path.join imageSetPath recorded) (files st)) dest = false)
      as ->; [|eauto].
    unfold Fs.is_folder in *.
    destruct (decide (Path.join imageSetPath recorded = dest)) as [->|Hd].
    + by rewrite lookup_delete_eq.
    + by rewrite lookup_delete_ne.
Qed.

Lemma syncImage_throw (st : SyncState) (image : ImageSetImage) (e : Exn) :
  plain_image image = true → tidy (files st) →
  syncImage imageSetPath imageSourcePath st image = Throw e →
  e = TypeError ∧ appearances image = Some [].
Proof.
  intros Hplain Hregular Hthrow.
  destruct (findImagePath (files st) imageSetPath imageSourcePath image) as [found|e'] eqn:Hfind.
  - destruct (syncImage_found _ _ _ Hplain Hregular Hfind) as [out Hout]. congruence.
  - unfold syncImage in Hthrow. rewrite Hfind, bind_Throw in Hthrow.
    injection Hthrow as <-. by eapply findImagePath_throw.
Qed.

Lemma forEach_image_throw (imgs : list ImageSetImage) (st : SyncState) (e : Exn) :
  Forall (λ image, plain_image image = true) imgs → tidy (files st) →
  forEach_image imageSetPath imageSourcePath imgs st = Throw e →
  e = TypeError ∧ Exists (λ image, appearances image = Some []) imgs.
Proof.
  revert st. induction imgs as [|image rest IH]; intros st Hplain Hregular; simpl; [done|].
  apply Forall_cons in Hplain as [Hplain Hplains].
  destruct (syncImage imageSetPath imageSourcePath st image) as [[st1 image1]|e1] eqn:H1;
    rewrite ?bind_Normal, ?bind_Throw.
  - destruct (forEach_image imageSetPath imageSourcePath rest st1) as [[st2 rest2]|e2] eqn:H2;
      rewrite ?bind_Normal, ?bind_Throw; [done|].
    intros [= <-]. destruct (IH st1 Hplains) as [-> Hex]; [|done|].
    + destruct Hregular as [HS HP].
      split; intros x Hx;
        (destruct (Fs.is_folder (files st1) (Path.join _ x)) eqn:E; [|done]);
        apply (sync_case_folders _ _ _ _ _ _ _ (syncImage_case _ _ _ _ _ _ H1)) in E.
      * by rewrite (HS x Hx) in E.
      * by rewrite (HP x Hx) in E.
    + split; [done|by apply Exists_cons_tl].
  - intros [= <-]. destruct (syncImage_throw _ _ _ Hplain Hregular H1) as [-> Hempty].
    split; [done|by apply Exists_cons_hd].
Qed.

Lemma syncImageSet_throw (fs : gmap string Fs.File) (contents : ImageSetContents) (e : Exn) :
  Forall (λ image, plain_image image = true) (images contents) → tidy fs →
  syncImageSet fs imageSetPath imageSourcePath contents = Throw e →
  e = TypeError ∧ Exists (λ image, appearances image = Some []) (images contents).
Proof.
  intros Hplain Hregular. unfold syncImageSet.
  destruct (forEach_image _ _ _ _) as [[st imgs]|e'] eqn:Hloop;
    rewrite ?bind_Normal, ?bind_Throw; [done|].
  intros [= <-]. by apply (forEach_image_throw (images contents)
                          {| files := fs; result := new_ImageSetSyncResult;
                             needsContentsUpdate := false |} e' Hplain Hregular Hloop).
Qed.

Lemma syncImageSet_total (fs : gmap string Fs.File) (contents : ImageSetContents) :
  Forall (λ image, plain_image image = true) (images contents) → tidy fs →
  Forall typed_appearances (images contents) →
  ∃ r, syncImageSet fs imageSetPath imageSourcePath contents = Normal r.
Proof.
  intros Hplain Hregular Htyped.
  destruct (syncImageSet fs imageSetPath imageSourcePath contents) as [r|e] eqn:Hrun; [eauto|].
  destruct (syncImageSet_throw _ _ _ Hplain Hregular Hrun) as [_ Hex].
  apply Exists_exists in Hex as (image & Hin & Hempty).
  rewrite Forall_forall in Htyped. by destruct (Htyped image Hin).
Qed.

End regular_folders.

(** X1: on a map that describes a disk, for a well-formed manifest and an
    image-set folder and a source folder that are different places and hold
    no folder, [syncImageSet] fails in one way only, with the TypeError of an
    empty [appearances] array: no removal and no copy fails. When no entry
    has an empty [appearances] array the run completes. *)
Theorem syncImageSet_fails_on_empty_appearances_only (fs : gmap string Fs.File)
    (imageSetPath imageSourcePath : string) (contents : ImageSetContents) :
  Fs.consistent fs = true →
  Forall (λ image, plain_image image = true) (images contents) →
  apart imageSetPath imageSourcePath →
  holds_no_folder fs imageSetPath = true →
  holds_no_folder fs imageSourcePath = true →
  (∀ e, syncImageSet fs imageSetPath imageSourcePath contents = Throw e →
        e = TypeError ∧ Exists (λ image, appearances image = Some []) (images contents)) ∧
  (Forall typed_appearances (images contents) →
   ∃ r, syncImageSet fs imageSetPath imageSourcePath contents = Normal r).
Proof.
  intros _ Hplain Hapart HS%holds_no_folder_spec HP%holds_no_folder_spec.
  split; [intros e; by apply syncImageSet_throw|by apply syncImageSet_total].
Qed.

Lemma syncImageSet_fails_on_empty_appearances_only_witness :
  Exists (λ image, appearances image = Some []) [entry (Some "icon.png") "1x"; no_appearance] ∧
  ∃ r, syncImageSet (on_disk sample_files) icon_set pool sample_contents = Normal r.
Proof.
  assert (apart icon_set pool) as Hapart by (unfold apart; vm_compute; discriminate).
  split.
  - refine (proj2 (proj1 (syncImageSet_fails_on_empty_appearances_only (on_disk sample_files)
             icon_set pool
             {| images := [entry (Some "icon.png") "1x"; no_appearance]; info := xcode |}
             eq_refl _ Hapart eq_refl eq_refl)
             TypeError _)).
    + repeat constructor.
    + vm_compute. reflexivity.
  - refine (proj2 (syncImageSet_fails_on_empty_appearances_only (on_disk sample_files)
             icon_set pool sample_contents eq_refl _ Hapart eq_refl eq_refl) _).
    + repeat constructor.
    + repeat constructor; done.
Defined.

(** X2: a run changes nothing of the manifest but filenames: the entries
    stay as many and in the same order, each with its idiom, scale and
    appearances, and [info] is kept. An entry whose filename changed carries a
    name that the run reports as updated. *)
Theorem syncImageSet_changes_filenames_only (fs : gmap string Fs.File)
    (imageSetPath imageSourcePath : string) (contents : ImageSetContents) (r : Run) :
  syncImageSet fs imageSetPath imageSourcePath contents = Normal r →
  info (run_contents r) = info contents ∧
  Forall2 (λ before after,
             idiom after = idiom before ∧ scale after = scale before ∧
             appearances after = appearances before ∧
             (filename after = filename before ∨
              ∃ f, filename after = Some f ∧ f ∈ updated (run_result r)))
          (images contents) (images (run_contents r)).
Proof.
  intros Hrun. destruct (syncImageSet_loop _ _ _ _ _ Hrun) as (st & imgs & Hloop & ->).
  split; [done|]. cbn [run_contents run_result images]. clear Hrun.
  revert Hloop. generalize {| files := fs; result := new_ImageSetSyncResult;
                              needsContentsUpdate := false |} as st0.
  generalize (images contents) as imgs0. intros imgs0 st0 Hloop.
  enough ((∀ f, f ∈ updated (result st0) → f ∈ updated (result st)) ∧
          Forall2 (λ before after,
             idiom after = idiom before ∧ scale after = scale before ∧
             appearances after = appearances before ∧
             (filename after = filename before ∨
              ∃ f, filename after = Some f ∧ f ∈ updated (result st))) imgs0 imgs) as [_ H]
    by done.
  revert imgs0 st0 st imgs Hloop. apply forEach_image_cases.
  - intros st0. split; [done|constructor].
  - intros st0 image st1 image1 rest st2 rest2 Hcase Hloop1 [Hmono Hrest].
    assert ((∀ f, f ∈ updated (result st0) → f ∈ updated (result st1)) ∧
            idiom image1 = idiom image ∧ scale image1 = scale image ∧
            appearances image1 = appearances image ∧
            (filename image1 = filename image ∨
             ∃ f, filename image1 = Some f ∧ f ∈ updated (result st1))) as (H0 & Hi & Hs & Ha & Hf).
    { destruct Hcase; cbn [result files updated push_updated push_skipped set_filename
                            idiom scale appearances filename].
      - split; [|tauto]. by destruct (filename image).
      - tauto.
      - split; [|tauto]. intros f Hf. apply elem_of_app. by left.
      - split; [intros f Hf; apply elem_of_app; by left|].
        repeat split. right. eexists. split; [done|]. apply elem_of_app. right.
        by apply list_elem_of_singleton. }
    split; [by auto|]. constructor; [|done].
    repeat split; try done. destruct Hf as [Hf|(f & Hf & Hin)]; [by left|right; eauto].
Qed.

Lemma syncImageSet_changes_filenames_only_witness :
  info (run_contents sample_run) = info sample_contents ∧
  Forall2 (λ before after,
             idiom after = idiom before ∧ scale after = scale before ∧
             appearances after = appearances before ∧
             (filename after = filename before ∨
              ∃ f, filename after = Some f ∧ f ∈ updated (run_result sample_run)))
          (images sample_contents) (images (run_contents sample_run)).
Proof.
  refine (syncImageSet_changes_filenames_only sample_files icon_set pool sample_contents
            sample_run _).
  vm_compute. reflexivity.
Defined.
Lemma forEach_image_reported (imageSetPath imageSourcePath : string)
    (imgs imgs' : list ImageSetImage) (st st' : SyncState) :
  forEach_image imageSetPath imageSourcePath imgs st = Normal (st', imgs') →
  (reported (result st') ≤ reported (result st) + length imgs)%nat ∧
  (unassigned (result st') = false →
   reported (result st') = (reported (result st) + length imgs)%nat ∧
   unassigned (result st) = false).
Proof.
  revert imgs st st' imgs'. apply forEach_image_cases.
  - intros st0. simpl. split; [lia|]. intros Hu. split; [lia|done].
  - intros st0 image st1 image1 rest st2 rest2 Hcase Hrest [Hle Heq].
    assert ((reported (result st1) ≤ reported (result st0) + 1)%nat ∧
            (unassigned (result st1) = false →
             reported (result st1) = (reported (result st0) + 1)%nat ∧
             unassigned (result st0) = false)) as [Hle1 Heq1].
    { destruct Hcase; cbn [result]; [destruct (filename image)|..];
        unfold reported, push_missing, push_skipped, push_updated, set_unassigned;
        cbn [updated missing skipped unassigned]; rewrite ?length_app; simpl;
        (split; [lia|]); intros Hu; (split; [lia|done]) || done. }
    simpl. split; [lia|]. intros Hu. destruct (Heq Hu) as [E1 Hu1].
    destruct (Heq1 Hu1) as [E0 Hu0]. split; [lia|done].
Qed.

(** X3: every entry of the manifest is accounted for once: the names listed
    as updated, missing and skipped are never more than the entries, and they
    are exactly as many when the run does not flag the image set as holding
    unassigned entries. *)
Theorem syncImageSet_accounts_for_every_entry (fs : gmap string Fs.File)
    (imageSetPath imageSourcePath : string) (contents : ImageSetContents) (r : Run) :
  syncImageSet fs imageSetPath imageSourcePath contents = Normal r →
  (reported (run_result r) ≤ length (images contents))%nat ∧
  (unassigned (run_result r) = false →
   reported (run_result r) = length (images contents)).
Proof.
  intros Hrun. destruct (syncImageSet_loop _ _ _ _ _ Hrun) as (st & imgs & Hloop & ->).
  destruct (forEach_image_reported _ _ _ _ _ _ Hloop) as [Hle Heq].
  cbn [run_result]. split; [exact Hle|]. intros Hu. by destruct (Heq Hu).
Qed.

Lemma syncImageSet_accounts_for_every_entry_witness :
  (reported (run_result sample_run) ≤ 3)%nat ∧
  (unassigned (run_result sample_run) = false → reported (run_result sample_run) = 3%nat).
Proof.
  refine (syncImageSet_accounts_for_every_entry sample_files icon_set pool sample_contents
            sample_run _).
  vm_compute. reflexivity.
Defined.

Lemma forEach_image_quiet (imageSetPath imageSourcePath : string)
    (imgs imgs' : list ImageSetImage) (st st' : SyncState) :
  forEach_image imageSetPath imageSourcePath imgs st = Normal (st', imgs') →
  (length (updated (result st)) ≤ length (updated (result st')))%nat ∧
  (length (updated (result st')) = length (updated (result st)) →
   files st' = files st ∧ needsContentsUpdate st' = needsContentsUpdate st ∧ imgs' = imgs).
Proof.
  revert imgs st st' imgs'. apply forEach_image_cases.
  - intros st0. split; [lia|done].
  - intros st0 image st1 image1 rest st2 rest2 Hcase Hrest [Hle Heq].
    assert ((length (updated (result st0)) ≤ length (updated (result st1)))%nat ∧
            (length (updated (result st1)) = length (updated (result st0)) →
             files st1 = files st0 ∧ needsContentsUpdate st1 = needsContentsUpdate st0 ∧
             image1 = image)) as [Hle1 Heq1].
    { destruct Hcase; cbn [result files needsContentsUpdate]; [destruct (filename image)|..];
        unfold push_missing, push_skipped, push_updated, set_unassigned;
        cbn [updated]; rewrite ?length_app; simpl; (split; [lia|]); intros; done || lia. }
    split; [lia|]. intros E.
    destruct Heq as (-> & -> & ->); [lia|]. destruct Heq1 as (-> & -> & ->); [lia|]. done.
Qed.

(** X4: a run that reports no updated file has written nothing: the files
    are the ones it found, the manifest is not written and its entries are
    unchanged. *)
Theorem syncImageSet_reports_every_write (fs : gmap string Fs.File)
    (imageSetPath imageSourcePath : string) (contents : ImageSetContents) (r : Run) :
  syncImageSet fs imageSetPath imageSourcePath contents = Normal r →
  updated (run_result r) = [] →
  run_files r = fs ∧ run_written r = None ∧ run_contents r = contents.
Proof.
  intros Hrun. destruct (syncImageSet_loop _ _ _ _ _ Hrun) as (st & imgs & Hloop & ->).
  destruct (forEach_image_quiet _ _ _ _ _ _ Hloop) as [_ Heq].
  cbn [run_result run_files run_written run_contents]. intros Hnone.
  destruct Heq as (-> & -> & ->); [by rewrite Hnone|].
  split; [done|]. split; [done|]. apply contents_eta.
Qed.

Lemma syncImageSet_reports_every_write_witness :
  run_files (run_of (syncImageSet same_time_files icon_set pool
                       {| images := [entry (Some "icon.png") "2x"]; info := xcode |}))
    = same_time_files.
Proof.
  refine (proj1 (syncImageSet_reports_every_write same_time_files icon_set pool
            {| images := [entry (Some "icon.png") "2x"]; info := xcode |} _ _ _));
    vm_compute; reflexivity.
Defined.
(** ** Runs over well-formed manifests *)

Lemma sync_case_frame (imageSetPath imageSourcePath : string) (st st' : SyncState)
    (image image' : ImageSetImage) (p : string) :
  plain_image image = true →
  sync_case imageSetPath imageSourcePath st image st' image' →
  (∀ x, plain_name x = true → p ≠ Path.join imageSetPath x) →
  files st' !! p = files st !! p.
Proof.
  intros Hplain Hcase Hp.
  destruct Hcase as [Hfind|new recorded Hfind Ht Hbase Hstat
                     |new recorded n Hfind Ht Hbase Hstat Hn|new n Hfind Hdiff Hn];
    cbn [files]; [done|done|..].
  - destruct (findImagePath_plain _ _ _ _ _ Hplain Hfind) as [_ Hb].
    rewrite lookup_insert_ne; [done|]. intros E. by apply (Hp _ Hb).
  - destruct (findImagePath_plain _ _ _ _ _ Hplain Hfind) as [_ Hb].
    rewrite lookup_insert_ne; [|intros E; by apply (Hp _ Hb)].
    destruct (Js.truthy_value (filename image)) as [recorded|] eqn:Ht; [|done].
    destruct (plain_image_recorded _ _ Hplain Ht) as [_ Hr].
    rewrite lookup_delete_ne; [done|]. intros E. by apply (Hp _ Hr).
Qed.

Lemma forEach_image_frame (imageSetPath imageSourcePath : string)
    (imgs imgs' : list ImageSetImage) (st st' : SyncState) (p : string) :
  Forall (λ image, plain_image image = true) imgs →
  forEach_image imageSetPath imageSourcePath imgs st = Normal (st', imgs') →
  (∀ x, plain_name x = true → p ≠ Path.join imageSetPath x) →
  files st' !! p = files st !! p.
Proof.
  intros Hplain Hloop Hp. revert imgs st st' imgs' Hloop Hplain.
  refine (forEach_image_cases imageSetPath imageSourcePath
            (λ st imgs st' imgs', Forall (λ image, plain_image image = true) imgs →
                                  files st' !! p = files st !! p) _ _).
  - done.
  - intros st0 image st1 image1 rest st2 rest2 Hcase Hrest IH Hplain.
    apply Forall_cons in Hplain as [H1 H2]. rewrite (IH H2).
    by eapply sync_case_frame.
Qed.

(** X5: on a map that describes a disk, a run over a well-formed manifest
    that completes has created, replaced and removed entries directly inside
    the image-set folder only: a path that is not the folder joined with a
    plain name holds after the run what it held before. *)
Theorem syncImageSet_stays_in_folder (fs : gmap string Fs.File)
    (imageSetPath imageSourcePath : string) (contents : ImageSetContents) (r : Run)
    (p : string) :
  Fs.consistent fs = true →
  Forall (λ image, plain_image image = true) (images contents) →
  syncImageSet fs imageSetPath imageSourcePath contents = Normal r →
  (∀ x, plain_name x = true → p ≠ Path.join imageSetPath x) →
  run_files r !! p = fs !! p.
Proof.
  intros _ Hplain Hrun Hp.
  destruct (syncImageSet_loop _ _ _ _ _ Hrun) as (st & imgs & Hloop & ->).
  apply (forEach_image_frame _ _ _ _ _ _ _ Hplain Hloop Hp).
Qed.

Lemma syncImageSet_stays_in_folder_witness :
  run_files disk_run !! "pool/icon.png" = Some (file "new" 2000) ∧
  run_files disk_run !! "Assets.xcassets/Icon.imageset/icon.png" = Some (file "new" 2000) ∧
  on_disk sample_files !! "Assets.xcassets/Icon.imageset/icon.png" = Some (file "old" 1000).
Proof.
  split; [|split; reflexivity].
  rewrite (syncImageSet_stays_in_folder (on_disk sample_files) icon_set pool sample_contents
             disk_run "pool/icon.png").
  - reflexivity.
  - reflexivity.
  - repeat constructor.
  - vm_compute. reflexivity.
  - intros x Hx. rewrite (join_plain icon_set x Hx). vm_compute. discriminate.
Defined.

(** X6: on a map that describes a disk, a run over a well-formed manifest
    that completes leaves the pool as it is: no file of the source directory
    is created, replaced or removed, wherever that directory lies. *)
Theorem syncImageSet_keeps_the_pool (fs : gmap string Fs.File)
    (imageSetPath imageSourcePath : string) (contents : ImageSetContents) (r : Run)
    (x : string) :
  Fs.consistent fs = true →
  Forall (λ image, plain_image image = true) (images contents) →
  syncImageSet fs imageSetPath imageSourcePath contents = Normal r →
  plain_name x = true →
  run_files r !! Path.join imageSourcePath x = fs !! Path.join imageSourcePath x.
Proof.
  intros _ Hplain Hrun Hx.
  destruct (syncImageSet_loop _ _ _ _ _ Hrun) as (st & imgs & Hloop & ->).
  destruct (forEach_image_first_run _ _ _ _ _ _ Hplain Hloop) as [[Hpool _] _].
  by apply Hpool.
Qed.

Lemma syncImageSet_keeps_the_pool_witness :
  run_files renamed_run !! Path.join pool "icon.png" = Some (file "new" 2000) ∧
  run_files renamed_run !! "Assets.xcassets/Icon.imageset/icon.png" = Some (file "new" 2000) ∧
  run_files renamed_run !! "Assets.xcassets/Icon.imageset/old.png" = None ∧
  on_disk renamed_files !! "Assets.xcassets/Icon.imageset/old.png" = Some (file "old" 1000).
Proof.
  split; [|repeat split].
  rewrite (syncImageSet_keeps_the_pool (on_disk renamed_files) icon_set pool
             {| images := [entry (Some "old.png") "1x"]; info := xcode |} renamed_run
             "icon.png").
  - reflexivity.
  - reflexivity.
  - repeat constructor.
  - vm_compute. reflexivity.
  - reflexivity.
Defined.
Lemma sync_case_skipped (imageSetPath imageSourcePath : string) (st st' : SyncState)
    (image image' : ImageSetImage) (f : string) :
  plain_image image = true →
  sync_case imageSetPath imageSourcePath st image st' image' →
  f ∈ skipped (result st') →
  f ∈ skipped (result st) ∨
  (plain_name f = true ∧ in_sync imageSetPath imageSourcePath (files st') f).
Proof.
  intros Hplain Hcase.
  destruct Hcase as [Hfind|new recorded Hfind Ht Hbase Hstat
                     |new recorded n Hfind Ht Hbase Hstat Hn|new n Hfind Hdiff Hn];
    cbn [files result push_skipped push_updated skipped]; [destruct (filename image)|..];
    try by left.
  intros [Hin|Hin]%elem_of_app; [by left|]. apply list_elem_of_singleton in Hin as ->.
  right. destruct (plain_image_recorded _ _ Hplain Ht) as [_ Hr]. split; [done|].
  destruct (findImagePath_plain _ _ _ _ _ Hplain Hfind) as [Hnew _].
  rewrite (basename_join_plain _ _ Hr) in Hbase. unfold in_sync.
  rewrite Hbase at 2. by rewrite <- Hnew.
Qed.

Lemma forEach_image_skipped (imageSetPath imageSourcePath : string)
    (imgs imgs' : list ImageSetImage) (st st' : SyncState) :
  forEach_image imageSetPath imageSourcePath imgs st = Normal (st', imgs') →
  Forall (λ image, plain_image image = true) imgs →
  ∀ f, f ∈ skipped (result st') →
       f ∈ skipped (result st) ∨
       (plain_name f = true ∧ in_sync imageSetPath imageSourcePath (files st') f).
Proof.
  revert imgs st st' imgs'.
  refine (forEach_image_cases imageSetPath imageSourcePath
            (λ st imgs st' imgs',
               Forall (λ image, plain_image image = true) imgs →
               ∀ f, f ∈ skipped (result st') →
                    f ∈ skipped (result st) ∨
                    (plain_name f = true ∧
                     in_sync imageSetPath imageSourcePath (files st') f)) _ _);
    [by left|].
  intros st0 image st1 image1 rest st2 rest2 Hcase Hrest IH Hplain f Hin.
  apply Forall_cons in Hplain as [H1 H2].
  destruct (IH H2 f Hin) as [Hin1|?]; [|by right].
  destruct (sync_case_skipped _ _ _ _ _ _ _ H1 Hcase Hin1) as [?|[Hf Hsync]]; [by left|].
  right. split; [done|].
  destruct (forEach_image_first_run _ _ _ _ _ _ H2 Hrest) as [[_ Hkeep] _]. by apply Hkeep.
Qed.

(** X7: on a map that describes a disk, after a run that completes over a
    well-formed manifest none of whose entries records the name of the
    manifest file, nothing is left to do: each entry either names a file of
    the image-set folder that passes for the file of the same name in the
    pool (same size, same rounded modification time), or is one the locator
    finds nothing for; and every name the run reports as updated or skipped
    is such a file in sync. *)
Theorem syncImageSet_leaves_entries_at_rest (fs : gmap string Fs.File)
    (imageSetPath imageSourcePath : string) (contents : ImageSetContents) (r : Run) :
  Fs.consistent fs = true →
  Forall sound_image (images contents) →
  syncImageSet fs imageSetPath imageSourcePath contents = Normal r →
  Forall (at_rest imageSetPath imageSourcePath (run_files r)) (images (run_contents r)) ∧
  ∀ f, f ∈ updated (run_result r) ∨ f ∈ skipped (run_result r) →
       in_sync imageSetPath imageSourcePath (run_files r) f.
Proof.
  intros _ Hsound Hrun.
  assert (Forall (λ image, plain_image image = true) (images contents)) as Hplain.
  { eapply Forall_impl; [exact Hsound|]. by intros image [? _]. }
  destruct (syncImageSet_loop _ _ _ _ _ Hrun) as (st & imgs & Hloop & ->).
  destruct (forEach_image_first_run _ _ _ _ _ _ Hplain Hloop) as (_ & Hrest & Hupdated).
  split; [done|]. cbn [run_result run_files]. intros f [Hin|Hin].
  - destruct (Hupdated f Hin) as [Hnil|(image' & _ & _ & _ & Hsync)]; [|done].
    by apply elem_of_nil in Hnil.
  - destruct (forEach_image_skipped _ _ _ _ _ _ Hloop Hplain f Hin) as [Hnil|[_ Hsync]]; [|done].
    by apply elem_of_nil in Hnil.
Qed.

Lemma syncImageSet_leaves_entries_at_rest_witness :
  in_sync icon_set pool (run_files disk_run) "icon@2x.png" ∧
  ¬ in_sync icon_set pool (on_disk sample_files) "icon@2x.png".
Proof.
  split; [|vm_compute; discriminate].
  refine (proj2 (syncImageSet_leaves_entries_at_rest (on_disk sample_files) icon_set pool
                   sample_contents disk_run _ _ _) "icon@2x.png" _).
  - reflexivity.
  - repeat constructor; discriminate.
  - vm_compute. reflexivity.
  - left. vm_compute. apply list_elem_of_further, list_elem_of_here.
Defined.


(** ** The locator *)

Lemma findImagePath_origin (fs : gmap string Fs.File)
    (imageSetPath imageSourcePath : string) (image : ImageSetImage) (new : string) :
  findImagePath fs imageSetPath imageSourcePath image = Normal (Some new) →
  ∃ name, new = Path.join imageSourcePath name ∧
    ((filename image = Some name ∧ name ≠ "") ∨
     ∃ suffix, (appearance_suffix image = Normal suffix ∨ suffix = "-light") ∧
               name = derived_name imageSetPath +:+ suffix +:+ scale_suffix image +:+ ".png").
Proof.
  intros Hfind.
  assert (findDerivedPath fs imageSetPath imageSourcePath image = Normal (Some new) →
          ∃ name, new = Path.join imageSourcePath name ∧
            ((filename image = Some name ∧ name ≠ "") ∨
             ∃ suffix, (appearance_suffix image = Normal suffix ∨ suffix = "-light") ∧
               name = derived_name imageSetPath +:+ suffix +:+ scale_suffix image +:+ ".png"))
    as Hderived.
  { unfold findDerivedPath.
    destruct (appearance_suffix image) as [suffix|]; rewrite ?bind_Normal, ?bind_Throw; [|done].
    cbv zeta. destruct (Fs.existsSync fs _).
    - intros [= <-]. eexists. split; [done|]. right. exists suffix. by split; [left|].
    - destruct (Fs.existsSync fs _); [|done].
      intros [= <-]. eexists. split; [done|]. right. exists "-light". by split; [right|]. }
  unfold findImagePath in Hfind.
  destruct (Js.truthy_value (filename image)) as [recorded|] eqn:Ht; [|by apply Hderived].
  destruct (Fs.existsSync fs _); [|by apply Hderived].
  injection Hfind as <-. apply truthy_value_Some in Ht as [Hf Hne].
  exists recorded. split; [done|]. by left.
Qed.

(** X9: whatever the locator returns is a path at which something exists, a
    regular file or a folder, and that path is the source directory joined
    with the recorded filename, with the derived name for the entry's
    appearance, or with the derived name of the light appearance: it looks
    nowhere else. *)
Theorem findImagePath_returns_pool_file (fs : gmap string Fs.File)
    (imageSetPath imageSourcePath : string) (image : ImageSetImage) (new : string) :
  findImagePath fs imageSetPath imageSourcePath image = Normal (Some new) →
  is_Some (fs !! new) ∧
  ∃ name, new = Path.join imageSourcePath name ∧
    ((filename image = Some name ∧ name ≠ "") ∨
     ∃ suffix, (appearance_suffix image = Normal suffix ∨ suffix = "-light") ∧
               name = derived_name imageSetPath +:+ suffix +:+ scale_suffix image +:+ ".png").
Proof.
  intros Hfind. split; [by destruct (findImagePath_exists _ _ _ _ _ Hfind)|].
  by apply (findImagePath_origin fs).
Qed.

Lemma findImagePath_returns_pool_file_witness :
  is_Some (light_files !! "pool/icon-light@2x.png") ∧
  ∃ name, "pool/icon-light@2x.png" = Path.join pool name ∧
    ((filename (entry None "2x") = Some name ∧ name ≠ "") ∨
     ∃ suffix, (appearance_suffix (entry None "2x") = Normal suffix ∨ suffix = "-light") ∧
               name = derived_name icon_set +:+ suffix +:+ scale_suffix (entry None "2x")
                      +:+ ".png").
Proof.
  refine (findImagePath_returns_pool_file light_files icon_set pool (entry None "2x")
            "pool/icon-light@2x.png" _).
  vm_compute. reflexivity.
Defined.

Lemma map_chars_Forall (f : ascii → ascii) (Q : ascii → Prop) (s : string) :
  Forall (λ c, Q (f c)) (list_ascii_of_string s) →
  Forall Q (list_ascii_of_string (Js.map_chars f s)).
Proof.
  induction s as [|c s IH]; simpl; [constructor|].
  intros [H1 H2]%Forall_cons. constructor; [done|by apply IH].
Qed.

Lemma no_slash_Forall (s : string) :
  no_slash s = true → Forall (λ c, c ≠ Path.slash) (list_ascii_of_string s).
Proof.
  induction s as [|c s IH]; simpl; [constructor|].
  intros [H1 H2]%andb_true_iff. constructor; [|by apply IH].
  intros ->. by rewrite Ascii.eqb_refl in H1.
Qed.

Lemma lower_hyphen_char (c : ascii) :
  c ≠ Path.slash →
  let d := Js.lower_char (Js.dot_to_hyphen c) in
  d ≠ "."%char ∧ d ≠ Path.slash ∧ is_capital d = false.
Proof.
  destruct c as [[] [] [] [] [] [] [] []]; intros H; vm_compute;
    (repeat split; congruence) || (exfalso; by apply H).
Qed.

(** X10: the name the locator derives from the image-set folder holds no
    dot, no path separator and no capital letter of the ASCII range, whatever
    the folder is called. *)
Theorem derived_name_is_lowercase_without_dots (imageSetPath : string) :
  Forall (λ c, c ≠ "."%char ∧ c ≠ "/"%char ∧ is_capital c = false)
         (list_ascii_of_string (derived_name imageSetPath)).
Proof.
  unfold derived_name, Js.toLowerCase, Js.replace_dots.
  do 2 apply map_chars_Forall.
  assert (no_slash (Path.basename_ext imageSetPath (Path.extname imageSetPath)) = true) as H.
  { unfold Path.basename_ext.
    destruct (String.eqb (Path.extname imageSetPath) ""); [apply basename_no_slash|].
    destruct (String.eqb (Path.extname imageSetPath) imageSetPath); [done|].
    destruct (Path.strip_suffix _ _) as [stem|] eqn:E; [|apply basename_no_slash].
    destruct (String.eqb stem ""); [apply basename_no_slash|].
    eapply strip_suffix_no_slash; [apply basename_no_slash|done]. }
  eapply Forall_impl; [by apply no_slash_Forall|].
  intros c Hc. by apply lower_hyphen_char.
Qed.
(** ** Paths of nested folders *)







(** ** One image set in the world *)

Lemma syncImageSet_io_inv (w w' : World) (imageSetPath imageSourcePath : string)
    (r : ImageSetSyncResult) :
  syncImageSet_io w imageSetPath imageSourcePath = Normal (w', r) →
  ∃ contents run,
    manifests w !! Path.join imageSetPath "Contents.json" = Some contents ∧
    syncImageSet (image_files w) imageSetPath imageSourcePath contents = Normal run ∧
    r = run_result run ∧
    image_files w' = run_files run ∧
    listings w' = listings w ∧
    manifests w' !! Path.join imageSetPath "Contents.json" = Some (run_contents run) ∧
    ∀ path, path ≠ Path.join imageSetPath "Contents.json" →
            manifests w' !! path = manifests w !! path.
Proof.
  unfold syncImageSet_io.
  destruct (manifests w !! Path.join imageSetPath "Contents.json") as [contents|] eqn:Hm;
    [|done].
  destruct (syncImageSet (image_files w) imageSetPath imageSourcePath contents)
    as [run|] eqn:Hrun; rewrite ?bind_Normal, ?bind_Throw; [|done].
  intros [= <- <-]. exists contents, run. repeat split; try done; cbn [manifests].
  - destruct (run_written run) eqn:Hw; [by rewrite lookup_insert_eq|].
    destruct (syncImageSet_loop _ _ _ _ _ Hrun) as (st & imgs & Hloop & ->).
    cbn [run_written run_contents] in *.
    destruct (needsContentsUpdate st) eqn:Hflag; [done|].
    destruct (forEach_image_flag _ _ _ _ _ _ Hloop) as [Hsame _].
    destruct (Hsame Hflag) as [-> _]. by rewrite contents_eta.
  - intros path Hpath. destruct (run_written run); [|done].
    by rewrite lookup_insert_ne.
Qed.

Lemma png_is_not_the_manifest (stem : string) : stem +:+ ".png" ≠ "Contents.json".
Proof.
  intros E. pose proof (strip_suffix_app stem ".png") as H. rewrite E in H. done.
Qed.

Lemma sync_case_sound (imageSetPath imageSourcePath : string) (st st' : SyncState)
    (image image' : ImageSetImage) :
  sound_image image →
  sync_case imageSetPath imageSourcePath st image st' image' →
  sound_image image'.
Proof.
  intros [Hplain Hname] Hcase.
  destruct (sync_case_settles _ _ _ _ _ _ Hplain Hcase) as (_ & [Hplain' _] & _).
  split; [done|].
  destruct Hcase as [Hfind|new recorded Hfind Ht Hbase Hstat
                     |new recorded n Hfind Ht Hbase Hstat Hn|new n Hfind Hdiff Hn]; try done.
  cbn [set_filename filename]. intros [= E].
  destruct (findImagePath_plain _ _ _ _ _ Hplain Hfind) as [Hnew Hb].
  destruct (findImagePath_origin _ _ _ _ _ Hfind) as (name & Hjoin & Horigin).
  destruct Horigin as [[Hf Hne]|(suffix & Hsuffix & ->)].
  - destruct (plain_image_recorded image name Hplain) as [_ Hpn];
      [by apply truthy_value_Some|].
    rewrite Hjoin, (basename_join_plain _ _ Hpn) in E. congruence.
  - rewrite Hjoin in E.
    assert (plain_name (derived_name imageSetPath +:+ suffix +:+ scale_suffix image +:+ ".png")
            = true) as Hpn.
    { destruct Hsuffix as [Hs| ->].
      - by destruct (plain_image_candidates imageSetPath _ _ Hplain Hs).
      - rewrite <- !app_assoc. apply plain_name_png. rewrite !no_slash_app.
        rewrite derived_name_no_slash. cbn [andb no_slash Ascii.eqb].
        unfold plain_image, plain_suffixes in Hplain.
        apply andb_true_iff in Hplain as [_ [Hscale _]%andb_true_iff].
        unfold scale_suffix. destruct (String.eqb (scale image) "1x"); [done|].
        by rewrite no_slash_app, Hscale. }
    rewrite (basename_join_plain _ _ Hpn) in E. revert E.
    rewrite <- !app_assoc. apply png_is_not_the_manifest.
Qed.

Lemma forEach_image_sound (imageSetPath imageSourcePath : string)
    (imgs imgs' : list ImageSetImage) (st st' : SyncState) :
  forEach_image imageSetPath imageSourcePath imgs st = Normal (st', imgs') →
  Forall sound_image imgs → Forall sound_image imgs'.
Proof.
  revert imgs st st' imgs'.
  refine (forEach_image_cases imageSetPath imageSourcePath
            (λ st imgs st' imgs', Forall sound_image imgs → Forall sound_image imgs') _ _).
  - done.
  - intros st0 image st1 image1 rest st2 rest2 Hcase Hrest IH [H1 H2]%Forall_cons.
    constructor; [by eapply sync_case_sound|by apply IH].
Qed.
Lemma sound_plain (imgs : list ImageSetImage) :
  Forall sound_image imgs → Forall (λ image, plain_image image = true) imgs.
Proof. intros H. eapply Forall_impl; [exact H|]. by intros image [? _]. Qed.

Lemma manifest_apart (a b : string) :
  apart a b → Path.join a "Contents.json" ≠ Path.join b "Contents.json".
Proof.
  intros Hapart E. apply Hapart.
  by destruct (join_plain_inj a b "Contents.json" "Contents.json" eq_refl eq_refl E).
Qed.

Lemma syncImageSet_io_sound (w w' : World) (imageSetPath imageSourcePath : string)
    (r : ImageSetSyncResult) :
  sound w → syncImageSet_io w imageSetPath imageSourcePath = Normal (w', r) → sound w'.
Proof.
  intros [Hm Hl] Hio.
  destruct (syncImageSet_io_inv _ _ _ _ _ Hio)
    as (contents & run & Hc & Hrun & _ & _ & Hlist & Hhere & Hother).
  split; [|by rewrite Hlist].
  intros path c Hpath.
  destruct (decide (path = Path.join imageSetPath "Contents.json")) as [->|Hne].
  - rewrite Hhere in Hpath. injection Hpath as <-.
    destruct (syncImageSet_loop _ _ _ _ _ Hrun) as (st & imgs & Hloop & ->).
    cbn [run_contents images]. eapply forEach_image_sound; [done|by eapply Hm].
  - rewrite (Hother _ Hne) in Hpath. by eapply Hm.
Qed.


Lemma syncImageSet_io_frame (w w' : World) (imageSetPath imageSourcePath other : string)
    (r : ImageSetSyncResult) :
  sound w → syncImageSet_io w imageSetPath imageSourcePath = Normal (w', r) →
  apart other imageSetPath →
  settled w other imageSourcePath → settled w' other imageSourcePath.
Proof.
  intros [Hm _] Hio Hapart (c0 & Hc0 & Hrest).
  destruct (syncImageSet_io_inv _ _ _ _ _ Hio)
    as (contents & run & Hc & Hrun & _ & Hfiles & _ & _ & Hother).
  exists c0. split; [by rewrite (Hother _ (manifest_apart _ _ Hapart))|].
  rewrite Hfiles.
  destruct (syncImageSet_loop _ _ _ _ _ Hrun) as (st & imgs & Hloop & ->).
  cbn [run_files]. pose proof (sound_plain _ (Hm _ _ Hc)) as Hplain.
  destruct (forEach_image_first_run _ _ _ _ _ _ Hplain Hloop) as ([Hpool _] & _ & _).
  cbn [files] in Hpool.
  eapply Forall_impl; [exact Hrest|]. intros image Himage.
  apply (at_rest_settles other imageSourcePath (image_files w)); [done|].
  split; [done|]. intros name Hname.
  apply in_sync_other; [|by apply Hpool].
  apply (forEach_image_frame _ _ _ _ _ _ _ Hplain Hloop).
  intros x Hx E. apply Hapart.
  by destruct (join_plain_inj _ _ _ _ Hname Hx E).
Qed.

(** ** Image sets one after the other *)

Lemma runs_cons (imageSourcePath imageSetPath : string) (rest : list string) (w w' : World) :
  runs imageSourcePath (imageSetPath :: rest) w = Normal w' →
  ∃ w1 r, syncImageSet_io w imageSetPath imageSourcePath = Normal (w1, r) ∧
          runs imageSourcePath rest w1 = Normal w'.
Proof.
  simpl. destruct (syncImageSet_io w imageSetPath imageSourcePath) as [[w1 r]|];
    rewrite ?bind_Normal, ?bind_Throw; [eauto|done].
Qed.

Lemma runs_listings (imageSourcePath : string) (imageSets : list string) (w w' : World) :
  runs imageSourcePath imageSets w = Normal w' → listings w' = listings w.
Proof.
  revert w. induction imageSets as [|imageSetPath rest IH]; intros w.
  - by intros [= <-].
  - intros (w1 & r & Hio & Hrest)%runs_cons. rewrite (IH _ Hrest).
    by destruct (syncImageSet_io_inv _ _ _ _ _ Hio) as (_ & _ & _ & _ & _ & _ & ? & _).
Qed.

Lemma runs_app (imageSourcePath : string) (first second : list string) (w : World) :
  runs imageSourcePath (first ++ second) w =
  w1 ← runs imageSourcePath first w; runs imageSourcePath second w1.
Proof.
  revert w. induction first as [|imageSetPath rest IH]; intros w; simpl.
  - done.
  - destruct (syncImageSet_io w imageSetPath imageSourcePath) as [[w1 r]|];
      rewrite ?bind_Normal, ?bind_Throw; [apply IH|done].
Qed.

Lemma runs_frame (imageSourcePath : string) (imageSets : list string) (w w' : World) :
  sound w → runs imageSourcePath imageSets w = Normal w' →
  sound w' ∧
  ∀ other, (∀ imageSetPath, imageSetPath ∈ imageSets → apart other imageSetPath) →
           settled w other imageSourcePath → settled w' other imageSourcePath.
Proof.
  revert w. induction imageSets as [|imageSetPath rest IH]; intros w Hsound.
  - intros [= <-]. split; [done|]. by intros.
  - intros (w1 & r & Hio & Hrest)%runs_cons.
    destruct (IH w1 (syncImageSet_io_sound _ _ _ _ _ Hsound Hio) Hrest) as [Hsound' Hframe].
    split; [done|]. intros other Hapart Hsettled. apply Hframe.
    + intros S HS. apply Hapart. by apply list_elem_of_further.
    + apply (syncImageSet_io_frame w w1 imageSetPath imageSourcePath other r Hsound Hio);
        [|done]. apply Hapart, list_elem_of_here.
Qed.


(** ** The asset catalog *)


Lemma set_key_keys (key : string) (value : ImageSetSyncResult) (o : AssetCatalogSyncResult) :
  (key ∈ (fst <$> o) ∧ (fst <$> set_key key value o) = (fst <$> o)) ∨
  ((key ∉ (fst <$> o)) ∧ (fst <$> set_key key value o) = (fst <$> o) ++ [key]).
Proof.
  induction o as [|[k0 v0] o IH]; cbn [set_key].
  - right. split; [apply not_elem_of_nil|done].
  - destruct (String.eqb k0 key) eqn:E.
    + apply String.eqb_eq in E as ->. left. split; [apply list_elem_of_here|done].
    + apply String.eqb_neq in E. rewrite !fmap_cons. cbn [fst].
      destruct IH as [[Hin Hk]|[Hnin Hk]]; rewrite Hk.
      * left. split; [by apply list_elem_of_further|done].
      * right. split; [|done]. intros [->|H]%elem_of_cons; done.
Qed.

Lemma forEach_imageSet_cons (assetCatalogPath imageSourcePath imageSet : string)
    (rest : list string) (w w' : World) (result result' : AssetCatalogSyncResult) :
  forEach_imageSet assetCatalogPath imageSourcePath (imageSet :: rest) w result
    = Normal (w', result') →
  ∃ w1 r,
    syncImageSet_io w (Path.join assetCatalogPath imageSet) imageSourcePath = Normal (w1, r) ∧
    forEach_imageSet assetCatalogPath imageSourcePath rest w1 (set_key imageSet r result)
      = Normal (w', result').
Proof.
  simpl. destruct (syncImageSet_io w _ imageSourcePath) as [[w1 r]|];
    rewrite ?bind_Normal, ?bind_Throw; [eauto|done].
Qed.

Lemma forEach_imageSet_runs (assetCatalogPath imageSourcePath : string)
    (imageSets : list string) (w w' : World) (result result' : AssetCatalogSyncResult) :
  forEach_imageSet assetCatalogPath imageSourcePath imageSets w result = Normal (w', result') →
  runs imageSourcePath (Path.join assetCatalogPath <$> imageSets) w = Normal w'.
Proof.
  revert w result. induction imageSets as [|imageSet rest IH]; intros w result.
  - by intros [= <- <-].
  - intros (w1 & r & Hio & Hrest)%forEach_imageSet_cons.
    rewrite fmap_cons. simpl. rewrite Hio, bind_Normal. by eapply IH.
Qed.

Lemma forEach_imageSet_keys (assetCatalogPath imageSourcePath : string)
    (imageSets : list string) (w w' : World) (result result' : AssetCatalogSyncResult) :
  forEach_imageSet assetCatalogPath imageSourcePath imageSets w result = Normal (w', result') →
  (NoDup (fst <$> result) → NoDup (fst <$> result')) ∧
  (∀ k, k ∈ (fst <$> result') ↔ k ∈ (fst <$> result) ∨ k ∈ imageSets) ∧
  (NoDup imageSets → (∀ k, k ∈ imageSets → k ∉ (fst <$> result)) →
   (fst <$> result') = (fst <$> result) ++ imageSets).
Proof.
  revert w result. induction imageSets as [|imageSet rest IH]; intros w result.
  - intros [= <- <-]. split; [done|]. split.
    + intros k. split; [by left|]. intros [?|H]; [done|by apply elem_of_nil in H].
    + intros _ _. by rewrite (right_id_L [] (++)).
  - intros (w1 & r & Hio & Hrest)%forEach_imageSet_cons.
    destruct (IH _ _ Hrest) as (Hnodup & Hkeys & Horder). clear IH.
    pose proof (set_key_keys imageSet r result) as Hset.
    split; [|split].
    + intros Hnd. apply Hnodup.
      destruct Hset as [[Hin ->]|[Hnin ->]]; [done|].
      apply NoDup_app. split; [done|]. split; [|apply NoDup_singleton].
      intros x Hx Hx'. apply list_elem_of_singleton in Hx' as ->. done.
    + intros k. rewrite Hkeys, elem_of_cons.
      destruct Hset as [[Hin ->]|[Hnin ->]].
      * split; [intros [?|?]; auto|]. intros [?|[->|?]]; auto.
      * rewrite elem_of_app, list_elem_of_singleton. tauto.
    + intros [Hfresh Hnd]%NoDup_cons Hnew.
      assert (imageSet ∉ (fst <$> result)) as Hnin by apply Hnew, list_elem_of_here.
      assert ((fst <$> set_key imageSet r result) = (fst <$> result) ++ [imageSet]) as Hk.
      { by destruct Hset as [[Hin _]|[_ ->]]. }
      rewrite Horder, Hk; [by rewrite <- (assoc_L (++))|done|].
      intros k Hk' Hin. rewrite Hk in Hin. apply elem_of_app in Hin as [Hin|Hin].
      * apply (Hnew k); [by apply list_elem_of_further|done].
      * apply list_elem_of_singleton in Hin as ->. done.
Qed.
Lemma elem_of_filter_list {A : Type} (f : A → bool) (l : list A) (x : A) :
  x ∈ List.filter f l ↔ x ∈ l ∧ f x = true.
Proof. rewrite !list_elem_of_In. apply filter_In. Qed.

Lemma NoDup_filter_list {A : Type} (f : A → bool) (l : list A) :
  NoDup l → NoDup (List.filter f l).
Proof.
  induction 1 as [|x l Hx Hl IH]; simpl; [constructor|].
  destruct (f x); [|done]. constructor; [|done].
  rewrite elem_of_filter_list. tauto.
Qed.


(** X11: the result of a catalog has one key for each directory entry with
    the extension [.imageset] or [.appiconset] and no other key, each key
    once, in the order of the listing. *)
Theorem syncAssetCatalog_keys (w w' : World) (assetCatalogPath imageSourcePath : string)
    (names : list string) (result : AssetCatalogSyncResult) :
  listings w !! assetCatalogPath = Some names →
  syncAssetCatalog w assetCatalogPath imageSourcePath = Normal (w', result) →
  NoDup (fst <$> result) ∧
  (∀ k, k ∈ (fst <$> result) ↔ k ∈ names ∧ is_image_set k = true) ∧
  (NoDup names → (fst <$> result) = List.filter is_image_set names).
Proof.
  intros Hnames. unfold syncAssetCatalog. rewrite Hnames. intros Hloop.
  destruct (forEach_imageSet_keys _ _ _ _ _ _ _ Hloop) as (Hnodup & Hkeys & Horder).
  split; [apply Hnodup; constructor|]. split.
  - intros k. rewrite Hkeys, elem_of_filter_list. split; [|tauto].
    intros [H|H]; [by apply elem_of_nil in H|done].
  - intros Hnd. rewrite Horder; [done|by apply NoDup_filter_list|].
    intros k _. apply not_elem_of_nil.
Qed.

Lemma syncAssetCatalog_keys_witness :
  fst <$> snd (match syncAssetCatalog demo_world "assets/Demo.xcassets" "pool" with
               | Normal out => out
               | Throw _ => (demo_world, [])
               end)
  = ["Icon.imageset"; "Logo.appiconset"].
Proof.
  refine (proj2 (proj2 (syncAssetCatalog_keys demo_world _ "assets/Demo.xcassets" "pool"
                          ["Contents.json"; "Icon.imageset"; "Logo.appiconset"] _ _ _)) _).
  - reflexivity.
  - vm_compute. reflexivity.
  - repeat constructor; vm_compute; intros H; 
      repeat (apply elem_of_cons in H as [H|H]; [discriminate|]); by apply elem_of_nil in H.
Defined.
Lemma forEach_image_appearances (imageSetPath imageSourcePath : string)
    (imgs imgs' : list ImageSetImage) (st st' : SyncState) :
  forEach_image imageSetPath imageSourcePath imgs st = Normal (st', imgs') →
  Forall typed_appearances imgs → Forall typed_appearances imgs'.
Proof.
  revert imgs st st' imgs'.
  refine (forEach_image_cases imageSetPath imageSourcePath
            (λ st imgs st' imgs',
               Forall typed_appearances imgs → Forall typed_appearances imgs') _ _).
  - done.
  - intros st0 image st1 image1 rest st2 rest2 Hcase Hrest IH [H1 H2]%Forall_cons.
    constructor; [|by apply IH]. by destruct Hcase.
Qed.

Lemma syncImageSet_io_typed (w w' : World) (imageSetPath imageSourcePath : string)
    (r : ImageSetSyncResult) :
  typed w → syncImageSet_io w imageSetPath imageSourcePath = Normal (w', r) →
  typed w' ∧ ∀ path, is_Some (manifests w' !! path) ↔ is_Some (manifests w !! path).
Proof.
  intros Htyped Hio.
  destruct (syncImageSet_io_inv _ _ _ _ _ Hio)
    as (contents & run & Hc & Hrun & _ & _ & _ & Hhere & Hother).
  split.
  - intros path c Hpath.
    destruct (decide (path = Path.join imageSetPath "Contents.json")) as [->|Hne].
    + rewrite Hhere in Hpath. injection Hpath as <-.
      destruct (syncImageSet_loop _ _ _ _ _ Hrun) as (st & imgs & Hloop & ->).
      cbn [run_contents images]. eapply forEach_image_appearances; [done|by eapply Htyped].
    + rewrite (Hother _ Hne) in Hpath. by eapply Htyped.
  - intros path.
    destruct (decide (path = Path.join imageSetPath "Contents.json")) as [->|Hne].
    + by rewrite Hhere, Hc.
    + by rewrite (Hother _ Hne).
Qed.

Lemma syncImageSet_io_folders (w w' : World) (imageSetPath imageSourcePath : string)
    (r : ImageSetSyncResult) (dir : string) :
  syncImageSet_io w imageSetPath imageSourcePath = Normal (w', r) →
  regular (image_files w) dir → regular (image_files w') dir.
Proof.
  intros Hio Hregular x Hx.
  destruct (syncImageSet_io_inv _ _ _ _ _ Hio) as (contents & run & _ & Hrun & _ & Hfiles & _).
  destruct (syncImageSet_loop _ _ _ _ _ Hrun) as (st & imgs & Hloop & ->).
  rewrite Hfiles. cbn [run_files].
  destruct (Fs.is_folder (files st) (Path.join dir x)) eqn:E; [|done].
  apply (forEach_image_folders _ _ _ _ _ _ _ Hloop) in E. cbn [files] in E.
  by rewrite (Hregular x Hx) in E.
Qed.

Lemma syncImageSet_io_flat (w w' : World) (imageSetPath imageSourcePath : string)
    (r : ImageSetSyncResult) (imageSets : list string) :
  syncImageSet_io w imageSetPath imageSourcePath = Normal (w', r) →
  flat w imageSourcePath imageSets → flat w' imageSourcePath imageSets.
Proof.
  intros Hio [HP HS]. split; [by eapply syncImageSet_io_folders|].
  intros S Hin. destruct (HS S Hin) as [Hapart Hregular].
  split; [done|by eapply syncImageSet_io_folders].
Qed.

Lemma flat_cons (w : World) (imageSourcePath imageSetPath : string) (rest : list string) :
  flat w imageSourcePath (imageSetPath :: rest) →
  apart imageSetPath imageSourcePath ∧ regular (image_files w) imageSetPath ∧
  regular (image_files w) imageSourcePath ∧ flat w imageSourcePath rest.
Proof.
  intros [HP HS]. destruct (HS imageSetPath (list_elem_of_here _ _)) as [Hapart Hregular].
  split; [done|]. split; [done|]. split; [done|]. split; [done|].
  intros S Hin. by apply HS, list_elem_of_further.
Qed.

Lemma syncImageSet_io_total (w : World) (imageSetPath imageSourcePath : string) :
  sound w → typed w → flat w imageSourcePath [imageSetPath] →
  is_Some (manifests w !! Path.join imageSetPath "Contents.json") →
  ∃ out, syncImageSet_io w imageSetPath imageSourcePath = Normal out.
Proof.
  intros [Hsound _] Htyped (Hapart & HS & HP & _)%flat_cons [contents Hc].
  unfold syncImageSet_io. rewrite Hc.
  destruct (syncImageSet_total imageSetPath imageSourcePath Hapart (image_files w) contents
              (sound_plain _ (Hsound _ _ Hc)) (conj HS HP) (Htyped _ _ Hc)) as [run ->].
  rewrite bind_Normal. eauto.
Qed.

Lemma forEach_imageSet_total (assetCatalogPath imageSourcePath : string)
    (imageSets : list string) (w : World) (result : AssetCatalogSyncResult) :
  sound w → typed w →
  flat w imageSourcePath (Path.join assetCatalogPath <$> imageSets) →
  ((∃ out, forEach_imageSet assetCatalogPath imageSourcePath imageSets w result = Normal out) ↔
   ∀ n, n ∈ imageSets →
        is_Some (manifests w !! Path.join (Path.join assetCatalogPath n) "Contents.json")).
Proof.
  revert w result. induction imageSets as [|imageSet rest IH]; intros w result Hsound Htyped Hflat.
  - split; [|simpl; eauto]. intros _ n Hn. by apply elem_of_nil in Hn.
  - rewrite fmap_cons in Hflat.
    destruct (flat_cons _ _ _ _ Hflat) as (Hapart & HS & HP & Hrest).
    assert (flat w imageSourcePath [Path.join assetCatalogPath imageSet]) as Hone.
    { split; [done|]. by intros S ->%list_elem_of_singleton. }
    split.
    + intros [[w' result'] (w1 & r & Hio & Hloop)%forEach_imageSet_cons] n Hn.
      destruct (syncImageSet_io_typed _ _ _ _ _ Htyped Hio) as [Htyped1 Hsame].
      apply elem_of_cons in Hn as [->|Hn].
      * destruct (syncImageSet_io_inv _ _ _ _ _ Hio) as (c & _ & Hc & _). by rewrite Hc.
      * apply Hsame.
        apply (IH w1 (set_key imageSet r result)
                 (syncImageSet_io_sound _ _ _ _ _ Hsound Hio) Htyped1
                 (syncImageSet_io_flat _ _ _ _ _ _ Hio Hrest)); eauto.
    + intros Hall.
      destruct (syncImageSet_io_total w (Path.join assetCatalogPath imageSet) imageSourcePath
                  Hsound Htyped Hone) as [[w1 r] Hio]; [apply Hall, list_elem_of_here|].
      destruct (syncImageSet_io_typed _ _ _ _ _ Htyped Hio) as [Htyped1 Hsame].
      simpl. rewrite Hio, bind_Normal.
      apply (IH w1 (set_key imageSet r result)
               (syncImageSet_io_sound _ _ _ _ _ Hsound Hio) Htyped1
               (syncImageSet_io_flat _ _ _ _ _ _ Hio Hrest)).
      intros n Hn. apply Hsame, Hall. by apply list_elem_of_further.
Qed.

Lemma syncAssetCatalog_ready (w : World) (assetCatalogPath imageSourcePath : string) :
  sound w → typed w →
  flat w imageSourcePath (imageSet_paths w assetCatalogPath) →
  (∃ out, syncAssetCatalog w assetCatalogPath imageSourcePath = Normal out) ↔
  ready w assetCatalogPath.
Proof.
  intros Hsound Htyped. unfold syncAssetCatalog, ready, imageSet_paths.
  destruct (listings w !! assetCatalogPath) as [names|]; intros Hflat.
  - rewrite (forEach_imageSet_total _ _ _ _ _ Hsound Htyped Hflat). split.
    + intros Hall. exists names. split; [done|]. intros n Hn Hset.
      apply Hall, elem_of_filter_list. done.
    + intros (names' & [= <-] & Hall) n [Hn Hset]%elem_of_filter_list. by apply Hall.
  - split; [by intros [out ?]|by intros (names & ? & _)].
Qed.

(** X12: on a map that describes a disk, when the manifests are well
    formed, none has an empty [appearances] array, and the source folder and
    the image-set folders of the catalog are different places that hold no
    folder, synchronising a catalog completes exactly when the catalog can be
    listed and every image set of the listing has its manifest; otherwise it
    throws. *)
Theorem syncAssetCatalog_completes (w : World) (assetCatalogPath imageSourcePath : string) :
  Fs.consistent (image_files w) = true →
  sound w → typed w →
  flat w imageSourcePath (imageSet_paths w assetCatalogPath) →
  (∃ out, syncAssetCatalog w assetCatalogPath imageSourcePath = Normal out) ↔
  ∃ names,
    listings w !! assetCatalogPath = Some names ∧
    ∀ n, n ∈ names → is_image_set n = true →
         is_Some (manifests w !! Path.join (Path.join assetCatalogPath n) "Contents.json").
Proof.
  intros _ Hsound Htyped Hflat. by apply syncAssetCatalog_ready.
Qed.
Lemma demo_world_sound : sound demo_world.
Proof.
  split.
  - apply map_Forall_lookup, map_Forall_to_list. vm_compute.
    repeat constructor; discriminate.
  - apply (map_Forall_lookup (λ _ names, NoDup names ∧ Forall (λ n, plain_name n = true) names)).
    apply map_Forall_to_list. vm_compute.
    repeat constructor;
      intros H; repeat (apply elem_of_cons in H as [H|H]; [discriminate|]);
      by apply elem_of_nil in H.
Qed.

Lemma demo_world_typed : typed demo_world.
Proof.
  apply map_Forall_lookup, map_Forall_to_list. vm_compute. repeat constructor; discriminate.
Qed.

Lemma demo_world_flat : flat demo_world pool (imageSet_paths demo_world "assets/Demo.xcassets").
Proof.
  split; [by apply holds_no_folder_spec|].
  intros S HS. vm_compute in HS.
  repeat (apply elem_of_cons in HS as [->|HS];
          [split; [unfold apart; vm_compute; discriminate|by apply holds_no_folder_spec]|]).
  by apply elem_of_nil in HS.
Qed.

Lemma syncAssetCatalog_completes_witness :
  ∃ out, syncAssetCatalog demo_world "assets/Demo.xcassets" pool = Normal out.
Proof.
  apply (proj2 (syncAssetCatalog_completes demo_world "assets/Demo.xcassets" pool
                  eq_refl demo_world_sound demo_world_typed demo_world_flat)).
  exists ["Contents.json"; "Icon.imageset"; "Logo.appiconset"]. split; [reflexivity|].
  intros n Hn Hset.
  repeat (apply elem_of_cons in Hn as [->|Hn]; [done || (vm_compute; eauto)|]).
  by apply elem_of_nil in Hn.
Defined.

Lemma app_inv_head (s t u : string) : s +:+ t = s +:+ u → t = u.
Proof.
  induction s as [|c s IH]; [by rewrite !app_nil_l|].
  rewrite !app_cons. intros [= E]. by apply IH.
Qed.





(** ** The entry point *)

Lemma forEach_push_flat_map {A B : Type} (items : A → list B) (entries : list A)
    (array : list B) :
  forEach_push items entries array = array ++ flat_map items entries.
Proof.
  unfold forEach_push. revert array. induction entries as [|e entries IH]; intros array; simpl.
  - by rewrite (right_id_L [] (++)).
  - by rewrite IH, <- (assoc_L (++)).
Qed.

Lemma collect_fold (results : list AssetCatalogSyncResult) (s : Summary) :
  let s' := fold_left collect_catalog results s in
  unassignedImageSets s' =
    unassignedImageSets s ++
    flat_map (λ result, List.map fst (List.filter (λ e, unassigned (snd e)) result)) results ∧
  updatedFiles s' =
    updatedFiles s ++ flat_map (flat_map (λ e, updated (snd e))) results ∧
  missingFiles s' =
    missingFiles s ++
    flat_map (flat_map (λ e, List.map (λ f, (f, fst e)) (missing (snd e)))) results ∧
  skippedFiles s' =
    skippedFiles s ++ flat_map (flat_map (λ e, skipped (snd e))) results.
Proof.
  revert s. induction results as [|result results IH]; intros s; cbn zeta.
  - simpl. by rewrite !(right_id_L [] (++)).
  - simpl fold_left. destruct (IH (collect_catalog s result)) as (-> & -> & -> & ->).
    unfold collect_catalog; cbn [unassignedImageSets updatedFiles missingFiles skippedFiles].
    rewrite !forEach_push_flat_map. simpl flat_map. rewrite <- !(assoc_L (++)).
    assert (∀ l : AssetCatalogSyncResult, flat_map (λ e, [fst e]) l = List.map fst l) as ->.
    { induction l as [|e l IHl]; [done|]. simpl. by rewrite IHl. }
    done.
Qed.

(** X14: the four lists the report is made of are concatenations, catalog
    after catalog in the order of the listing and image set after image set in
    the order of the result: the updated and the skipped files, the missing
    files each paired with the key of its image set, and the keys of the image
    sets flagged unassigned. Nothing is dropped, merged or reordered. *)
Theorem collect_concatenates (results : list AssetCatalogSyncResult) :
  unassignedImageSets (collect results) =
    flat_map (λ result, List.map fst (List.filter (λ e, unassigned (snd e)) result)) results ∧
  updatedFiles (collect results) = flat_map (flat_map (λ e, updated (snd e))) results ∧
  missingFiles (collect results) =
    flat_map (flat_map (λ e, List.map (λ f, (f, fst e)) (missing (snd e)))) results ∧
  skippedFiles (collect results) = flat_map (flat_map (λ e, skipped (snd e))) results.
Proof. exact (collect_fold results new_Summary). Qed.

(** X15: the report has one line for each updated, missing, unassigned and
    skipped item, a header line for each of the last three sections that is
    not empty, and always a first line about updates, which reads that no
    files were updated exactly when no file was. *)
Theorem report_lines (chalk : Chalk) (s : Summary) :
  length (report chalk s) =
    (1 + length (updatedFiles s)
     + header_lines (length (missingFiles s)) + length (missingFiles s)
     + header_lines (length (unassignedImageSets s)) + length (unassignedImageSets s)
     + header_lines (length (skippedFiles s)) + length (skippedFiles s))%nat ∧
  (head (report chalk s) = Some (line_break +:+ "No files were updated" +:+ ellipsis)
   ↔ updatedFiles s = []).
Proof.
  split.
  - unfold report. cbn zeta. rewrite !length_app, !length_map.
    assert (∀ (n : nat) (h : string),
              length (if Nat.ltb 0 n then [h] else []) = header_lines n) as Hh
      by (by intros [|n] h).
    rewrite !Hh. simpl. lia.
  - unfold report. cbn zeta. simpl head.
    destruct (updatedFiles s) as [|f l]; [done|]. simpl length. cbn [Nat.ltb Nat.leb].
    split; [|done]. intros [= E]. exfalso. apply app_inv_head in E.
    pose proof (strip_suffix_app (pretty (S (length l)) +:+ " files were updated") ":") as H.
    rewrite app_assoc in H.
    change (" files were updated" +:+ ":") with " files were updated:" in H.
    rewrite E in H. vm_compute in H. done.
Qed.
Lemma map_assetCatalog_cons (assetPath exportPath file : string) (rest : list string)
    (w w' : World) (results : list AssetCatalogSyncResult) :
  map_assetCatalog assetPath exportPath (file :: rest) w = Normal (w', results) →
  ∃ w1 r rs,
    syncAssetCatalog w (Path.join assetPath file) exportPath = Normal (w1, r) ∧
    map_assetCatalog assetPath exportPath rest w1 = Normal (w', rs) ∧
    results = r :: rs.
Proof.
  simpl. destruct (syncAssetCatalog w _ exportPath) as [[w1 r]|];
    rewrite ?bind_Normal, ?bind_Throw; [|done].
  destruct (map_assetCatalog assetPath exportPath rest w1) as [[w2 rs]|] eqn:Hrest;
    rewrite ?bind_Normal, ?bind_Throw; [|done].
  intros [= <- <-]. by exists w1, r, rs.
Qed.

Lemma syncAssetCatalog_runs (w w' : World) (assetCatalogPath imageSourcePath : string)
    (r : AssetCatalogSyncResult) :
  syncAssetCatalog w assetCatalogPath imageSourcePath = Normal (w', r) →
  runs imageSourcePath (imageSet_paths w assetCatalogPath) w = Normal w'.
Proof.
  unfold syncAssetCatalog, imageSet_paths.
  destruct (listings w !! assetCatalogPath); [|done]. apply forEach_imageSet_runs.
Qed.

Lemma imageSet_paths_listings (w w' : World) (assetCatalogPath : string) :
  listings w' = listings w → imageSet_paths w' assetCatalogPath = imageSet_paths w assetCatalogPath.
Proof. unfold imageSet_paths. by intros ->. Qed.

Lemma map_assetCatalog_runs (assetPath exportPath : string) (assetCatalogs : list string)
    (w w' : World) (results : list AssetCatalogSyncResult) :
  map_assetCatalog assetPath exportPath assetCatalogs w = Normal (w', results) →
  runs exportPath (assetCatalogs ≫= λ file, imageSet_paths w (Path.join assetPath file)) w
    = Normal w'.
Proof.
  revert w results. induction assetCatalogs as [|file rest IH]; intros w results.
  - by intros [= <- <-].
  - intros (w1 & r & rs & Hcatalog & Hrest & _)%map_assetCatalog_cons.
    apply syncAssetCatalog_runs in Hcatalog. apply IH in Hrest.
    rewrite bind_cons, runs_app, Hcatalog, bind_Normal.
    rewrite <- Hrest. f_equal. apply list_bind_ext; [|done].
    intros file'. symmetry. apply imageSet_paths_listings. by eapply runs_listings.
Qed.








Lemma runs_typed (imageSourcePath : string) (imageSets : list string) (w w' : World) :
  typed w → runs imageSourcePath imageSets w = Normal w' →
  typed w' ∧ ∀ path, is_Some (manifests w' !! path) ↔ is_Some (manifests w !! path).
Proof.
  revert w. induction imageSets as [|imageSetPath rest IH]; intros w Htyped.
  - by intros [= <-].
  - intros (w1 & r & Hio & Hrest)%runs_cons.
    destruct (syncImageSet_io_typed _ _ _ _ _ Htyped Hio) as [Htyped1 Hsame1].
    destruct (IH _ Htyped1 Hrest) as [Htyped' Hsame]. split; [done|].
    intros path. by rewrite Hsame, Hsame1.
Qed.

Lemma ready_preserved (w w' : World) (assetCatalogPath : string) :
  listings w' = listings w →
  (∀ path, is_Some (manifests w' !! path) ↔ is_Some (manifests w !! path)) →
  ready w' assetCatalogPath ↔ ready w assetCatalogPath.
Proof.
  intros Hl Hm. unfold ready. rewrite Hl.
  split; intros (names & Hnames & Hall); exists names; (split; [done|]);
    intros n Hn Hset; apply Hm; by apply Hall.
Qed.

Lemma runs_flat (imageSourcePath : string) (imageSets sets : list string) (w w' : World) :
  runs imageSourcePath imageSets w = Normal w' →
  flat w imageSourcePath sets → flat w' imageSourcePath sets.
Proof.
  revert w. induction imageSets as [|imageSetPath rest IH]; intros w.
  - by intros [= <-].
  - intros (w1 & r & Hio & Hrest)%runs_cons Hflat.
    apply (IH w1 Hrest). by eapply syncImageSet_io_flat.
Qed.

Lemma map_assetCatalog_total (assetPath exportPath : string) (assetCatalogs : list string)
    (w : World) :
  sound w → typed w →
  (∀ file, file ∈ assetCatalogs →
     flat w exportPath (imageSet_paths w (Path.join assetPath file))) →
  (∃ out, map_assetCatalog assetPath exportPath assetCatalogs w = Normal out) ↔
  ∀ file, file ∈ assetCatalogs → ready w (Path.join assetPath file).
Proof.
  revert w. induction assetCatalogs as [|file rest IH]; intros w Hsound Htyped Hflat.
  - split; [|simpl; eauto]. intros _ file Hfile. by apply elem_of_nil in Hfile.
  - pose proof (Hflat file (list_elem_of_here _ _)) as Hfirst.
    assert (∀ w1 r, syncAssetCatalog w (Path.join assetPath file) exportPath = Normal (w1, r) →
              sound w1 ∧ typed w1 ∧ listings w1 = listings w ∧
              (∀ path, is_Some (manifests w1 !! path) ↔ is_Some (manifests w !! path)) ∧
              ∀ file', file' ∈ rest →
                flat w1 exportPath (imageSet_paths w1 (Path.join assetPath file'))) as Hnext.
    { intros w1 r Hcatalog.
      pose proof (syncAssetCatalog_runs _ _ _ _ _ Hcatalog) as Hruns.
      destruct (runs_typed _ _ _ _ Htyped Hruns) as [Htyped1 Hsame].
      destruct (runs_frame _ _ _ _ Hsound Hruns) as [Hsound1 _].
      pose proof (runs_listings _ _ _ _ Hruns) as Hlistings.
      split; [done|]. split; [done|]. split; [done|]. split; [done|].
      intros file' Hfile'. rewrite (imageSet_paths_listings w w1 _ Hlistings).
      apply (runs_flat _ _ _ _ _ Hruns). apply Hflat. by apply list_elem_of_further. }
    split.
    + intros [[w' results] (w1 & r & rs & Hcatalog & Hrest & _)%map_assetCatalog_cons].
      destruct (Hnext _ _ Hcatalog) as (Hsound1 & Htyped1 & Hlistings & Hsame & Hflat1).
      intros file' [->|Hfile']%elem_of_cons.
      * apply (syncAssetCatalog_ready w _ exportPath Hsound Htyped Hfirst). eauto.
      * apply (ready_preserved w w1 _ Hlistings Hsame).
        apply (IH w1 Hsound1 Htyped1 Hflat1); eauto.
    + intros Hall.
      destruct (proj2 (syncAssetCatalog_ready w (Path.join assetPath file) exportPath
                         Hsound Htyped Hfirst))
        as [[w1 r] Hcatalog]; [apply Hall, list_elem_of_here|].
      destruct (Hnext _ _ Hcatalog) as (Hsound1 & Htyped1 & Hlistings & Hsame & Hflat1).
      destruct (proj2 (IH w1 Hsound1 Htyped1 Hflat1)) as [[w2 rs] Hrest].
      { intros file' Hfile'.
        apply (ready_preserved w w1 _ Hlistings Hsame).
        by apply Hall, list_elem_of_further. }
      simpl. rewrite Hcatalog, bind_Normal, Hrest, bind_Normal. eauto.
Qed.

(** X17: how the program ends. It stops with the error about its options
    exactly when the source or the destination option is absent or empty,
    before it looks at any file. On a map that describes a disk, with
    well-formed manifests, none of them having an empty [appearances] array,
    and with a source folder and image-set folders that are different places
    and hold no folder, it reaches its report exactly when both options are
    given, the destination can be listed, and every catalog of the listing
    can be listed and has a manifest for each of its image sets. *)
Theorem main_outcome (chalk : Chalk) (source destination : option string) (w : World) :
  (main chalk source destination w = inl ConfigError ↔
   Js.truthy source = false ∨ Js.truthy destination = false) ∧
  (Fs.consistent (image_files w) = true → sound w → typed w →
   (∀ exportPath assetPath catalogs file,
      Js.truthy_value source = Some exportPath →
      Js.truthy_value destination = Some assetPath →
      listings w !! assetPath = Some catalogs →
      file ∈ catalogs → is_asset_catalog file = true →
      flat w exportPath (imageSet_paths w (Path.join assetPath file))) →
   ((∃ out, main chalk source destination w = inr out) ↔
    ∃ exportPath assetPath catalogs,
      Js.truthy_value source = Some exportPath ∧
      Js.truthy_value destination = Some assetPath ∧
      listings w !! assetPath = Some catalogs ∧
      ∀ file, file ∈ catalogs → is_asset_catalog file = true →
              ready w (Path.join assetPath file))).
Proof.
  assert (∀ x, Js.truthy x = false ↔ Js.truthy_value x = None) as Htruthy.
  { intros [s|]; [|done]. simpl. by destruct (String.eqb s ""). }
  split.
  - rewrite !Htruthy. unfold main.
    destruct (Js.truthy_value source) as [exportPath|]; [|split; [by left|done]].
    destruct (Js.truthy_value destination) as [assetPath|]; [|split; [by right|done]].
    split; [|by intros [?|?]].
    destruct (listings w !! assetPath) as [names|]; [|done].
    by destruct (map_assetCatalog _ _ _ _) as [[w' results]|].
  - intros _ Hsound Htyped Hflat. unfold main.
    destruct (Js.truthy_value source) as [exportPath|];
      [|split; [by intros [out ?]|by intros (? & ? & ? & ? & _)]].
    destruct (Js.truthy_value destination) as [assetPath|];
      [|split; [by intros [out ?]|by intros (? & ? & ? & ? & ? & _)]].
    destruct (listings w !! assetPath) as [names|] eqn:Hlist;
      [|split; [by intros [out ?]|intros (? & ? & ? & _ & [= <-] & ? & _); congruence]].
    assert (∀ file, file ∈ List.filter is_asset_catalog names →
              flat w exportPath (imageSet_paths w (Path.join assetPath file))) as Hflat'.
    { intros file [Hfile Hcat]%elem_of_filter_list. by eapply Hflat. }
    pose proof (map_assetCatalog_total assetPath exportPath
                  (List.filter is_asset_catalog names) w Hsound Htyped Hflat') as Htotal.
    split.
    + intros [out Hout]. exists exportPath, assetPath, names. repeat split; try done.
      intros file Hfile Hcat. apply (proj1 Htotal); [|by apply elem_of_filter_list].
      destruct (map_assetCatalog _ _ _ _) as [out'|]; [eauto|done].
    + intros (? & ? & names' & [= <-] & [= <-] & Hnames' & Hall).
      assert (names' = names) as -> by congruence.
      destruct (proj2 Htotal) as [[w' results] ->]; [|eauto].
      intros file [Hfile Hcat]%elem_of_filter_list. by apply Hall.
Qed.

Lemma main_outcome_witness :
  main plain_chalk (Some "") (Some "assets") demo_world = inl ConfigError ∧
  ∃ out, main plain_chalk (Some "pool") (Some "assets") demo_world = inr out.
Proof.
  split.
  - apply (proj1 (main_outcome plain_chalk (Some "") (Some "assets") demo_world)).
    left. reflexivity.
  - apply (proj2 (main_outcome plain_chalk (Some "pool") (Some "assets") demo_world)
             eq_refl demo_world_sound demo_world_typed).
    + intros exportPath assetPath catalogs file [= <-] [= <-] [= <-] Hfile Hcat.
      apply elem_of_cons in Hfile as [->|Hfile]; [exact demo_world_flat|].
      apply elem_of_cons in Hfile as [->|Hfile]; [discriminate Hcat|].
      by apply elem_of_nil in Hfile.
    + exists "pool", "assets", ["Demo.xcassets"; "notes.txt"]. repeat split.
      intros file Hfile Hcat.
      apply elem_of_cons in Hfile as [->|Hfile].
      * exists ["Contents.json"; "Icon.imageset"; "Logo.appiconset"]. split; [reflexivity|].
        intros n Hn Hset.
        repeat (apply elem_of_cons in Hn as [->|Hn]; [done || (vm_compute; eauto)|]).
        by apply elem_of_nil in Hn.
      * apply elem_of_cons in Hfile as [->|Hfile]; [done|by apply elem_of_nil in Hfile].
Defined.
Lemma runs_pool (imageSourcePath : string) (imageSets : list string) (w w' : World) :
  sound w → runs imageSourcePath imageSets w = Normal w' →
  pool_unchanged imageSourcePath (image_files w) (image_files w').
Proof.
  revert w. induction imageSets as [|imageSetPath rest IH]; intros w Hsound.
  - by intros [= <-].
  - intros (w1 & r & Hio & Hrest)%runs_cons.
    pose proof (IH w1 (syncImageSet_io_sound _ _ _ _ _ Hsound Hio) Hrest) as Hpool.
    destruct (syncImageSet_io_inv _ _ _ _ _ Hio)
      as (contents & run & Hc & Hrun & _ & Hfiles & _).
    destruct (syncImageSet_loop _ _ _ _ _ Hrun) as (st & imgs & Hloop & ->).
    destruct (forEach_image_first_run _ _ _ _ _ _
                (sound_plain _ (proj1 Hsound _ _ Hc)) Hloop) as ([Hpool1 _] & _).
    cbn [files run_files] in *. intros x Hx. rewrite (Hpool x Hx), Hfiles. by apply Hpool1.
Qed.

(** X18: the program only reads the source directory. On a map that
    describes a disk and with well-formed manifests, a run that reaches its
    end has created, replaced or removed no file of the directory given as
    source, whatever that directory is. *)
Theorem main_keeps_the_pool (chalk : Chalk) (exportPath : string)
    (destination : option string) (w w1 : World) (out : list string) (x : string) :
  Fs.consistent (image_files w) = true →
  sound w →
  main chalk (Some exportPath) destination w = inr (w1, out) →
  plain_name x = true →
  image_files w1 !! Path.join exportPath x = image_files w !! Path.join exportPath x.
Proof.
  intros _ Hsound Hmain Hx. unfold main in Hmain.
  destruct (Js.truthy_value (Some exportPath)) as [exportPath'|] eqn:Ht; [|done].
  apply truthy_value_Some in Ht as [[= <-] _].
  destruct (Js.truthy_value destination) as [assetPath|]; [|done].
  destruct (listings w !! assetPath) as [names|]; [|done].
  destruct (map_assetCatalog _ _ _ _) as [[w' results]|] eqn:Hmap; [|done].
  injection Hmain as -> _. apply map_assetCatalog_runs in Hmap.
  by apply (runs_pool _ _ _ _ Hsound Hmap).
Qed.

Lemma main_keeps_the_pool_witness :
  image_files (world_of (syncAssetCatalog demo_world "assets/Demo.xcassets" "pool") demo_world)
    !! Path.join "pool" "icon.png" = Some (file "new" 2000) ∧
  image_files (world_of (syncAssetCatalog demo_world "assets/Demo.xcassets" "pool") demo_world)
    !! "assets/Demo.xcassets/Icon.imageset/icon.png" = Some (file "new" 2000) ∧
  image_files demo_world !! "assets/Demo.xcassets/Icon.imageset/icon.png"
    = Some (file "old" 1000).
Proof.
  split; [|split; reflexivity].
  rewrite (main_keeps_the_pool plain_chalk "pool" (Some "assets") demo_world _
             (report plain_chalk
                (collect [result_of (syncAssetCatalog demo_world "assets/Demo.xcassets" "pool")
                            []]))
             "icon.png" eq_refl demo_world_sound).
  - reflexivity.
  - vm_compute. reflexivity.
  - reflexivity.
Defined.

Lemma filter_list_none {A : Type} (f : A → bool) (l : list A) :
  Forall (λ x, f x = false) l → List.filter f l = [].
Proof. induction 1 as [|x l Hx _ IH]; [done|]. simpl. by rewrite Hx. Qed.

(** X19: nothing to synchronise. A catalog whose listing has no entry with
    the extension [.imageset] or [.appiconset] gives an empty result and is
    left as it is; a destination whose listing has no entry with the extension
    [.xcassets] is left as it is too, and the report is the single line that no
    files were updated. *)
Theorem nothing_to_synchronise (chalk : Chalk) (w : World) (dir exportPath : string)
    (names : list string) :
  listings w !! dir = Some names →
  (Forall (λ n, is_image_set n = false) names →
   syncAssetCatalog w dir exportPath = Normal (w, [])) ∧
  (Forall (λ n, is_asset_catalog n = false) names →
   exportPath ≠ "" → dir ≠ "" →
   main chalk (Some exportPath) (Some dir) w =
     inr (w, [line_break +:+ "No files were updated" +:+ ellipsis])).
Proof.
  intros Hnames. split.
  - intros Hnone. unfold syncAssetCatalog. by rewrite Hnames, (filter_list_none _ _ Hnone).
  - intros Hnone He Hd. unfold main.
    assert (Js.truthy_value (Some exportPath) = Some exportPath) as ->
      by by apply truthy_value_Some.
    assert (Js.truthy_value (Some dir) = Some dir) as -> by by apply truthy_value_Some.
    by rewrite Hnames, (filter_list_none _ _ Hnone).
Qed.

Lemma nothing_to_synchronise_witness :
  syncAssetCatalog demo_world "assets" "pool" = Normal (demo_world, []) ∧
  main plain_chalk (Some "pool") (Some "assets/Demo.xcassets") demo_world =
    inr (demo_world, [line_break +:+ "No files were updated" +:+ ellipsis]).
Proof.
  split.
  - refine (proj1 (nothing_to_synchronise plain_chalk demo_world "assets" "pool"
                     ["Demo.xcassets"; "notes.txt"] _) _); [reflexivity|].
    repeat constructor.
  - refine (proj2 (nothing_to_synchronise plain_chalk demo_world "assets/Demo.xcassets" "pool"
                     ["Contents.json"; "Icon.imageset"; "Logo.appiconset"] _) _ _ _);
      [reflexivity| |done|done].
    repeat constructor.
Defined.

Lemma cut_ext_spec (s stem ext : string) :
  Path.cut_ext s = Some (stem, ext) → s = stem +:+ ext.
Proof.
  revert stem. induction s as [|c s IH]; intros stem; simpl; [done|].
  destruct (Path.cut_ext s) as [[stem' ext']|].
  - intros [= <- <-]. rewrite app_cons. f_equal. by apply IH.
  - destruct (Ascii.eqb c "."); [|done]. intros [= <- <-]. by rewrite app_nil_l.
Qed.

Lemma extname_plain (n ext : string) :
  plain_name n = true → Path.extname n = ext → ext ≠ "" →
  ∃ stem, stem ≠ "" ∧ no_slash stem = true ∧ n = stem +:+ ext.
Proof.
  intros (Hns & Hne & _)%plain_name_spec.
  assert (Path.basename n = n) as Hbase.
  { rewrite <- (app_nil_l n) at 1. apply basename_dirlike; [by left|done|done]. }
  unfold Path.extname. rewrite Hbase.
  destruct (Path.cut_ext n) as [[stem ext']|] eqn:Hcut; [|by intros <-].
  destruct (String.eqb stem "") eqn:Hstem; [by intros <-|].
  destruct (String.eqb n ".."); [by intros <-|]. cbn [orb]. intros -> _.
  apply cut_ext_spec in Hcut as ->. exists stem. apply String.eqb_neq in Hstem.
  rewrite no_slash_app in Hns. apply andb_true_iff in Hns as [? _]. done.
Qed.

(** X20: from the catalog to the locator. An entry of a catalog's listing
    that is taken for an image set is a stem that is not empty followed by
    [.imageset] or [.appiconset], and the name the locator derives for the
    folder of that image set is the stem in lower case with its dots turned
    into hyphens, wherever the catalog lies. *)
Theorem image_set_stem (assetCatalogPath n : string) :
  plain_name n = true → is_image_set n = true →
  ∃ stem, stem ≠ "" ∧
    (n = stem +:+ ".imageset" ∨ n = stem +:+ ".appiconset") ∧
    derived_name (Path.join assetCatalogPath n) = Js.toLowerCase (Js.replace_dots stem).
Proof.
  intros Hn Hset. unfold is_image_set in Hset.
  assert (∀ e, e = "imageset" ∨ e = "appiconset" → Path.extname n = String "." e →
            ∃ stem, stem ≠ "" ∧ n = stem +:+ String "." e ∧
              derived_name (Path.join assetCatalogPath n)
                = Js.toLowerCase (Js.replace_dots stem)) as Hstem.
  { intros e He Hext.
    destruct (extname_plain n _ Hn Hext) as (stem & Hne & Hns & ->); [done|].
    exists stem. split; [done|]. split; [done|]. rewrite (join_plain _ _ Hn).
    apply derived_name_folder; [apply dir_prefix_dirlike|done|done|..];
      by destruct He as [-> | ->]. }
  apply orb_true_iff in Hset as [Hext|Hext]; apply String.eqb_eq in Hext.
  - destruct (Hstem "imageset") as (stem & ? & ? & ?); [by left|done|]. exists stem. auto.
  - destruct (Hstem "appiconset") as (stem & ? & ? & ?); [by right|done|]. exists stem. auto.
Qed.

Lemma image_set_stem_witness :
  ∃ stem, stem ≠ "" ∧
    (String capital_e_acute "cole.Icon.appiconset" = stem +:+ ".imageset" ∨
     String capital_e_acute "cole.Icon.appiconset" = stem +:+ ".appiconset") ∧
    derived_name (Path.join "assets/Demo.xcassets" (String capital_e_acute "cole.Icon.appiconset"))
      = Js.toLowerCase (Js.replace_dots stem).
Proof.
  apply (image_set_stem "assets/Demo.xcassets" (String capital_e_acute "cole.Icon.appiconset"));
    reflexivity.
Defined.

Example image_set_stem_sample :
  derived_name (Path.join "assets/Demo.xcassets" (String capital_e_acute "cole.Icon.appiconset"))
    = String small_e_acute "cole-icon".
Proof. reflexivity. Qed.
